(** * RepeetCode backend: scheduler, streak and review-state flows

    A shallow embedding of [backend/main.py] and [backend/database.py]:
    the review scheduler [calculate_next_review], the streak calculator
    [calculate_current_streak], the request handlers [log_problem] and
    [get_todays_reviews], and the scoped transaction [get_db_cursor];
    then the check of the authorization header [verify_token] and the
    handlers that only read, [get_user_problem_logs], [dashboard_stats],
    [get_all_problems] and [get_problem_bank].

    Conventions of the embedding.
    - A Python [int] is a [Z]; a Python [float] is a primitive binary64
      [float], so [*] between an int and a float is the IEEE-754
      product of the converted int and the float.
    - A [datetime] is the number of microseconds of its own wall-clock
      fields since 0001-01-01T00:00:00, together with its optional UTC
      offset; a [date] is its proleptic Gregorian ordinal (1 is
      0001-01-01), as in [date.toordinal]. Arithmetic that leaves the
      years 1..9999 raises [OverflowError], as in Python.
    - A raised exception is a value of [exn]; code that can raise
      returns a [result].
    - A Python [str] is the string of the bytes of its UTF-8
      encoding.
    - The clock is an argument: every call of [datetime.utcnow()] or
      [datetime.now(timezone.utc)] in the source is a parameter of the
      embedded function. *)

From Stdlib Require Import Floats.
From Stdlib Require Import ZArith Lia Ascii String.
From stdpp Require Import gmap strings list.
From stdpp Require sorting.

#[local] Set Warnings "-inexact-float,-register-all".
#[local] Open Scope Z_scope.

(** ** Exceptions and results *)

(** The exceptions the modelled code raises. [HTTPException s d c] is
    FastAPI's exception with status [s] and detail [d ++ str(c)]: the
    handlers build their detail by formatting the exception they caught,
    which is kept here as the cause instead of its text.
    [OperationalError] stands for any error of the database driver.
    [FuelExhausted] is no Python exception: it marks a loop of the
    embedding cut off by its fuel, and [streak_loop_fuel] shows that it
    is never returned. *)
Inductive exn : Type :=
| KeyError (key : Z)
| TypeError (msg : string)
| ValueError (msg : string)
| OverflowError (msg : string)
| OperationalError
| FuelExhausted
| HTTPException (status_code : Z) (detail : string) (cause : option exn).

Inductive result (A : Type) : Type :=
| Ok (a : A)
| Raise (e : exn).
Arguments Ok {A} a.
Arguments Raise {A} e.

#[global] Instance result_ret : MRet result := fun A a => Ok a.
#[global] Instance result_bind : MBind result := fun A B f m =>
  match m with
  | Ok a => f a
  | Raise e => Raise e
  end.

Definition is_ok {A} (r : result A) : bool :=
  match r with Ok _ => true | Raise _ => false end.

(** ** Dates and times *)

Module Time.

Definition US_PER_SECOND : Z := 1000000.
Definition US_PER_DAY : Z := 86400 * US_PER_SECOND.

(** [date.max.toordinal()], the ordinal of 9999-12-31. *)
Definition MAXORDINAL : Z := 3652059.

(** A timedelta is its total number of microseconds. *)
Definition timedelta (days : Z) : Z := days * US_PER_DAY.

(** [td.days]: the normalised day count, rounded towards minus
    infinity. *)
Definition days (td : Z) : Z := td / US_PER_DAY.

Record datetime : Type := mk_datetime {
  wall : Z;
  tzinfo : option Z
}.

Definition naive (w : Z) : datetime := {| wall := w; tzinfo := None |}.

(** [datetime.utcnow()] and [datetime.now(timezone.utc)] at the clock
    reading [clock] (microseconds of UTC since 0001-01-01). *)
Definition utcnow (clock : Z) : datetime := naive clock.
Definition now_utc (clock : Z) : datetime :=
  {| wall := clock; tzinfo := Some 0 |}.

Definition in_range (w : Z) : bool :=
  (0 <=? w) && (w <? MAXORDINAL * US_PER_DAY).

(** [a - b] on datetimes. *)
Definition datetime_sub (a b : datetime) : result Z :=
  match tzinfo a, tzinfo b with
  | None, None => Ok (wall a - wall b)
  | Some oa, Some ob => Ok ((wall a - oa) - (wall b - ob))
  | _, _ =>
      Raise (TypeError "can't subtract offset-naive and offset-aware datetimes")
  end.

(** [a + td]. *)
Definition datetime_add (a : datetime) (td : Z) : result datetime :=
  let w := wall a + td in
  if in_range w then Ok {| wall := w; tzinfo := tzinfo a |}
  else Raise (OverflowError "date value out of range").

(** [dt.date()]: the calendar date of the wall-clock fields; the
    offset is dropped, not applied. *)
Definition date (dt : datetime) : Z := wall dt / US_PER_DAY + 1.

(** [d - timedelta(days=n)] on dates. *)
Definition date_sub_days (d n : Z) : result Z :=
  let o := d - n in
  if (1 <=? o) && (o <=? MAXORDINAL) then Ok o
  else Raise (OverflowError "date value out of range").

(** [datetime.combine(d, time(h, m, s))]. *)
Definition combine (d : Z) (h m s : Z) : datetime :=
  naive ((d - 1) * US_PER_DAY + ((h * 60 + m) * 60 + s) * US_PER_SECOND).

(** The clock readings at which every date the code computes (up to
    90 days ahead) is still a datetime. *)
Definition clock_ok (clock : Z) : Prop :=
  0 <= clock /\ clock + timedelta 90 < MAXORDINAL * US_PER_DAY.

End Time.
Import Time.

(** ** Python numbers *)

(** [float(z)], the conversion Python applies to the int operand of a
    mixed product: the nearest binary64, ties to even. *)
Definition int_to_float (z : Z) : result float :=
  match binary_normalize prec emax z 0 false with
  | S754_infinity _ | S754_nan =>
      Raise (OverflowError "int too large to convert to float")
  | sf => Ok (SF2Prim sf)
  end.

(** [z * f] for an int [z] and a float [f]. *)
Definition int_mul_float (z : Z) (f : float) : result float :=
  x ← int_to_float z; Ok (PrimFloat.mul x f).

(** [int(x)]: truncation towards zero. *)
Definition float_to_int (x : float) : result Z :=
  match Prim2SF x with
  | S754_zero _ => Ok 0
  | S754_finite s m e =>
      let a := if 0 <=? e then Z.pos m * 2 ^ e else Z.pos m / 2 ^ (- e) in
      Ok (if s then - a else a)
  | S754_infinity _ =>
      Raise (OverflowError "cannot convert float infinity to integer")
  | S754_nan => Raise (ValueError "cannot convert float NaN to integer")
  end.

(** [d[k]] on a dict with int keys. *)
Definition getitem {V} (d : gmap Z V) (k : Z) : result V :=
  match d !! k with
  | Some v => Ok v
  | None => Raise (KeyError k)
  end.

(** ** The review scheduler *)

Definition initial_days : gmap Z Z :=
  {[ 1 := 8; 2 := 6; 3 := 4; 4 := 2; 5 := 1 ]}.

Definition multiplier : gmap Z float :=
  {[ 1 := 0.5%float; 2 := 0.7%float; 3 := 0.9%float;
     4 := 1.2%float; 5 := 1.5%float ]}.

(** [calculate_next_review(difficulty, last_review_date)], with the
    reading of [datetime.utcnow()] as [clock]. A datetime is always
    truthy, so [not last_review_date] holds for [None] only. *)
Definition calculate_next_review (clock : Z) (difficulty : Z)
    (last_review_date : option datetime) : result datetime :=
  let now := utcnow clock in
  match last_review_date with
  | None =>
      d ← getitem initial_days difficulty;
      datetime_add now (timedelta d)
  | Some last =>
      delta ← datetime_sub now last;
      let days_since_last := days delta in
      m ← getitem multiplier difficulty;
      x ← int_mul_float days_since_last m;
      n ← float_to_int x;
      let next_gap := Z.max 1 n in
      datetime_add now (timedelta (Z.min next_gap 90))
  end.

(** The gap of the specification, in exact arithmetic: the multipliers
    0.5, 0.7, 0.9, 1.2 and 1.5 are the tenths 5, 7, 9, 12 and 15. *)
Definition spec_tenths (d : Z) : Z :=
  match d with
  | 1 => 5 | 2 => 7 | 3 => 9 | 4 => 12 | 5 => 15
  | _ => 0
  end.

Definition spec_gap (d daysSinceLast : Z) : Z :=
  Z.min 90 (Z.max 1 (Z.max 0 daysSinceLast * spec_tenths d / 10)).

(** The gap the repeat case adds to now, as a function of the
    difficulty and of the whole days elapsed (lines 120-123 of
    [calculate_next_review], used to state its properties). *)
Definition repeat_gap (difficulty days_since_last : Z) : result Z :=
  m ← getitem multiplier difficulty;
  x ← int_mul_float days_since_last m;
  n ← float_to_int x;
  Ok (Z.min (Z.max 1 n) 90).

(** ** The streak calculator *)

(** The [while today in logged_days] loop. [date_sub_days] raises once
    [today] would leave the calendar, so [today] iterations are enough
    fuel. *)
Fixpoint streak_loop (fuel : nat) (logged_days : gset Z) (today streak : Z)
    : result Z :=
  match fuel with
  | O => Raise FuelExhausted
  | S fuel' =>
      if decide (today ∈ logged_days) then
        today' ← date_sub_days today 1;
        streak_loop fuel' logged_days today' (streak + 1)
      else Ok streak
  end.

(** Lines 57-62 of [calculate_current_streak], from the set of logged
    days on. *)
Definition current_streak (logged_days : gset Z) (today : Z) : result Z :=
  streak_loop (S (Z.to_nat today)) logged_days today 0.

Section Streak.

(** [datetime.fromisoformat], a function of Python's library: it either
    returns a datetime or raises [ValueError]. *)
Variable fromisoformat : string -> result datetime.

Definition logged_days_of (dates : list string) : result (gset Z) :=
  dts ← mapM fromisoformat dates;
  Ok (list_to_set (date <$> dts)).

(** [calculate_current_streak(dates)], with the reading of
    [datetime.utcnow()] as [clock]. *)
Definition calculate_current_streak (clock : Z) (dates : list string)
    : result Z :=
  match dates with
  | [] => Ok 0
  | _ =>
      logged_days ← logged_days_of dates;
      current_streak logged_days (date (utcnow clock))
  end.

End Streak.

(** The UTC calendar date of a timestamp, as the specification words
    it: the offset is applied before the date is taken (a naive
    timestamp is read as UTC). *)
Definition utc_calendar_date (dt : datetime) : Z :=
  (wall dt - default 0 (tzinfo dt)) / US_PER_DAY + 1.

(** *** [datetime.fromisoformat]

    [datetime.fromisoformat] of Python's library, as CPython 3.11 runs
    it: the date as [YYYY-MM-DD], [YYYYMMDD] or an ISO week date, then,
    after any one character, the time [HH[:MM[:SS[.fff]]]] with or
    without colons and an optional offset [Z] or [+HH[:MM[:SS[.fff]]]],
    and then the checks of the [datetime] constructor. A string is read
    as the bytes of its UTF-8 encoding followed by a NUL, as the C code
    does; [repr] is that of Python for ASCII and for the characters
    Python prints as they are. *)
Module Iso.

(** The bytes of a string, as numbers, and back. *)
Definition codes (s : string) : list Z :=
  (fun c => Z.of_nat (nat_of_ascii c)) <$> list_ascii_of_string s.

Definition of_codes (l : list Z) : string :=
  string_of_list_ascii ((fun n => ascii_of_nat (Z.to_nat n)) <$> l).

(** The byte at [i] of a buffer that ends in a NUL. *)
Definition byte_at (b : list Z) (i : Z) : Z :=
  if i <? 0 then 0 else default 0 (b !! Z.to_nat i).

Definition is_digit (c : Z) : bool := (48 <=? c) && (c <=? 57).

(** [parse_digits]: the number written in the [n] bytes from [pos]
    on. *)
Fixpoint parse_digits (b : list Z) (pos : Z) (n : nat) (acc : Z) : option Z :=
  match n with
  | O => Some acc
  | S k =>
      let c := byte_at b pos in
      if is_digit c then parse_digits b (pos + 1) k (acc * 10 + (c - 48))
      else None
  end.

(** The first position from [pos] on that holds no digit. *)
Fixpoint skip_digits (b : list Z) (pos : Z) (fuel : nat) : Z :=
  match fuel with
  | O => pos
  | S k => if is_digit (byte_at b pos) then skip_digits b (pos + 1) k else pos
  end.

(** **** The calendar *)

Definition is_leap (year : Z) : bool :=
  (year mod 4 =? 0) && (negb (year mod 100 =? 0) || (year mod 400 =? 0)).

Definition days_before_year (year : Z) : Z :=
  let y := year - 1 in y * 365 + y / 4 - y / 100 + y / 400.

Definition days_in_month (year month : Z) : Z :=
  match month with
  | 2 => if is_leap year then 29 else 28
  | 4 | 6 | 9 | 11 => 30
  | _ => 31
  end.

Definition days_before_month (year month : Z) : Z :=
  match month with
  | 1 => 0 | 2 => 31 | 3 => 59 | 4 => 90 | 5 => 120 | 6 => 151
  | 7 => 181 | 8 => 212 | 9 => 243 | 10 => 273 | 11 => 304 | _ => 334
  end + (if (2 <? month) && is_leap year then 1 else 0).

Definition ymd2ord (year month day : Z) : Z :=
  days_before_year year + days_before_month year month + day.

(** [_ord2ymd(n)], for an ordinal from 1 on. *)
Definition ord2ymd (n : Z) : Z * Z * Z :=
  let n := n - 1 in
  let n400 := n / 146097 in
  let n := n mod 146097 in
  let n100 := n / 36524 in
  let n := n mod 36524 in
  let n4 := n / 1461 in
  let n := n mod 1461 in
  let n1 := n / 365 in
  let n := n mod 365 in
  let year := n400 * 400 + 1 + n100 * 100 + n4 * 4 + n1 in
  if (n1 =? 4) || (n100 =? 4) then (year - 1, 12, 31)
  else
    let leapyear := (n1 =? 3) && (negb (n4 =? 24) || (n100 =? 3)) in
    let month := Z.shiftr (n + 50) 5 in
    let preceding :=
      days_before_month 1 month
      + (if (2 <? month) && leapyear then 1 else 0) in
    if n <? preceding then
      let month := month - 1 in
      let preceding :=
        preceding
        - (days_in_month 1 month
           + (if (month =? 2) && leapyear then 1 else 0)) in
      (year, month, n - preceding + 1)
    else (year, month, n - preceding + 1).

(** The ordinal of the Monday of ISO week 1. *)
Definition iso_week1_monday (year : Z) : Z :=
  let first_day := ymd2ord year 1 1 in
  let first_weekday := (first_day + 6) mod 7 in
  let week1_monday := first_day - first_weekday in
  if 3 <? first_weekday then week1_monday + 7 else week1_monday.

(** [iso_to_ymd]: the date of an ISO year, week and weekday, [None]
    for a week or weekday that does not exist. The year is not checked.
    For the year 0000 the C code computes with an ordinal below 1 and
    ends, whatever the week and weekday, on year 1 and a month outside
    1..12: the month is 0 here. *)
Definition iso_to_ymd (iso_year iso_week iso_day : Z) : option (Z * Z * Z) :=
  let week_ok :=
    ((0 <? iso_week) && (iso_week <? 53))
    || ((iso_week =? 53) && (1 <=? iso_year)
        && (let first_weekday := (ymd2ord iso_year 1 1 + 6) mod 7 in
            (first_weekday =? 3)
            || ((first_weekday =? 2) && is_leap iso_year))) in
  if negb week_ok then None
  else if (iso_day <=? 0) || (8 <=? iso_day) then None
  else if iso_year =? 0 then Some (1, 0, 1)
  else
    Some (ord2ymd (iso_week1_monday iso_year + (iso_week - 1) * 7
                   + iso_day - 1)).

(** **** The date *)

(** [_find_isoformat_datetime_separator]: where the date ends, for a
    string of 7 bytes or more; -1 when it cannot be a date. *)
Definition find_separator (b : list Z) : Z :=
  let len := Z.of_nat (length b) in
  if len =? 7 then 7
  else if byte_at b 4 =? 45 then
    if byte_at b 5 =? 87 then
      if len <? 8 then -1
      else if (8 <? len) && (byte_at b 8 =? 45) then
        if len =? 9 then -1
        else if (10 <? len) && is_digit (byte_at b 10) then 8
        else 10
      else 8
    else 10
  else if byte_at b 4 =? 87 then
    let idx := skip_digits b 7 (length b) in
    if idx <? 9 then idx
    else if idx mod 2 =? 0 then 7
    else 8
  else 8.

(** [parse_isoformat_date] on the first [len] bytes. *)
Definition parse_isoformat_date (b : list Z) (len : Z)
    : option (Z * Z * Z) :=
  if negb ((len =? 7) || (len =? 8) || (len =? 10)) then None
  else
    year ← parse_digits b 0 4 0;
    let uses_separator := byte_at b 4 =? 45 in
    let pos := if uses_separator then 5 else 4 in
    if byte_at b pos =? 87 then
      let pos := pos + 1 in
      iso_week ← parse_digits b pos 2 0;
      let pos := pos + 2 in
      if pos <? len then
        if uses_separator && negb (byte_at b pos =? 45) then None
        else
          let pos := if uses_separator then pos + 1 else pos in
          iso_day ← parse_digits b pos 1 0;
          iso_to_ymd year iso_week iso_day
      else iso_to_ymd year iso_week 1
    else
      month ← parse_digits b pos 2 0;
      let pos := pos + 2 in
      if uses_separator && negb (byte_at b pos =? 45) then None
      else
        let pos := if uses_separator then pos + 1 else pos in
        day ← parse_digits b pos 2 0;
        Some (year, month, day).

(** **** The time *)

(** The loop of [parse_hh_mm_ss_ff] over the hour, minute and second
    from [p] up to [p_end]: the numbers read, and either the value the
    function returns there ([inl]: 0 at the end of the string, 1 with
    something left, negative for an error) or the position of a
    fraction ([inr]). *)
Fixpoint components (b : list Z) (p_end : Z) (n : nat) (first : bool)
    (has_separator : bool) (p : Z) (vals : list Z) : (Z + Z) * list Z :=
  match n with
  | O => (inr p, vals)
  | S k =>
      match parse_digits b p 2 0 with
      | None => (inl (-3), vals)
      | Some v =>
          let c := byte_at b (p + 2) in
          let p := p + 3 in
          let has_separator := if first then c =? 58 else has_separator in
          let vals := vals ++ [v] in
          if p_end <=? p then (inl (if c =? 0 then 0 else 1), vals)
          else if has_separator && (c =? 58) then
            components b p_end k false has_separator p vals
          else if (c =? 46) || (c =? 44) then (inr p, vals)
          else if negb has_separator then
            components b p_end k false has_separator (p - 1) vals
          else (inl (-4), vals)
      end
  end.

(** [parse_hh_mm_ss_ff]: the value returned, and the hour, minute,
    second and microsecond. *)
Definition parse_hh_mm_ss_ff (b : list Z) (p p_end : Z)
    : Z * (Z * Z * Z * Z) :=
  let '(r, vals) := components b p_end 3 true true p [] in
  let hour := default 0 (vals !! 0%nat) in
  let minute := default 0 (vals !! 1%nat) in
  let second := default 0 (vals !! 2%nat) in
  match r with
  | inl rv => (rv, (hour, minute, second, 0))
  | inr p =>
      let len_remains := p_end - p in
      let to_parse := if 6 <=? len_remains then 6 else len_remains in
      match parse_digits b p (Z.to_nat to_parse) 0 with
      | None => (-3, (hour, minute, second, 0))
      | Some us =>
          let us := us * 10 ^ (6 - to_parse) in
          let p := skip_digits b (p + to_parse) (length b) in
          (if byte_at b p =? 0 then 0 else 1, (hour, minute, second, us))
      end
  end.

(** The position of the first [Z], [+] or [-] from [pos] on, one past
    the last position looked at when there is none. *)
Fixpoint find_tz (b : list Z) (p_end pos : Z) (fuel : nat) : Z :=
  let c := byte_at b pos in
  if (c =? 90) || (c =? 43) || (c =? 45) then pos
  else
    match fuel with
    | O => pos + 1
    | S k => if pos + 1 <? p_end then find_tz b p_end (pos + 1) k else pos + 1
    end.

(** [parse_isoformat_time] on the bytes from [p] up to [p_end]: the
    time and, when there is an offset, its seconds and microseconds. *)
Definition parse_isoformat_time (b : list Z) (p p_end : Z)
    : option (Z * Z * Z * Z * option (Z * Z)) :=
  let tzinfo_pos := find_tz b p_end p (length b) in
  let '(rv, t) := parse_hh_mm_ss_ff b p tzinfo_pos in
  if rv <? 0 then None
  else if tzinfo_pos =? p_end then
    if rv =? 1 then None else Some (t, None)
  else if byte_at b tzinfo_pos =? 90 then
    if byte_at b (tzinfo_pos + 1) =? 0 then Some (t, Some (0, 0)) else None
  else
    let tzsign := if byte_at b tzinfo_pos =? 45 then -1 else 1 in
    let '(rv, (tzhour, tzminute, tzsecond, tzmicrosecond)) :=
      parse_hh_mm_ss_ff b (tzinfo_pos + 1) p_end in
    if rv =? 0 then
      Some (t, Some (tzsign * (tzhour * 3600 + tzminute * 60 + tzsecond),
                     tzsign * tzmicrosecond))
    else None.

(** **** Messages *)

Definition hex_digit (n : Z) : Z := if n <? 10 then 48 + n else 87 + n.

(** [repr(s)] from the bytes of [s]. *)
Definition repr_codes (b : list Z) : list Z :=
  let quote :=
    if bool_decide (39 ∈ b) && negb (bool_decide (34 ∈ b)) then 34 else 39 in
  let escape c :=
    if (c =? 92) || (c =? quote) then [92; c]
    else if c =? 9 then [92; 116]
    else if c =? 10 then [92; 110]
    else if c =? 13 then [92; 114]
    else if (c <? 32) || (c =? 127) then
      [92; 120; hex_digit (c / 16); hex_digit (c mod 16)]
    else [c] in
  [quote] ++ (b ≫= escape) ++ [quote].

Definition repr (s : string) : string := of_codes (repr_codes (codes s)).

Fixpoint decimal_digits (fuel : nat) (n : Z) (acc : list Z) : list Z :=
  match fuel with
  | O => acc
  | S k =>
      let acc := (48 + n mod 10) :: acc in
      if n <? 10 then acc else decimal_digits k (n / 10) acc
  end.

(** ["%d" % n], for a number of at most 20 digits. *)
Definition decimal (n : Z) : string :=
  let sign : string := if n <? 0 then "-" else "" in
  (sign ++ of_codes (decimal_digits 20 (Z.abs n) []))%string.

(** [repr] of the timedelta of [us] microseconds, not zero. *)
Definition timedelta_repr (us : Z) : string :=
  let days := us / US_PER_DAY in
  let seconds := us mod US_PER_DAY / US_PER_SECOND in
  let microseconds := us mod US_PER_SECOND in
  let arg (name : string) (v : Z) : list string :=
    if v =? 0 then [] else [(name ++ decimal v)%string] in
  let args : list string :=
    arg "days=" days ++ arg "seconds=" seconds
    ++ arg "microseconds=" microseconds in
  ("datetime.timedelta(" ++ String.concat ", " args ++ ")")%string.

(** **** The function *)

(** The byte after the separator at [pos], which is one character of
    one to four bytes. *)
Definition after_separator (b : list Z) (pos : Z) : Z :=
  let c := byte_at b pos in
  if Z.land c 128 =? 0 then pos + 1
  else if Z.land c 240 =? 224 then pos + 3
  else if Z.land c 240 =? 240 then pos + 4
  else pos + 2.

(** The [tzinfo] of the offset read: UTC when its seconds are 0, and
    an error outside the 24 hours on either side. *)
Definition tzinfo_of (tz : option (Z * Z)) : result (option Z) :=
  match tz with
  | None => Ok None
  | Some (seconds, microseconds) =>
      if seconds =? 0 then Ok (Some 0)
      else
        let us := seconds * US_PER_SECOND + microseconds in
        if (- US_PER_DAY <? us) && (us <? US_PER_DAY) then Ok (Some us)
        else
          Raise (ValueError
            ("offset must be a timedelta strictly between"
             ++ " -timedelta(hours=24) and timedelta(hours=24), not "
             ++ timedelta_repr us ++ ".")%string)
  end.

(** The checks of the [datetime] constructor. *)
Definition new_datetime (year month day hour minute second microsecond : Z)
    (tz : option Z) : result datetime :=
  if negb ((1 <=? year) && (year <=? 9999)) then
    Raise (ValueError ("year " ++ decimal year ++ " is out of range")%string)
  else if negb ((1 <=? month) && (month <=? 12)) then
    Raise (ValueError "month must be in 1..12")
  else if negb ((1 <=? day) && (day <=? days_in_month year month)) then
    Raise (ValueError "day is out of range for month")
  else if negb ((0 <=? hour) && (hour <=? 23)) then
    Raise (ValueError "hour must be in 0..23")
  else if negb ((0 <=? minute) && (minute <=? 59)) then
    Raise (ValueError "minute must be in 0..59")
  else if negb ((0 <=? second) && (second <=? 59)) then
    Raise (ValueError "second must be in 0..59")
  else
    Ok {| wall := (ymd2ord year month day - 1) * US_PER_DAY
                  + ((hour * 60 + minute) * 60 + second) * US_PER_SECOND
                  + microsecond;
          tzinfo := tz |}.

Definition fromisoformat (s : string) : result datetime :=
  let b := codes s in
  let len := Z.of_nat (length b) in
  let invalid :=
    Raise (ValueError ("Invalid isoformat string: " ++ repr s)%string) in
  if len <? 7 then invalid
  else
    let separator_location := find_separator b in
    match parse_isoformat_date b separator_location with
    | None => invalid
    | Some (year, month, day) =>
        let time :=
          if separator_location <? len then
            parse_isoformat_time b (after_separator b separator_location) len
          else Some (0, 0, 0, 0, None) in
        match time with
        | None => invalid
        | Some (hour, minute, second, microsecond, tz) =>
            tz ← tzinfo_of tz;
            new_datetime year month day hour minute second microsecond tz
        end
    end.

(** The datetime read, when there is one. *)
Definition parse (s : string) : option datetime :=
  match fromisoformat s with
  | Ok dt => Some dt
  | Raise _ => None
  end.

End Iso.

(** ** JSON values and tags *)

(** A decoded JSON value; a [dict] keeps its items in order. *)
Inductive json : Type :=
| JNull
| JBool (b : bool)
| JNum (n : Z)
| JStr (s : string)
| JList (l : list json)
| JDict (items : list (string * json)).

(** [list(t.keys())]. *)
Definition keys (items : list (string * json)) : json :=
  JList (JStr <$> items.*1).

Definition is_str (v : json) : bool :=
  match v with JStr _ => true | _ => false end.

(** A list all of whose elements are strings. *)
Definition is_list_of_strings (v : json) : bool :=
  match v with JList l => forallb is_str l | _ => false end.

(** Python truthiness. *)
Definition truthy (v : json) : bool :=
  match v with
  | JNull => false
  | JBool b => b
  | JNum n => negb (n =? 0)
  | JStr s => negb (String.eqb s "")
  | JList l => negb (bool_decide (l = []))
  | JDict items => negb (bool_decide (items = []))
  end.

(** [a or b]. *)
Definition py_or (a b : json) : json := if truthy a then a else b.

(** Line 140 of [log_problem]: the tags of the fetched row, [[]] when
    there is no row or the column is null. *)
Definition fetched_tags (result : option json) : json :=
  match result with
  | Some JNull | None => JList []
  | Some t => t
  end.

(** Lines 143-146 of [log_problem]. *)
Definition normalize_tags (tags : json) : json :=
  match tags with
  | JDict items => keys items
  | JNull => JList []
  | _ => tags
  end.

(** [fix_tags] of [get_all_problems]. *)
Definition fix_tags (t : json) : json :=
  match t with
  | JDict items => keys items
  | JList _ => t
  | _ => JList []
  end.

Section AllProblems.

(** [json.loads], a function of Python's library. *)
Variable json_loads : string -> result json.

(** Lines 283-286 of [get_all_problems]: a tags column that arrives as
    text is decoded. *)
Definition loads_if_str (t : json) : result json :=
  match t with
  | JStr s => json_loads s
  | _ => Ok t
  end.

(** Lines 278-297 of [get_all_problems]: the tags of one result row. *)
Definition row_tags (user_tags official_tags : json) : result json :=
  user_tags ← loads_if_str user_tags;
  official_tags ← loads_if_str official_tags;
  Ok (py_or (fix_tags user_tags) (py_or (fix_tags official_tags) (JList []))).

End AllProblems.

(** The shapes the data model gives to the tags of a catalog problem:
    a list of strings, a mapping keyed by the tags, or null. *)
Definition catalog_tags_shape (v : json) : bool :=
  match v with
  | JNull | JDict _ => true
  | JList l => forallb is_str l
  | _ => false
  end.

(** ** The store *)

(** Modelled from the spec: the declarations of the two tables are not
    in the repository. Section 6 gives their columns, [slug] as the
    primary key of the catalog and the pair (user_id, slug) as the key
    of a log; the timestamps are UTC and come back from the driver as
    naive datetimes, which is what the comparisons of the handlers with
    [datetime.utcnow()] take them to be. A timestamp column holds the
    microseconds of UTC since 0001-01-01. *)
Module LeetcodeProblem.
Record row : Type := {
  title : string;
  official_difficulty : string;
  tags : json
}.
End LeetcodeProblem.

Module UserProblem.
Record row : Type := {
  user_id : string;
  slug : string;
  title : string;
  difficulty : Z;
  date_solved : Z;
  next_review_date : Z;
  tags : json
}.
End UserProblem.

(** The catalog is keyed by its slug; the logs are the rows of the
    table in the order the store scans them. *)
Record database : Type := {
  leetcode_problem : gmap string LeetcodeProblem.row;
  user_problem : list UserProblem.row
}.

(** The value a timestamp column takes for a datetime parameter, and
    the datetime the driver returns for it. *)
Definition to_timestamp (dt : datetime) : Z :=
  wall dt - default 0 (tzinfo dt).

Definition of_timestamp (t : Z) : datetime := naive t.

(** The first row of [ORDER BY key ASC]. *)
Fixpoint min_by {A} (key : A -> Z) (l : list A) : option A :=
  match l with
  | [] => None
  | x :: l' =>
      match min_by key l' with
      | Some y => if key y <? key x then Some y else Some x
      | None => Some x
      end
  end.

(** [SELECT 1 FROM leetcode_problem WHERE slug = %s], then [fetchone]. *)
Definition select_problem (db : database) (slug : string) : option Z :=
  (fun _ => 1) <$> leetcode_problem db !! slug.

(** [SELECT tags FROM leetcode_problem WHERE slug = %s], then
    [fetchone]: the column of the row found. *)
Definition select_tags (db : database) (slug : string) : option json :=
  LeetcodeProblem.tags <$> leetcode_problem db !! slug.

Definition is_log_of (user_id slug : string) (r : UserProblem.row) : bool :=
  bool_decide (UserProblem.user_id r = user_id /\ UserProblem.slug r = slug).

(** [SELECT date_solved FROM user_problem WHERE user_id = %s AND
    slug = %s ORDER BY date_solved DESC LIMIT 1], then [fetchone]. *)
Definition select_last_solved (db : database) (user_id slug : string)
    : option Z :=
  UserProblem.date_solved <$>
    min_by (fun r => - UserProblem.date_solved r)
      (filter (fun r => is_log_of user_id slug r = true) (user_problem db)).

(** The row [DO UPDATE SET] leaves in place of [old]: the title is not
    among the columns it assigns. *)
Definition excluded_update (old new : UserProblem.row) : UserProblem.row :=
  {| UserProblem.user_id := UserProblem.user_id old;
     UserProblem.slug := UserProblem.slug old;
     UserProblem.title := UserProblem.title old;
     UserProblem.difficulty := UserProblem.difficulty new;
     UserProblem.date_solved := UserProblem.date_solved new;
     UserProblem.next_review_date := UserProblem.next_review_date new;
     UserProblem.tags := UserProblem.tags new |}.

(** [INSERT ... ON CONFLICT (user_id, slug) DO UPDATE SET ...]. *)
Fixpoint upsert (new : UserProblem.row) (rows : list UserProblem.row)
    : list UserProblem.row :=
  match rows with
  | [] => [new]
  | r :: rows' =>
      if is_log_of (UserProblem.user_id new) (UserProblem.slug new) r
      then excluded_update r new :: rows'
      else r :: upsert new rows'
  end.

(** A row of [SELECT up.*, lp.tags FROM user_problem up JOIN
    leetcode_problem lp ON up.slug = lp.slug]: in the dict the cursor
    builds, the key [tags] holds the last column of that name, the
    catalog's. *)
Record joined_row : Type := {
  up : UserProblem.row;
  lp_tags : json
}.

Definition join (db : database) (r : UserProblem.row) : option joined_row :=
  p ← leetcode_problem db !! UserProblem.slug r;
  Some {| up := r; lp_tags := LeetcodeProblem.tags p |}.

Definition joined_logs (db : database) (user_id : string) : list joined_row :=
  omap (join db)
    (filter (fun r => UserProblem.user_id r = user_id) (user_problem db)).

(** The due-reviews query of [get_todays_reviews], then [fetchall]. *)
Definition select_due (db : database) (user_id : string) (cutoff : Z)
    : list joined_row :=
  filter (fun j => UserProblem.next_review_date (up j) <= cutoff)
    (joined_logs db user_id).

(** The next-upcoming query of [get_todays_reviews], then [fetchone]. *)
Definition select_next_up (db : database) (user_id : string)
    : option joined_row :=
  min_by (fun j => UserProblem.next_review_date (up j))
    (joined_logs db user_id).

(** The invariants of the store: the key of the logs is unique, and
    the slug of a log is a slug of the catalog. *)
Definition log_key (r : UserProblem.row) : string * string :=
  (UserProblem.user_id r, UserProblem.slug r).

Definition unique_keys (db : database) : Prop :=
  NoDup (log_key <$> user_problem db).

Definition foreign_keys (db : database) : Prop :=
  forall r, r ∈ user_problem db ->
    is_Some (leetcode_problem db !! UserProblem.slug r).

(** The logs of a (user, slug) pair. *)
Definition logs_of (db : database) (user_id slug : string)
    : list UserProblem.row :=
  filter (fun r => is_log_of user_id slug r = true) (user_problem db).

(** ** Connections and transactions *)

(** The statements the handlers execute. *)
Inductive statement : Type :=
| SelectProblem (slug : string)
| SelectTags (slug : string)
| SelectLastSolved (user_id slug : string)
| Upsert (new : UserProblem.row)
| SelectDue (user_id : string) (cutoff : Z)
| SelectNextUp (user_id : string).

(** What the process does to the store, in order. *)
Inductive event : Type :=
| Connect
| Cursor
| Execute (q : statement)
| Commit
| Rollback
| Close.

(** The store as a handler sees it: the database (inside a transaction,
    the transaction's view of it), the trace of the events so far, and
    the fault to come: [Some n] makes the store fail at its call number
    [n] from now (connecting, opening a cursor, executing, committing),
    [None] never. Rolling back and closing do not fail. *)
Record world : Type := {
  db : database;
  trace : list event;
  fuse : option nat
}.

(** A computation on the store that may raise. *)
Definition txn (A : Type) : Type := world -> result A * world.

#[global] Instance txn_ret : MRet txn := fun A a w => (Ok a, w).
#[global] Instance txn_bind : MBind txn := fun A B f m w =>
  match m w with
  | (Ok a, w') => f a w'
  | (Raise e, w') => (Raise e, w')
  end.

Definition raise {A} (e : exn) : txn A := fun w => (Raise e, w).

Definition lift {A} (r : result A) : txn A := fun w => (r, w).

(** Whether the next call of the store fails, and the fault left
    after a call. *)
Definition fails (f : option nat) : bool :=
  match f with Some O => true | _ => false end.

Definition burn (f : option nat) : option nat :=
  match f with Some (S n) => Some n | _ => None end.

(** One call of the driver that the store may fail. *)
Definition store_call (e : event) : txn unit := fun w =>
  match fuse w with
  | Some O =>
      (Raise OperationalError,
       {| db := db w; trace := trace w ++ [e]; fuse := None |})
  | Some (S n) =>
      (Ok tt, {| db := db w; trace := trace w ++ [e]; fuse := Some n |})
  | None =>
      (Ok tt, {| db := db w; trace := trace w ++ [e]; fuse := None |})
  end.

Definition read {A} (rows : database -> A) : txn A := fun w =>
  (Ok (rows (db w)), w).

Definition write (f : database -> database) : txn unit := fun w =>
  (Ok tt, {| db := f (db w); trace := trace w; fuse := fuse w |}).

(** [cur.execute(q)] followed by a fetch, for a query. *)
Definition query {A} (q : statement) (rows : database -> A) : txn A :=
  _ ← store_call (Execute q); read rows.

(** [cur.execute(q)] for a statement that writes. *)
Definition update (q : statement) (f : database -> database) : txn unit :=
  _ ← store_call (Execute q); write f.

Definition rollback (committed : database) (w : world) : world :=
  {| db := committed; trace := trace w ++ [Rollback]; fuse := fuse w |}.

Definition close (w : world) : world :=
  {| db := db w; trace := trace w ++ [Close]; fuse := fuse w |}.

(** [with get_db_cursor() as cur: body] of [database.py]. When
    connecting fails [conn] is still [None]: nothing is rolled back or
    closed. Otherwise any exception, of the body or of [commit], is
    followed by [rollback], and on every path by [close]. *)
Definition get_db_cursor {A} (body : txn A) : txn A := fun w =>
  match store_call Connect w with
  | (Raise e, w1) => (Raise (HTTPException 500 "Database error: " (Some e)), w1)
  | (Ok _, w1) =>
      let committed := db w1 in
      match
        (_ ← store_call Cursor; a ← body; _ ← store_call Commit; mret a) w1
      with
      | (Ok a, w2) => (Ok a, close w2)
      | (Raise e, w2) =>
          (Raise (HTTPException 500 "Database error: " (Some e)),
           close (rollback committed w2))
      end
  end.

(** [try: body except Exception as e: raise HTTPException(500, detail +
    str(e))], the frame of every handler. *)
Definition try_except {A} (body : txn A) (detail : string) : txn A := fun w =>
  match body w with
  | (Ok a, w') => (Ok a, w')
  | (Raise e, w') => (Raise (HTTPException 500 detail (Some e)), w')
  end.

(** ** Logging a problem *)

(** The request body [ProblemLog]. *)
Module ProblemLog.
Record t : Type := {
  slug : string;
  title : string;
  difficulty : Z
}.
End ProblemLog.

(** The response of [log_problem]; [next_review] is the date whose
    [isoformat()] is sent. *)
Record log_response : Type := {
  message : string;
  next_review : Z
}.

(** The parameters of the insert of [log_problem]: the row it names. *)
Definition new_log (clock_solved : Z) (data : ProblemLog.t)
    (user_id : string) (tags : json) (next_review : datetime)
    : UserProblem.row :=
  {| UserProblem.user_id := user_id;
     UserProblem.slug := ProblemLog.slug data;
     UserProblem.title := ProblemLog.title data;
     UserProblem.difficulty := ProblemLog.difficulty data;
     UserProblem.date_solved := to_timestamp (now_utc clock_solved);
     UserProblem.next_review_date := to_timestamp next_review;
     UserProblem.tags := tags |}.

(** The block under [with get_db_cursor() as cur] in [log_problem]. *)
Definition log_problem_body (clock clock_solved : Z) (data : ProblemLog.t)
    (user_id : string) : txn log_response :=
  found ← query (SelectProblem (ProblemLog.slug data))
            (fun db => select_problem db (ProblemLog.slug data));
  if negb (bool_decide (is_Some found)) then
    raise (HTTPException 400 "Problem does not exist in database" None)
  else
    result ← query (SelectTags (ProblemLog.slug data))
               (fun db => select_tags db (ProblemLog.slug data));
    let tags := normalize_tags (fetched_tags result) in
    last_review ← query (SelectLastSolved user_id (ProblemLog.slug data))
      (fun db => select_last_solved db user_id (ProblemLog.slug data));
    next_review ← lift (calculate_next_review clock
                          (ProblemLog.difficulty data)
                          (of_timestamp <$> last_review));
    let new := new_log clock_solved data user_id tags next_review in
    _ ← update (Upsert new)
          (fun db => {| leetcode_problem := leetcode_problem db;
                        user_problem := upsert new (user_problem db) |});
    mret {| message := ProblemLog.title data ++ " logged!";
            next_review := date next_review |}.

(** [log_problem(data, user_id)]. [clock] is the reading of
    [datetime.utcnow()] inside [calculate_next_review] and [clock_solved]
    that of [datetime.now(timezone.utc)] in the parameters of the
    insert. *)
Definition log_problem (clock clock_solved : Z) (data : ProblemLog.t)
    (user_id : string) : txn log_response :=
  try_except
    (get_db_cursor (log_problem_body clock clock_solved data user_id))
    "Internal log error: ".

(** ** Today's reviews *)

(** A row as [get_todays_reviews] returns it: the dict of the joined
    row, whose two datetimes are replaced by their [isoformat()]
    strings, kept here as the datetimes they print. *)
Record review : Type := {
  r_user_id : string;
  r_slug : string;
  r_title : string;
  r_difficulty : Z;
  r_date_solved : datetime;
  r_next_review_date : datetime;
  r_tags : json
}.

Definition serialize (j : joined_row) : review :=
  {| r_user_id := UserProblem.user_id (up j);
     r_slug := UserProblem.slug (up j);
     r_title := UserProblem.title (up j);
     r_difficulty := UserProblem.difficulty (up j);
     r_date_solved := of_timestamp (UserProblem.date_solved (up j));
     r_next_review_date := of_timestamp (UserProblem.next_review_date (up j));
     r_tags := lp_tags j |}.

(** The response of [get_todays_reviews]. [next_up] is [None] when the
    dict has no such key, [Some None] when the key holds [None]. *)
Record reviews_response : Type := {
  reviews_due : list review;
  next_up : option (option review)
}.

(** The block under [with get_db_cursor() as cur] in
    [get_todays_reviews]. *)
Definition get_todays_reviews_body (today_end : datetime) (user_id : string)
    : txn reviews_response :=
  due_reviews ← query (SelectDue user_id (to_timestamp today_end))
    (fun db => select_due db user_id (to_timestamp today_end));
  match due_reviews with
  | _ :: _ =>
      mret {| reviews_due := serialize <$> due_reviews; next_up := None |}
  | [] =>
      next ← query (SelectNextUp user_id)
               (fun db => select_next_up db user_id);
      match next with
      | Some j =>
          mret {| reviews_due := []; next_up := Some (Some (serialize j)) |}
      | None => mret {| reviews_due := []; next_up := Some None |}
      end
  end.

(** [get_todays_reviews(user_id)], with the reading of
    [datetime.utcnow()] as [clock]. *)
Definition get_todays_reviews (clock : Z) (user_id : string)
    : txn reviews_response :=
  try_except
    (let today_end := combine (date (utcnow clock)) 23 59 59 in
     get_db_cursor (get_todays_reviews_body today_end user_id))
    "Error fetching reviews: ".

(** The events a call added to the trace. *)
Definition new_events (before after : world) : list event :=
  drop (length (trace before)) (trace after).

(** The shapes of the events of one scoped transaction: committed,
    rolled back, or refused at the connection. *)
Definition committed_shape (evs : list event) : Prop :=
  exists qs, evs = [Connect; Cursor] ++ (Execute <$> qs) ++ [Commit; Close].

Definition rolled_back_shape (evs : list event) : Prop :=
  exists qs tail,
    evs = [Connect; Cursor] ++ (Execute <$> qs) ++ tail ++ [Rollback; Close] /\
    (tail = [] \/ tail = [Commit]).

Definition refused_shape (evs : list event) : Prop := evs = [Connect].

Definition writes (evs : list event) : Prop :=
  exists new, Execute (Upsert new) ∈ evs.

(** The three reads of [log_problem], in order, and the row a log with
    next review [nr] upserts into the database [d]. *)
Definition log_reads (data : ProblemLog.t) (user_id : string)
    : list statement :=
  [SelectProblem (ProblemLog.slug data); SelectTags (ProblemLog.slug data);
   SelectLastSolved user_id (ProblemLog.slug data)].

Definition logged_row (clock_solved : Z) (data : ProblemLog.t)
    (user_id : string) (d : database) (nr : datetime) : UserProblem.row :=
  new_log clock_solved data user_id
    (normalize_tags (fetched_tags (select_tags d (ProblemLog.slug data)))) nr.

Definition log_upsert (clock_solved : Z) (data : ProblemLog.t)
    (user_id : string) (d : database) (nr : datetime) : database :=
  {| leetcode_problem := leetcode_problem d;
     user_problem :=
       upsert (logged_row clock_solved data user_id d nr) (user_problem d) |}.

(** The last solved date [log_problem] hands to the scheduler. *)
Definition last_review_of (d : database) (data : ProblemLog.t)
    (user_id : string) : option datetime :=
  of_timestamp <$> select_last_solved d user_id (ProblemLog.slug data).

(** The number of connections among the events. *)
Definition is_connect (e : event) : bool :=
  match e with Connect => true | _ => false end.

Definition connections (evs : list event) : nat :=
  length (filter (fun e => is_connect e = true) evs).

(** What one scoped operation leaves behind: one connection and, on
    success, a committed transaction; on failure an HTTP 500 that wraps
    the cause, the database as it was, and a transaction rolled back
    and closed, unless the connection itself was refused. *)
Definition scoped_outcome {A} (r : result A) (before after : world) : Prop :=
  connections (new_events before after) = 1%nat /\
  match r with
  | Ok _ => committed_shape (new_events before after)
  | Raise e =>
      (refused_shape (new_events before after) \/
       rolled_back_shape (new_events before after)) /\
      db after = db before /\
      exists detail cause, e = HTTPException 500 detail (Some cause)
  end.

(** The cutoff of [get_todays_reviews]: 23:59:59 of the clock's day. *)
Definition today_end_of (clock : Z) : Z :=
  to_timestamp (combine (date (utcnow clock)) 23 59 59).

(** The logs of a user, and those of them due at a cutoff. *)
Definition is_log_of_user (user_id : string) (d : database)
    (r : UserProblem.row) : Prop :=
  r ∈ user_problem d /\ UserProblem.user_id r = user_id.

Definition is_due (user_id : string) (d : database) (cutoff : Z)
    (r : UserProblem.row) : Prop :=
  is_log_of_user user_id d r /\ UserProblem.next_review_date r <= cutoff.

(** A log joined with the tags of its catalog problem, as returned. *)
Definition joined_review (d : database) (r : UserProblem.row) (x : review)
    : Prop :=
  exists p, leetcode_problem d !! UserProblem.slug r = Some p /\
    x = serialize {| up := r; lp_tags := LeetcodeProblem.tags p |}.

(** ** Worked inputs *)

(** A catalog of one problem, whose tags are stored as a mapping, and
    a store over it with the given logs and no fault to come. *)
Definition two_sum : LeetcodeProblem.row :=
  {| LeetcodeProblem.title := "Two Sum";
     LeetcodeProblem.official_difficulty := "Easy";
     LeetcodeProblem.tags := JDict [("array", JNum 1); ("string", JNum 1)] |}.

Definition store_of (logs : list UserProblem.row) : world :=
  {| db := {| leetcode_problem := {[ "two-sum" := two_sum ]};
              user_problem := logs |};
     trace := [];
     fuse := None |}.

Definition log_request (difficulty : Z) : ProblemLog.t :=
  {| ProblemLog.slug := "two-sum";
     ProblemLog.title := "Two Sum";
     ProblemLog.difficulty := difficulty |}.

(** A log of user [u1] whose review falls at 23:59:59.2 of
    2024-01-03. *)
Definition late_log : UserProblem.row :=
  {| UserProblem.user_id := "u1";
     UserProblem.slug := "two-sum";
     UserProblem.title := "Two Sum";
     UserProblem.difficulty := 5;
     UserProblem.date_solved := 63839836799200000;
     UserProblem.next_review_date := 63839923199200000;
     UserProblem.tags := JList [JStr "array"; JStr "string"] |}.

(** Whether the store was read or written by these events. *)
Definition accesses_store (evs : list event) : Prop :=
  exists q, Execute q ∈ evs.

(** A body that touches the store through [cur.execute] only. *)
Definition executes_only {A} (body : txn A) : Prop :=
  forall w, exists qs, trace (body w).2 = trace w ++ (Execute <$> qs).

(** ** The tables of the specification *)

(** The first-review offsets of the specification, in days. *)
Definition initialOffsetDays (d : Z) : Z :=
  match d with
  | 1 => 8 | 2 => 6 | 3 => 4 | 4 => 2 | 5 => 1
  | _ => 0
  end.

(** Whether the code's gap is the specification's, at one input. *)
Definition gap_agrees (d n : Z) : bool :=
  match repeat_gap d n with
  | Ok g => g =? spec_gap d n
  | Raise _ => false
  end.

Definition gap_agrees_on (lo len : Z) : bool :=
  forallb (fun d =>
    forallb (fun n => gap_agrees d n || ((d =? 2) && (n =? 90))) (seqZ lo len))
    (seqZ 1 5).

(** * Further code of the repository

    The rest of [backend/main.py]: the check of the authorization
    header, the handlers that only read, and the histories of the two
    handlers above. *)

(** ** Histories of the store *)

(** The stores the handlers above can leave behind: the table of logs
    starts empty over a catalog that nothing of the code writes, every
    request is a call of [log_problem] or [get_todays_reviews] with any
    arguments, and between requests the fault to come is anything. *)
Inductive reachable (catalog : gmap string LeetcodeProblem.row)
    : world -> Prop :=
| reach_empty tr f :
    reachable catalog
      {| db := {| leetcode_problem := catalog; user_problem := [] |};
         trace := tr; fuse := f |}
| reach_log w clock clock_solved data user_id :
    reachable catalog w ->
    reachable catalog (log_problem clock clock_solved data user_id w).2
| reach_reviews w clock user_id :
    reachable catalog w ->
    reachable catalog (get_todays_reviews clock user_id w).2
| reach_fault w f :
    reachable catalog w ->
    reachable catalog {| db := db w; trace := trace w; fuse := f |}.

(** Tags as [log_problem] leaves them: neither a mapping nor null. *)
Definition is_normalized (v : json) : bool :=
  match v with
  | JDict _ | JNull => false
  | _ => true
  end.

(** ** The authorization header *)

(** [s.startswith(prefix)]. *)
Definition startswith (s prefix : string) : bool := String.prefix prefix s.

(** [s.split(sep)] for a separator that is not empty: the pieces
    between the occurrences of [sep], found from left to right without
    overlap. [skip] counts the characters of a found separator still to
    pass, [piece] is the piece read so far. *)
Fixpoint split_from (sep s : string) (skip : nat) (piece : string)
    : list string :=
  match s with
  | EmptyString => [piece]
  | String c s' =>
      match skip with
      | S k => split_from sep s' k piece
      | O =>
          if String.prefix sep s then
            piece :: split_from sep s' (String.length sep - 1) ""
          else split_from sep s' 0 (piece ++ String c "")
      end
  end.

Definition split (s sep : string) : list string := split_from sep s 0 "".

(** No occurrence of [sep] in [a ++ rest] starts within [a]. *)
Fixpoint free_of (sep a rest : string) : bool :=
  match a with
  | EmptyString => true
  | String _ a' => negb (String.prefix sep (a ++ rest)) && free_of sep a' rest
  end.

Section Auth.

(** [firebase_admin.auth.verify_id_token], a function of the identity
    provider's library: the decoded claims of a token, or an
    exception. *)
Variable verify_id_token : string -> result (gmap string string).

(** The exception of an index out of range, for which [exn] has no
    constructor. *)
Variable IndexError : exn.

(** [l[i]] on a list. *)
Definition item {A} (l : list A) (i : nat) : result A :=
  match l !! i with
  | Some x => Ok x
  | None => Raise IndexError
  end.

(** Lines 82-87 of [verify_token]: whatever is raised under the [try],
    by the verifier or by the lookup of [uid], leaves as the same
    401. *)
Definition authenticate (token : string) : result string :=
  match verify_id_token token with
  | Ok decoded_token =>
      match decoded_token !! "uid" with
      | Some uid => Ok uid
      | None => Raise (HTTPException 401 "Invalid or expired token" None)
      end
  | Raise _ => Raise (HTTPException 401 "Invalid or expired token" None)
  end.

(** [verify_token(authorization)]; the header is [None] when the
    request has none. *)
Definition verify_token (authorization : option string) : result string :=
  match authorization with
  | None =>
      Raise (HTTPException 401 "Missing or invalid Authorization header" None)
  | Some a =>
      if String.eqb a "" || negb (startswith a "Bearer ") then
        Raise (HTTPException 401 "Missing or invalid Authorization header"
                 None)
      else
        token ← item (split a "Bearer ") 1;
        authenticate token
  end.

End Auth.

(** ** Scoped transactions over any statements

    The handlers below execute statements of their own, and the
    statements of the handlers above are a closed type. So the scope
    of [database.py] is written once more, word for word, over any type
    of statements; [Scoped.get_db_cursor] at [statement] is
    [get_db_cursor] (lemma [scoped_get_db_cursor_agrees]). *)
Module Scoped.

Inductive event (stmt : Type) : Type :=
| Connect
| Cursor
| Execute (q : stmt)
| Commit
| Rollback
| Close.
Arguments Connect {stmt}.
Arguments Cursor {stmt}.
Arguments Execute {stmt} q.
Arguments Commit {stmt}.
Arguments Rollback {stmt}.
Arguments Close {stmt}.

Record world (stmt : Type) : Type := {
  db : database;
  trace : list (event stmt);
  fuse : option nat
}.
Arguments db {stmt} w.
Arguments trace {stmt} w.
Arguments fuse {stmt} w.

Definition txn (stmt A : Type) : Type := world stmt -> result A * world stmt.

#[global] Instance txn_ret stmt : MRet (txn stmt) := fun A a w => (Ok a, w).
#[global] Instance txn_bind stmt : MBind (txn stmt) := fun A B f m w =>
  match m w with
  | (Ok a, w') => f a w'
  | (Raise e, w') => (Raise e, w')
  end.

Definition lift {stmt A} (r : result A) : txn stmt A := fun w => (r, w).

Definition store_call {stmt} (e : event stmt) : txn stmt unit := fun w =>
  match fuse w with
  | Some O =>
      (Raise OperationalError,
       {| db := db w; trace := trace w ++ [e]; fuse := None |})
  | Some (S n) =>
      (Ok tt, {| db := db w; trace := trace w ++ [e]; fuse := Some n |})
  | None =>
      (Ok tt, {| db := db w; trace := trace w ++ [e]; fuse := None |})
  end.

Definition read {stmt A} (rows : database -> A) : txn stmt A := fun w =>
  (Ok (rows (db w)), w).

(** [cur.execute(q)] followed by a fetch. *)
Definition query {stmt A} (q : stmt) (rows : database -> A) : txn stmt A :=
  _ ← store_call (Execute q); read rows.

Definition rollback {stmt} (committed : database) (w : world stmt)
    : world stmt :=
  {| db := committed; trace := trace w ++ [Rollback]; fuse := fuse w |}.

Definition close {stmt} (w : world stmt) : world stmt :=
  {| db := db w; trace := trace w ++ [Close]; fuse := fuse w |}.

(** [with get_db_cursor() as cur: body]. *)
Definition get_db_cursor {stmt A} (body : txn stmt A) : txn stmt A := fun w =>
  match store_call Connect w with
  | (Raise e, w1) => (Raise (HTTPException 500 "Database error: " (Some e)), w1)
  | (Ok _, w1) =>
      let committed := db w1 in
      match
        (_ ← store_call Cursor; a ← body; _ ← store_call Commit; mret a) w1
      with
      | (Ok a, w2) => (Ok a, close w2)
      | (Raise e, w2) =>
          (Raise (HTTPException 500 "Database error: " (Some e)),
           close (rollback committed w2))
      end
  end.

(** [try: body except Exception as e: raise HTTPException(500, detail +
    str(e))]. *)
Definition try_except {stmt A} (body : txn stmt A) (detail : string)
    : txn stmt A := fun w =>
  match body w with
  | (Ok a, w') => (Ok a, w')
  | (Raise e, w') => (Raise (HTTPException 500 detail (Some e)), w')
  end.

End Scoped.

(** The store of the handlers above, seen as a store over their
    statements. *)
Definition scoped_event (e : event) : Scoped.event statement :=
  match e with
  | Connect => Scoped.Connect
  | Cursor => Scoped.Cursor
  | Execute q => Scoped.Execute q
  | Commit => Scoped.Commit
  | Rollback => Scoped.Rollback
  | Close => Scoped.Close
  end.

Definition scoped_world (w : world) : Scoped.world statement :=
  {| Scoped.db := db w;
     Scoped.trace := scoped_event <$> trace w;
     Scoped.fuse := fuse w |}.

Definition scoped_run {A} (x : result A * world)
    : result A * Scoped.world statement :=
  (x.1, scoped_world x.2).

(** ** The handlers that only read *)

(** Their statements. *)
Inductive read_statement : Type :=
| SelectUserLogs (user_id : string)
| SelectAllProblems (user_id : string)
| SelectProblemBank.

(** [ORDER BY date_solved DESC]: among rows solved at the same instant
    the store may return any order; the model keeps theirs. *)
Definition newer (a b : UserProblem.row) : Prop :=
  UserProblem.date_solved b <= UserProblem.date_solved a.

#[global] Instance newer_dec a b : Decision (newer a b) :=
  Z_le_dec (UserProblem.date_solved b) (UserProblem.date_solved a).

(** [SELECT * FROM user_problem WHERE user_id = %s ORDER BY date_solved
    DESC], then [fetchall]. *)
Definition select_user_logs (db : database) (user_id : string)
    : list UserProblem.row :=
  sorting.merge_sort newer
    (filter (fun r => UserProblem.user_id r = user_id) (user_problem db)).

(** [get_user_problem_logs(user_id)]. *)
Definition get_user_problem_logs (user_id : string)
    : Scoped.txn read_statement (list UserProblem.row) :=
  Scoped.try_except
    (Scoped.get_db_cursor
       (Scoped.query (SelectUserLogs user_id)
          (fun db => select_user_logs db user_id)))
    "Error fetching user logs: ".

Section Dashboard.

(** [datetime.isoformat] and [datetime.fromisoformat], functions of
    Python's library. *)
Variable isoformat : datetime -> string.
Variable fromisoformat : string -> result datetime.

(** [dashboard_stats(user_id)], with the reading of [datetime.utcnow()]
    in the streak calculator as [clock]; the result is the value of
    [current_streak] in the response. *)
Definition dashboard_stats (clock : Z) (user_id : string)
    : Scoped.txn read_statement Z :=
  Scoped.try_except
    (problem_logs ← get_user_problem_logs user_id;
     let timestamps :=
       (fun log => isoformat (of_timestamp (UserProblem.date_solved log)))
         <$> problem_logs in
     streak ← Scoped.lift
                (calculate_current_streak fromisoformat clock timestamps);
     mret streak)
    "Error fetching dashboard stats: ".

End Dashboard.

(** A row of the query of [get_all_problems]: a log and the catalog
    problem of its slug. *)
Definition joined_problem : Type := UserProblem.row * LeetcodeProblem.row.

Definition join_problem (db : database) (r : UserProblem.row)
    : option joined_problem :=
  p ← leetcode_problem db !! UserProblem.slug r; Some (r, p).

Definition newer_joined (a b : joined_problem) : Prop := newer a.1 b.1.

#[global] Instance newer_joined_dec a b : Decision (newer_joined a b) :=
  newer_dec a.1 b.1.

(** The query of [get_all_problems], then [fetchall]. *)
Definition select_all_problems (db : database) (user_id : string)
    : list joined_problem :=
  sorting.merge_sort newer_joined
    (omap (join_problem db)
       (filter (fun r => UserProblem.user_id r = user_id) (user_problem db))).

(** An entry of the response of [get_all_problems]; the two dates are
    the datetimes whose [isoformat()] is sent, [None] for null. *)
Record problem_dict : Type := {
  pd_slug : string;
  pd_title : string;
  pd_difficulty : Z;
  pd_date_solved : option datetime;
  pd_next_review_date : option datetime;
  pd_tags : json;
  pd_official_difficulty : string
}.

Section AllProblemsHandler.

Variable json_loads : string -> result json.

(** The body of the loop of [get_all_problems] for one row. *)
Definition problem_of (row : joined_problem) : result problem_dict :=
  tags ← row_tags json_loads (UserProblem.tags row.1)
            (LeetcodeProblem.tags row.2);
  Ok {| pd_slug := UserProblem.slug row.1;
        pd_title := UserProblem.title row.1;
        pd_difficulty := UserProblem.difficulty row.1;
        pd_date_solved := Some (of_timestamp (UserProblem.date_solved row.1));
        pd_next_review_date :=
          Some (of_timestamp (UserProblem.next_review_date row.1));
        pd_tags := tags;
        pd_official_difficulty := LeetcodeProblem.official_difficulty row.2 |}.

(** [get_all_problems(user_id)]. *)
Definition get_all_problems (user_id : string)
    : Scoped.txn read_statement (list problem_dict) :=
  Scoped.try_except
    (Scoped.get_db_cursor
       (rows ← Scoped.query (SelectAllProblems user_id)
                 (fun db => select_all_problems db user_id);
        problems ← Scoped.lift (mapM problem_of rows);
        mret problems))
    "Failed to fetch user problems: ".

End AllProblemsHandler.

(** An entry of the response of [get_problem_bank]. *)
Record bank_problem : Type := {
  bp_slug : string;
  bp_title : string;
  bp_official_difficulty : string;
  bp_tags : json
}.

Definition bank_problem_of (x : string * LeetcodeProblem.row) : bank_problem :=
  {| bp_slug := x.1;
     bp_title := LeetcodeProblem.title x.2;
     bp_official_difficulty := LeetcodeProblem.official_difficulty x.2;
     bp_tags := LeetcodeProblem.tags x.2 |}.

(** [SELECT slug, title, official_difficulty, tags FROM
    leetcode_problem], then [fetchall]. *)
Definition select_problem_bank (db : database) : list bank_problem :=
  bank_problem_of <$> map_to_list (leetcode_problem db).

(** [get_problem_bank(user_id)]; the user only has to be
    authenticated. *)
Definition get_problem_bank (user_id : string)
    : Scoped.txn read_statement (list bank_problem) :=
  Scoped.try_except
    (Scoped.get_db_cursor
       (problems ← Scoped.query SelectProblemBank select_problem_bank;
        mret problems))
    "Failed to fetch problem bank: ".

(** A store for the readers over the database [d]. *)
Definition reader_world (d : database) (f : option nat)
    : Scoped.world read_statement :=
  {| Scoped.db := d; Scoped.trace := []; Scoped.fuse := f |}.

(** The calendar days on which the logs of a user were last solved. *)
Definition solved_days (d : database) (user_id : string) : gset Z :=
  list_to_set
    ((fun r => date (of_timestamp (UserProblem.date_solved r)))
       <$> filter (fun r => UserProblem.user_id r = user_id) (user_problem d)).


(** ** The strings [datetime.isoformat] writes, written

    [datetime.isoformat()] of Python's library, after its source: the
    date from the ordinal by [Iso.ord2ymd], the time of day, the
    microseconds when they are not 0, and the offset of an aware
    datetime. *)
Module IsoWrite.

Definition digit_char (n : Z) : ascii := ascii_of_nat (Z.to_nat (48 + n)).

(** ["%0<width>d" % n] for [0 <= n < 10 ^ width]. *)
Fixpoint pad (width : nat) (n : Z) : string :=
  match width with
  | O => ""
  | S k => pad k (n / 10) ++ String (digit_char (n mod 10)) ""
  end.

(** [_format_time(hh, mm, ss, us)] from the microseconds of the day. *)
Definition format_time (t : Z) : string :=
  let us := t mod US_PER_SECOND in
  let s := t / US_PER_SECOND in
  pad 2 (s / 3600) ++ ":" ++ pad 2 (s / 60 mod 60) ++ ":" ++ pad 2 (s mod 60)
  ++ (if us =? 0 then "" else "." ++ pad 6 us).

(** [_format_offset(off)]. *)
Definition format_offset (off : option Z) : string :=
  match off with
  | None => ""
  | Some off =>
      let sign := if off <? 0 then "-" else "+" in
      let off := Z.abs off in
      let s := off / US_PER_SECOND in
      let us := off mod US_PER_SECOND in
      sign ++ pad 2 (s / 3600) ++ ":" ++ pad 2 (s / 60 mod 60)
      ++ (if (s mod 60 =? 0) && (us =? 0) then ""
          else ":" ++ pad 2 (s mod 60)
               ++ (if us =? 0 then "" else "." ++ pad 6 us))
  end.

Definition isoformat (dt : datetime) : string :=
  let '(y, m, d) := Iso.ord2ymd (date dt) in
  pad 4 y ++ "-" ++ pad 2 m ++ "-" ++ pad 2 d ++ "T"
  ++ format_time (wall dt mod US_PER_DAY) ++ format_offset (tzinfo dt).

End IsoWrite.

(** ** More worked inputs *)

(** A catalog of two problems, and a store for the readers over it. *)
Definition valid_parentheses : LeetcodeProblem.row :=
  {| LeetcodeProblem.title := "Valid Parentheses";
     LeetcodeProblem.official_difficulty := "Easy";
     LeetcodeProblem.tags := JList [JStr "stack"; JStr "string"] |}.

Definition two_problems (logs : list UserProblem.row) : database :=
  {| leetcode_problem :=
       {[ "two-sum" := two_sum; "valid-parentheses" := valid_parentheses ]};
     user_problem := logs |}.

(** Logs of user [u1]: one solved on 2024-01-02 at 10:00 and due on
    2024-01-03 at 09:00, one solved on 2024-01-03 at 11:00 whose tags
    are an empty list, and a log of user [u2]. *)
Definition due_log : UserProblem.row :=
  {| UserProblem.user_id := "u1";
     UserProblem.slug := "valid-parentheses";
     UserProblem.title := "Valid Parentheses";
     UserProblem.difficulty := 4;
     UserProblem.date_solved := 63839786400000000;
     UserProblem.next_review_date := 63839869200000000;
     UserProblem.tags := JList [JStr "stack"; JStr "string"] |}.

Definition fresh_log : UserProblem.row :=
  {| UserProblem.user_id := "u1";
     UserProblem.slug := "two-sum";
     UserProblem.title := "Two Sum";
     UserProblem.difficulty := 2;
     UserProblem.date_solved := 63839876400000000;
     UserProblem.next_review_date := 63840394800000000;
     UserProblem.tags := JList [] |}.

Definition other_log : UserProblem.row :=
  {| UserProblem.user_id := "u2";
     UserProblem.slug := "two-sum";
     UserProblem.title := "Two Sum";
     UserProblem.difficulty := 1;
     UserProblem.date_solved := 63839700000000000;
     UserProblem.next_review_date := 63840391200000000;
     UserProblem.tags := JList [JStr "array"; JStr "string"] |}.

(** The logs of a user, in the order of the table. *)
Definition rows_of_user (d : database) (user_id : string)
    : list UserProblem.row :=
  filter (fun r => UserProblem.user_id r = user_id) (user_problem d).

(** What [dashboard_stats] needs of the two library functions at a
    stored timestamp: what [isoformat] writes for it, [fromisoformat]
    reads as a datetime of the same date. *)
Definition reads_back (isoformat : datetime -> string)
    (fromisoformat : string -> result datetime) (t : Z) : Prop :=
  exists dt, fromisoformat (isoformat (of_timestamp t)) = Ok dt /\
    date dt = date (of_timestamp t).

(** What a handler that only reads returns and leaves behind: it runs
    the query [q] in one scoped transaction and returns [r], the result
    of what it makes of the rows. *)
Definition read_outcome {A} (q : read_statement) (detail : string)
    (r : result A) (w : Scoped.world read_statement)
    : result A * Scoped.world read_statement :=
  let wrap e :=
    HTTPException 500 detail
      (Some (HTTPException 500 "Database error: " (Some e))) in
  let after evs f :=
    {| Scoped.db := Scoped.db w; Scoped.trace := Scoped.trace w ++ evs;
       Scoped.fuse := f |} in
  let f := Scoped.fuse w in
  if fails f then
    (Raise (wrap OperationalError), after [Scoped.Connect] None)
  else if fails (burn f) then
    (Raise (wrap OperationalError),
     after [Scoped.Connect; Scoped.Cursor; Scoped.Rollback; Scoped.Close] None)
  else if fails (burn (burn f)) then
    (Raise (wrap OperationalError),
     after [Scoped.Connect; Scoped.Cursor; Scoped.Execute q;
            Scoped.Rollback; Scoped.Close] None)
  else
    match r with
    | Raise e =>
        (Raise (wrap e),
         after [Scoped.Connect; Scoped.Cursor; Scoped.Execute q;
                Scoped.Rollback; Scoped.Close] (burn (burn (burn f))))
    | Ok a =>
        if fails (burn (burn (burn f))) then
          (Raise (wrap OperationalError),
           after [Scoped.Connect; Scoped.Cursor; Scoped.Execute q;
                  Scoped.Commit; Scoped.Rollback; Scoped.Close] None)
        else
          (Ok a,
           after [Scoped.Connect; Scoped.Cursor; Scoped.Execute q;
                  Scoped.Commit; Scoped.Close]
             (burn (burn (burn (burn f)))))
    end.

(** What holds of every row of a well-kept log table over the catalog
    [catalog]. *)
Definition well_kept (catalog : gmap string LeetcodeProblem.row)
    (r : UserProblem.row) : Prop :=
  1 <= UserProblem.difficulty r <= 5 /\
  UserProblem.tags r =
    normalize_tags
      (fetched_tags (LeetcodeProblem.tags <$> catalog !! UserProblem.slug r)).

(** What an entry of the response of [get_all_problems] holds of the
    row it was built from. *)
Definition entry_of (row : joined_problem) (p : problem_dict) : Prop :=
  pd_slug p = UserProblem.slug row.1 /\
  pd_title p = UserProblem.title row.1 /\
  pd_difficulty p = UserProblem.difficulty row.1 /\
  pd_date_solved p = Some (of_timestamp (UserProblem.date_solved row.1)) /\
  pd_next_review_date p
    = Some (of_timestamp (UserProblem.next_review_date row.1)) /\
  pd_official_difficulty p = LeetcodeProblem.official_difficulty row.2 /\
  (exists l, pd_tags p = JList l) /\
  (forall l, UserProblem.tags row.1 = JList l -> l <> [] ->
     pd_tags p = JList l) /\
  (forall l, UserProblem.tags row.1 = JList [] ->
     LeetcodeProblem.tags row.2 = JList l -> pd_tags p = JList l).

(** The invariants of the store over the catalog [catalog]. *)
Definition kept_store (catalog : gmap string LeetcodeProblem.row)
    (d : database) : Prop :=
  leetcode_problem d = catalog /\
  unique_keys d /\ foreign_keys d /\
  forall r, r ∈ user_problem d ->
    well_kept catalog r /\ is_normalized (UserProblem.tags r) = true.

(** * Properties *)

(** ** The scheduler *)

Section Scheduler.

Lemma getitem_None {V} (m : gmap Z V) k :
  m !! k = None -> getitem m k = Raise (KeyError k).
Proof. intros H. unfold getitem. now rewrite H. Qed.

Lemma initial_days_outside d :
  ~ (1 <= d <= 5) -> initial_days !! d = None.
Proof.
  intros H. unfold initial_days.
  repeat (rewrite lookup_insert_ne by lia). apply lookup_singleton_ne. lia.
Qed.

Lemma multiplier_outside d :
  ~ (1 <= d <= 5) -> multiplier !! d = None.
Proof.
  intros H. unfold multiplier.
  repeat (rewrite lookup_insert_ne by lia). apply lookup_singleton_ne. lia.
Qed.

Lemma initial_days_inside d :
  1 <= d <= 5 -> getitem initial_days d = Ok (initialOffsetDays d).
Proof.
  intros H.
  assert (d = 1 \/ d = 2 \/ d = 3 \/ d = 4 \/ d = 5) as Hd by lia.
  destruct Hd as [-> | [-> | [-> | [-> | ->]]]]; reflexivity.
Qed.

Lemma datetime_add_ok a td :
  0 <= wall a + td < MAXORDINAL * US_PER_DAY ->
  datetime_add a td = Ok {| wall := wall a + td; tzinfo := tzinfo a |}.
Proof.
  intros [H1 H2]. unfold datetime_add, in_range.
  apply Z.leb_le in H1. apply Z.ltb_lt in H2. now rewrite H1, H2.
Qed.

Lemma clock_ok_add clock n :
  clock_ok clock -> 0 <= n <= 90 ->
  datetime_add (utcnow clock) (timedelta n) = Ok (naive (clock + timedelta n)).
Proof.
  intros [H1 H2] Hn. unfold utcnow, naive.
  rewrite datetime_add_ok; [reflexivity|]. cbn [wall].
  unfold timedelta, US_PER_DAY, US_PER_SECOND, MAXORDINAL in *. lia.
Qed.

Lemma calculate_next_review_repeat clock difficulty w :
  calculate_next_review clock difficulty (Some (naive w)) =
  g ← repeat_gap difficulty (days (clock - w));
  datetime_add (utcnow clock) (timedelta g).
Proof.
  unfold calculate_next_review, repeat_gap. cbn.
  destruct (getitem multiplier difficulty) as [m|e]; cbn; [|reflexivity].
  destruct (int_mul_float _ m) as [x|e]; cbn; [|reflexivity].
  destruct (float_to_int x) as [n|e]; cbn; reflexivity.
Qed.

Lemma days_timedelta n r :
  0 <= r < US_PER_DAY -> days (timedelta n + r) = n.
Proof.
  intros Hr. unfold days, timedelta.
  rewrite Z.add_comm, Z.div_add by (unfold US_PER_DAY, US_PER_SECOND; lia).
  rewrite Z.div_small by assumption. lia.
Qed.

Lemma days_since clock n :
  days (clock - (clock - timedelta n)) = n.
Proof.
  replace (clock - (clock - timedelta n)) with (timedelta n + 0) by lia.
  apply days_timedelta. unfold US_PER_DAY, US_PER_SECOND. lia.
Qed.

(** The binary64 nearest to 0.7 lies below it, by 0.4 units of its
    last place. *)
Lemma multiplier_2_bits :
  Prim2SF 0.7%float = S754_finite false 6305039478318694 (-53).
Proof. vm_compute. reflexivity. Qed.

Lemma repeat_gap_2_90 : repeat_gap 2 90 = Ok 62.
Proof. vm_compute. reflexivity. Qed.

Lemma repeat_gap_3_10 : repeat_gap 3 10 = Ok 9.
Proof. vm_compute. reflexivity. Qed.

Lemma repeat_gap_5_200 : repeat_gap 5 200 = Ok 90.
Proof. vm_compute. reflexivity. Qed.

(** Over a year of clock skew and ten years of delay, the code's gap
    is the specification's at every input but difficulty 2 after
    exactly 90 days. *)
Lemma gap_agrees_window : gap_agrees_on (-366) 4027 = true.
Proof. vm_compute. reflexivity. Qed.

Lemma repeat_gap_spec d n :
  1 <= d <= 5 -> -366 <= n <= 3660 -> ~ (d = 2 /\ n = 90) ->
  repeat_gap d n = Ok (spec_gap d n).
Proof.
  intros Hd Hn Hne.
  pose proof gap_agrees_window as H. unfold gap_agrees_on in H.
  rewrite forallb_forall in H.
  assert (In d (seqZ 1 5)) as Hin1
    by (apply list_elem_of_In, elem_of_seqZ; lia).
  specialize (H d Hin1). rewrite forallb_forall in H.
  assert (In n (seqZ (-366) 4027)) as Hin2
    by (apply list_elem_of_In, elem_of_seqZ; lia).
  specialize (H n Hin2).
  apply orb_true_iff in H as [H | H].
  - unfold gap_agrees in H. destruct (repeat_gap d n) as [g|e]; [|discriminate].
    apply Z.eqb_eq in H. now subst.
  - apply andb_true_iff in H as [H1 H2].
    apply Z.eqb_eq in H1. apply Z.eqb_eq in H2. tauto.
Qed.

Lemma spec_gap_range d n : 1 <= spec_gap d n <= 90.
Proof. unfold spec_gap. lia. Qed.

(** Away from that input the repeat case is the specification's. *)
Lemma calculate_next_review_spec clock d w :
  clock_ok clock -> 1 <= d <= 5 ->
  -366 <= days (clock - w) <= 3660 -> ~ (d = 2 /\ days (clock - w) = 90) ->
  calculate_next_review clock d (Some (naive w)) =
  Ok (naive (clock + timedelta (spec_gap d (days (clock - w))))).
Proof.
  intros Hc Hd Hn Hne. rewrite calculate_next_review_repeat.
  rewrite repeat_gap_spec by assumption. cbn.
  apply clock_ok_add; [assumption|].
  pose proof (spec_gap_range d (days (clock - w))). lia.
Qed.

(** The first-time case. *)
Lemma calculate_next_review_first clock d :
  clock_ok clock -> 1 <= d <= 5 ->
  calculate_next_review clock d None
    = Ok (naive (clock + timedelta (initialOffsetDays d))).
Proof.
  intros Hc Hd. unfold calculate_next_review.
  rewrite initial_days_inside by assumption. cbn.
  apply clock_ok_add; [assumption|].
  assert (d = 1 \/ d = 2 \/ d = 3 \/ d = 4 \/ d = 5) as Hd' by lia.
  destruct Hd' as [-> | [-> | [-> | [-> | ->]]]]; cbn; lia.
Qed.

(** In that window the repeat case always returns, between 1 and 90
    days ahead. *)
Lemma repeat_gap_ok d n :
  1 <= d <= 5 -> -366 <= n <= 3660 ->
  exists g, repeat_gap d n = Ok g /\ 1 <= g <= 90.
Proof.
  intros Hd Hn. destruct (decide (d = 2 /\ n = 90)) as [[-> ->] | Hne].
  - exists 62. split; [exact repeat_gap_2_90 | lia].
  - exists (spec_gap d n). split; [now apply repeat_gap_spec|].
    apply spec_gap_range.
Qed.

Lemma calculate_next_review_ok clock d last :
  clock_ok clock -> 1 <= d <= 5 ->
  (forall t, last = Some t ->
     tzinfo t = None /\ -366 <= days (clock - wall t) <= 3660) ->
  is_ok (calculate_next_review clock d last) = true.
Proof.
  intros Hc Hd Hlast. destruct last as [[t tz]|].
  - destruct (Hlast _ eq_refl) as [Htz Hn]. cbn in Htz, Hn. subst tz.
    change {| wall := t; tzinfo := None |} with (naive t).
    rewrite calculate_next_review_repeat.
    destruct (repeat_gap_ok d _ Hd Hn) as (g & -> & Hg). cbn.
    rewrite clock_ok_add by (assumption || lia). reflexivity.
  - now rewrite calculate_next_review_first.
Qed.

(** C1 (the code departs from the claim): the repeat case multiplies
    in binary64, and at difficulty 2 after exactly 90 days the product
    90 * 0.7 is 62.99999999999999, so the code schedules the review 62
    days ahead where the claim's floor(90 x 0.7) is 63. The two examples
    of the claim, difficulty 3 after 10 days and difficulty 5 after 200
    days, give 9 and 90 days as it says. *)
Theorem C1_gap_after_90_days_at_difficulty_2 (clock : Z) :
  clock_ok clock ->
  calculate_next_review clock 2 (Some (naive (clock - timedelta 90)))
    = Ok (naive (clock + timedelta 62)) /\
  spec_gap 2 90 = 63 /\
  calculate_next_review clock 3 (Some (naive (clock - timedelta 10)))
    = Ok (naive (clock + timedelta 9)) /\
  calculate_next_review clock 5 (Some (naive (clock - timedelta 200)))
    = Ok (naive (clock + timedelta 90)).
Proof.
  intros Hc. rewrite !calculate_next_review_repeat, !days_since.
  rewrite repeat_gap_2_90, repeat_gap_3_10, repeat_gap_5_200. cbn.
  rewrite !clock_ok_add by (assumption || lia). auto.
Qed.

Lemma C1_gap_after_90_days_witness :
  clock_ok 63839833200000000 /\
  calculate_next_review 63839833200000000 2
    (Some (naive (63839833200000000 - timedelta 90)))
    = Ok (naive (63839833200000000 + timedelta 62)).
Proof.
  assert (clock_ok 63839833200000000) as H
    by (vm_compute; split; [discriminate | reflexivity]).
  split; [exact H|].
  exact (proj1 (C1_gap_after_90_days_at_difficulty_2 63839833200000000 H)).
Defined.

(** C2: for every difficulty from 1 to 5 the first review is scheduled
    [initialOffsetDays] days after now, with offsets 8, 6, 4, 2 and 1;
    in particular 8 days for difficulty 1 and 1 day for difficulty 5. *)
Theorem C2_first_review_offsets (clock d : Z) :
  clock_ok clock -> 1 <= d <= 5 ->
  calculate_next_review clock d None
    = Ok (naive (clock + timedelta (initialOffsetDays d))) /\
  calculate_next_review clock 1 None = Ok (naive (clock + timedelta 8)) /\
  calculate_next_review clock 5 None = Ok (naive (clock + timedelta 1)).
Proof.
  intros Hc Hd. split; [now apply calculate_next_review_first|].
  split.
  - apply (calculate_next_review_first clock 1 Hc). lia.
  - apply (calculate_next_review_first clock 5 Hc). lia.
Qed.

Lemma C2_first_review_offsets_witness :
  clock_ok 63839833200000000 /\ 1 <= 3 <= 5 /\
  calculate_next_review 63839833200000000 3 None
    = Ok (naive (63839833200000000 + timedelta 4)).
Proof.
  assert (clock_ok 63839833200000000) as H
    by (vm_compute; split; [discriminate | reflexivity]).
  assert (1 <= 3 <= 5) as H3 by lia.
  split; [exact H|]. split; [exact H3|].
  exact (proj1 (C2_first_review_offsets 63839833200000000 3 H H3)).
Defined.

End Scheduler.

(** ** The streak calculator *)

Section StreakProps.

Variable fromisoformat : string -> result datetime.

Lemma date_sub_days_ok d :
  2 <= d <= MAXORDINAL -> date_sub_days d 1 = Ok (d - 1).
Proof.
  intros H. unfold date_sub_days. cbn zeta.
  replace (1 <=? d - 1) with true by (symmetry; apply Z.leb_le; lia).
  replace (d - 1 <=? MAXORDINAL) with true by (symmetry; apply Z.leb_le; lia).
  reflexivity.
Qed.

Lemma date_sub_days_inv d n o :
  date_sub_days d n = Ok o -> o = d - n /\ 1 <= o.
Proof.
  unfold date_sub_days. cbn zeta.
  destruct (1 <=? d - n) eqn:H1; [|discriminate].
  destruct (d - n <=? MAXORDINAL); [|discriminate].
  cbn. intros [= <-]. apply Z.leb_le in H1. auto.
Qed.

(** The loop counts the run of logged days that ends today. *)
Lemma streak_loop_counts (logged : gset Z) (n : nat) :
  forall fuel today k, (n < fuel)%nat ->
    today <= MAXORDINAL -> 1 <= today - Z.of_nat n ->
    (forall i, 0 <= i < Z.of_nat n -> today - i ∈ logged) ->
    today - Z.of_nat n ∉ logged ->
    streak_loop fuel logged today k = Ok (k + Z.of_nat n).
Proof.
  induction n as [|n IH]; intros fuel today k Hfuel Hmax Hmin Hrun Hstop.
  - destruct fuel as [|fuel]; [lia|]. cbn [streak_loop].
    replace (today - Z.of_nat 0) with today in Hstop by lia.
    rewrite decide_False by assumption. f_equal. lia.
  - destruct fuel as [|fuel]; [lia|]. cbn [streak_loop].
    rewrite decide_True
      by (replace today with (today - 0) by lia; apply Hrun; lia).
    rewrite date_sub_days_ok by lia. cbn.
    rewrite IH.
    + f_equal. lia.
    + lia.
    + lia.
    + lia.
    + intros i Hi. replace (today - 1 - i) with (today - (i + 1)) by lia.
      apply Hrun. lia.
    + replace (today - 1 - Z.of_nat n) with (today - Z.of_nat (S n)) by lia.
      assumption.
Qed.

(** [today] iterations are enough: the loop ends in a count or in the
    [OverflowError] of a date before 0001-01-01, never out of fuel. *)
Lemma streak_loop_fuel (logged : gset Z) :
  forall fuel today k, (Z.to_nat today < fuel)%nat ->
    (exists n, streak_loop fuel logged today k = Ok n) \/
    (exists m, streak_loop fuel logged today k = Raise (OverflowError m)).
Proof.
  induction fuel as [|fuel IH]; intros today k Hfuel; [lia|].
  cbn [streak_loop]. destruct (decide (today ∈ logged)) as [Hin|Hout].
  - destruct (date_sub_days today 1) as [o|e] eqn:Hsub.
    + apply date_sub_days_inv in Hsub as [-> Ho]. cbn. apply IH. lia.
    + right. unfold date_sub_days in Hsub. cbn zeta in Hsub.
      destruct (_ && _); [discriminate|]. injection Hsub as <-. cbn. eauto.
  - left. eauto.
Qed.

Lemma current_streak_absent (logged : gset Z) today :
  today ∉ logged -> current_streak logged today = Ok 0.
Proof.
  intros H. unfold current_streak. cbn [streak_loop].
  now rewrite decide_False.
Qed.

Lemma current_streak_counts (logged : gset Z) today n :
  0 <= n -> 1 <= today - n -> today <= MAXORDINAL ->
  (forall i, 0 <= i < n -> today - i ∈ logged) ->
  today - n ∉ logged ->
  current_streak logged today = Ok n.
Proof.
  intros Hn Hmin Hmax Hrun Hstop. unfold current_streak.
  rewrite (streak_loop_counts logged (Z.to_nat n)).
  - f_equal. lia.
  - lia.
  - assumption.
  - lia.
  - intros i Hi. apply Hrun. lia.
  - now rewrite Z2Nat.id.
Qed.

(** The calculator returns a count, or fails with the [OverflowError]
    of stepping before 0001-01-01. *)
Lemma current_streak_total (logged : gset Z) today :
  (exists n, current_streak logged today = Ok n) \/
  (exists m, current_streak logged today = Raise (OverflowError m)).
Proof. apply streak_loop_fuel. lia. Qed.

(** It fails so when every day of the calendar up to today is
    logged. *)
Lemma streak_loop_overflow (logged : gset Z) (n : nat) :
  forall fuel today k, (n < fuel)%nat ->
    today = Z.of_nat n + 1 -> today <= MAXORDINAL ->
    (forall i, 0 <= i < today -> today - i ∈ logged) ->
    streak_loop fuel logged today k
      = Raise (OverflowError "date value out of range").
Proof.
  induction n as [|n IH]; intros fuel today k Hfuel Htoday Hmax Hrun;
    (destruct fuel as [|fuel]; [lia|]); cbn [streak_loop];
    rewrite decide_True
      by (replace today with (today - 0) by lia; apply Hrun; lia).
  - subst today. reflexivity.
  - rewrite date_sub_days_ok by lia. cbn. apply IH; try lia.
    intros i Hi. replace (today - 1 - i) with (today - (i + 1)) by lia.
    apply Hrun. lia.
Qed.

Lemma current_streak_overflow (logged : gset Z) today :
  1 <= today <= MAXORDINAL ->
  (forall i, 0 <= i < today -> today - i ∈ logged) ->
  current_streak logged today = Raise (OverflowError "date value out of range").
Proof.
  intros Ht Hrun. unfold current_streak.
  apply (streak_loop_overflow logged (Z.to_nat (today - 1))); auto; lia.
Qed.

Lemma mapM_cons (s : string) l :
  mapM fromisoformat (s :: l) =
  dt ← fromisoformat s; dts ← mapM fromisoformat l; Ok (dt :: dts).
Proof. reflexivity. Qed.

Lemma mapM_parsed l dts :
  mapM fromisoformat l = Ok dts ->
  Forall2 (fun s dt => fromisoformat s = Ok dt) l dts.
Proof.
  revert dts. induction l as [|s l IH]; intros dts.
  - cbn. intros [= <-]. constructor.
  - rewrite mapM_cons.
    destruct (fromisoformat s) as [dt|e] eqn:Hs; [|discriminate].
    cbn. destruct (mapM fromisoformat l) as [dts'|e]; [|discriminate].
    cbn. intros [= <-]. constructor; auto.
Qed.

Lemma mapM_parsable l :
  Forall (fun s => is_ok (fromisoformat s) = true) l ->
  exists dts, mapM fromisoformat l = Ok dts.
Proof.
  induction 1 as [|s l Hs _ [dts IH]]; [now exists []|].
  rewrite mapM_cons, IH. destruct (fromisoformat s) as [dt|e]; [|discriminate].
  cbn. eauto.
Qed.

(** The set the calculator builds holds the written dates of the
    timestamps, and nothing else of them. *)
Lemma logged_days_elem l dts (x : Z) :
  Forall2 (fun s dt => fromisoformat s = Ok dt) l dts ->
  x ∈ (list_to_set (date <$> dts) : gset Z) <->
  exists s dt, s ∈ l /\ fromisoformat s = Ok dt /\ date dt = x.
Proof.
  intros H. rewrite elem_of_list_to_set, list_elem_of_fmap.
  induction H as [|s dt l dts Hp H IH].
  - split.
    + intros (dt & _ & Hdt). inversion Hdt.
    + intros (s & dt & Hs & _). inversion Hs.
  - split.
    + intros (dt' & -> & Hdt). apply elem_of_cons in Hdt as [-> | Hdt].
      * exists s, dt. split; [left | auto].
      * destruct (proj1 IH) as (s' & dt'' & Hs' & Hp' & Hd'); [eauto|].
        exists s', dt''. split; [now right | auto].
    + intros (s' & dt' & Hs' & Hp' & <-).
      apply elem_of_cons in Hs' as [-> | Hs'].
      * exists dt. split; [congruence | left].
      * destruct (proj2 IH) as (dt'' & Hd'' & Hin); [eauto|].
        exists dt''. split; [auto | now right].
Qed.

Lemma calculate_current_streak_set clock l dts :
  mapM fromisoformat l = Ok dts ->
  calculate_current_streak fromisoformat clock l =
  current_streak (list_to_set (date <$> dts)) (date (utcnow clock)).
Proof.
  intros H. destruct l as [|s l].
  - cbn in H. injection H as <-. cbn [calculate_current_streak].
    symmetry. apply current_streak_absent. cbn. set_solver.
  - unfold calculate_current_streak, logged_days_of. now rewrite H.
Qed.

(** Two lists whose timestamps are written on the same dates give the
    same streak. *)
Lemma calculate_current_streak_same_days clock l l' :
  Forall (fun s => is_ok (fromisoformat s) = true) l ->
  Forall (fun s => is_ok (fromisoformat s) = true) l' ->
  (forall x : Z,
     (exists s dt, s ∈ l /\ fromisoformat s = Ok dt /\ date dt = x) <->
     (exists s dt, s ∈ l' /\ fromisoformat s = Ok dt /\ date dt = x)) ->
  calculate_current_streak fromisoformat clock l =
  calculate_current_streak fromisoformat clock l'.
Proof.
  intros Hl Hl' Hsame.
  destruct (mapM_parsable l Hl) as [dts Hd].
  destruct (mapM_parsable l' Hl') as [dts' Hd'].
  rewrite (calculate_current_streak_set clock l dts Hd).
  rewrite (calculate_current_streak_set clock l' dts' Hd').
  f_equal. apply set_eq. intros x.
  rewrite (logged_days_elem l dts x (mapM_parsed _ _ Hd)).
  rewrite (logged_days_elem l' dts' x (mapM_parsed _ _ Hd')).
  apply Hsame.
Qed.

(** C3: from the set of logged days on, the calculator counts the
    consecutive days present backwards from today and stops at the
    first missing day, a day of the calendar: with the [n] days before
    it present and day [today - n] missing it returns [n]. It returns 0
    when today is absent, for the empty set and for the empty list;
    three days in a row give 3 and a gap after today gives 1. The
    result is a function of the set of days and of today's date alone,
    and the code only reads its input. *)
Theorem C3_current_streak_walks_back (logged : gset Z) (clock today : Z) :
  1 <= today <= MAXORDINAL ->
  (forall n, 0 <= n -> 1 <= today - n ->
     (forall i, 0 <= i < n -> today - i ∈ logged) ->
     today - n ∉ logged ->
     current_streak logged today = Ok n) /\
  (today ∉ logged -> current_streak logged today = Ok 0) /\
  current_streak ∅ today = Ok 0 /\
  calculate_current_streak fromisoformat clock [] = Ok 0 /\
  (4 <= today ->
     current_streak {[ today; today - 1; today - 2 ]} today = Ok 3) /\
  (2 <= today -> current_streak {[ today; today - 2 ]} today = Ok 1) /\
  (forall dates dts, mapM fromisoformat dates = Ok dts ->
     calculate_current_streak fromisoformat clock dates =
     current_streak (list_to_set (date <$> dts)) (date (utcnow clock))).
Proof.
  intros Htoday. split; [|split; [|split; [|split; [|split; [|split]]]]].
  - intros n Hn Hmin Hrun Hstop. apply current_streak_counts; auto; lia.
  - apply current_streak_absent.
  - apply current_streak_absent. set_solver.
  - reflexivity.
  - intros H4. apply current_streak_counts; try lia.
    + intros i Hi. rewrite !elem_of_union, !elem_of_singleton. lia.
    + rewrite !elem_of_union, !elem_of_singleton. lia.
  - intros H2. apply current_streak_counts; try lia.
    + intros i Hi. rewrite !elem_of_union, !elem_of_singleton. lia.
    + rewrite !elem_of_union, !elem_of_singleton. lia.
  - intros dates dts H. now apply calculate_current_streak_set.
Qed.

Lemma Forall2_same_days l l' :
  Forall2 (fun s s' => exists dt dt',
             fromisoformat s = Ok dt /\ fromisoformat s' = Ok dt' /\
             date dt = date dt') l l' ->
  Forall (fun s => is_ok (fromisoformat s) = true) l' /\
  forall x : Z,
    (exists s dt, s ∈ l /\ fromisoformat s = Ok dt /\ date dt = x) <->
    (exists s dt, s ∈ l' /\ fromisoformat s = Ok dt /\ date dt = x).
Proof.
  induction 1 as [|s s' l l' (dt & dt' & Hs & Hs' & Hd) _ [IHp IH]].
  - split; [constructor|]. intros x.
    split; intros (s & dt & Hs & _); inversion Hs.
  - split; [constructor; [now rewrite Hs' | assumption]|]. intros x. split.
    + intros (s0 & dt0 & Hin & Hp & Hx).
      apply elem_of_cons in Hin as [-> | Hin].
      * exists s', dt'. split; [left|]. split; [assumption | congruence].
      * destruct (proj1 (IH x)) as (s1 & dt1 & Hin1 & Hp1 & Hx1); [eauto|].
        exists s1, dt1. split; [now right | auto].
    + intros (s0 & dt0 & Hin & Hp & Hx).
      apply elem_of_cons in Hin as [-> | Hin].
      * exists s, dt. split; [left|]. split; [assumption | congruence].
      * destruct (proj2 (IH x)) as (s1 & dt1 & Hin1 & Hp1 & Hx1); [eauto|].
        exists s1, dt1. split; [now right | auto].
Qed.

(** C10 (as amended): for a list of parsable timestamps the calculator
    collects the calendar dates the timestamps are written with (their
    offset is dropped, not applied) into a set. Its result is the same
    for every permutation of the list, when a timestamp is added whose
    written date is already that of a timestamp of the list (a
    duplicate among them), and when timestamps are replaced by others
    written on the same dates: neither the time of day nor the offset
    of a timestamp affects the streak. *)
Theorem C10_streak_of_written_dates (clock : Z) (l : list string) :
  Forall (fun s => is_ok (fromisoformat s) = true) l ->
  (forall l', l ≡ₚ l' ->
     calculate_current_streak fromisoformat clock l' =
     calculate_current_streak fromisoformat clock l) /\
  (forall s dt s' dt',
     fromisoformat s = Ok dt -> s' ∈ l -> fromisoformat s' = Ok dt' ->
     date dt = date dt' ->
     calculate_current_streak fromisoformat clock (s :: l) =
     calculate_current_streak fromisoformat clock l) /\
  (forall l',
     Forall2 (fun s s' => exists dt dt',
                fromisoformat s = Ok dt /\ fromisoformat s' = Ok dt' /\
                date dt = date dt') l l' ->
     calculate_current_streak fromisoformat clock l' =
     calculate_current_streak fromisoformat clock l).
Proof.
  intros Hl. split; [|split].
  - intros l' Hperm. apply calculate_current_streak_same_days.
    + now rewrite <- Hperm.
    + assumption.
    + intros x. split; intros (s & dt & Hs & H); exists s, dt;
        (split; [|exact H]); [now rewrite Hperm | now rewrite <- Hperm].
  - intros s dt s' dt' Hs Hin Hs' Hd. apply calculate_current_streak_same_days.
    + constructor; [now rewrite Hs | assumption].
    + assumption.
    + intros x. split.
      * intros (s0 & dt0 & Hin0 & Hp0 & Hx).
        apply elem_of_cons in Hin0 as [-> | Hin0].
        -- exists s', dt'. split; [assumption|].
           split; [assumption | congruence].
        -- exists s0, dt0. auto.
      * intros (s0 & dt0 & Hin0 & H). exists s0, dt0.
        split; [now right | exact H].
  - intros l' H2. destruct (Forall2_same_days l l' H2) as [Hl' Hsame].
    apply calculate_current_streak_same_days; [assumption | assumption |].
    intros x. symmetry. apply Hsame.
Qed.

End StreakProps.

(** What [Iso.fromisoformat] gives on sample strings, each as CPython
    3.11 answers it: an offset, a date alone, the formats without
    dashes and colons, the suffix [Z], an ISO week date, a fraction
    after a comma, and the errors of the reader and of the
    constructor. *)
Lemma fromisoformat_examples :
  Iso.fromisoformat "2024-01-02T23:00:00-05:00"
    = Ok {| wall := 63839833200000000; tzinfo := Some (-18000000000) |} /\
  Iso.fromisoformat "2024-01-03T23:59:59.500000"
    = Ok (naive 63839923199500000) /\
  Iso.fromisoformat "2024-01-02" = Ok (naive 63839750400000000) /\
  Iso.fromisoformat "20240102T103059" = Ok (naive 63839788259000000) /\
  Iso.fromisoformat "2024-01-02 10:30Z"
    = Ok {| wall := 63839788200000000; tzinfo := Some 0 |} /\
  Iso.fromisoformat "2024-W01-3T10" = Ok (naive 63839872800000000) /\
  Iso.fromisoformat "2024-01-02T10:30:59,25+05:30"
    = Ok {| wall := 63839788259250000; tzinfo := Some 19800000000 |} /\
  Iso.fromisoformat "yesterday"
    = Raise (ValueError "Invalid isoformat string: 'yesterday'") /\
  Iso.fromisoformat "2024-01-02T10:30:59z"
    = Raise (ValueError "Invalid isoformat string: '2024-01-02T10:30:59z'") /\
  Iso.fromisoformat "2024-13-02"
    = Raise (ValueError "month must be in 1..12") /\
  Iso.fromisoformat "2024-02-30T10:00"
    = Raise (ValueError "day is out of range for month") /\
  Iso.fromisoformat "2024-01-02T24:00"
    = Raise (ValueError "hour must be in 0..23") /\
  Iso.fromisoformat "2024-01-02T10:00+24:00"
    = Raise (ValueError
               ("offset must be a timedelta strictly between "
                ++ "-timedelta(hours=24) and timedelta(hours=24), "
                ++ "not datetime.timedelta(days=1).")%string) /\
  Iso.fromisoformat "9999-W52-7"
    = Raise (ValueError "year 10000 is out of range").
Proof. repeat split; vm_compute; reflexivity. Qed.

Lemma C3_current_streak_walks_back_witness :
  1 <= 738887 <= MAXORDINAL /\
  current_streak {[ 738887; 738886; 738884 ]} 738887 = Ok 2.
Proof.
  assert (1 <= 738887 <= MAXORDINAL) as H by (unfold MAXORDINAL; lia).
  split; [exact H|].
  apply (proj1 (C3_current_streak_walks_back Iso.fromisoformat
                  {[ 738887; 738886; 738884 ]} 0 738887 H) 2).
  - lia.
  - lia.
  - intros i Hi. rewrite !elem_of_union, !elem_of_singleton. lia.
  - rewrite !elem_of_union, !elem_of_singleton. lia.
Defined.

Lemma C10_streak_of_written_dates_witness :
  Forall (fun s => is_ok (Iso.fromisoformat s) = true)
    ["2024-01-02T08:15:00"; "2024-01-03T12:00:00+00:00"] /\
  calculate_current_streak Iso.fromisoformat 63839890800000000
    ["2024-01-03T12:00:00+00:00"; "2024-01-02T08:15:00"] =
  calculate_current_streak Iso.fromisoformat 63839890800000000
    ["2024-01-02T08:15:00"; "2024-01-03T12:00:00+00:00"].
Proof.
  assert (Forall (fun s => is_ok (Iso.fromisoformat s) = true)
            ["2024-01-02T08:15:00"; "2024-01-03T12:00:00+00:00"]) as H
    by (repeat constructor).
  split; [exact H|].
  apply (proj1 (C10_streak_of_written_dates Iso.fromisoformat
                  63839890800000000 _ H)).
  apply Permutation_swap.
Defined.

(** C10, the claim as stated fails: the clock reads 2024-01-03 15:00
    UTC. The instant written 2024-01-02T23:00:00-05:00 falls on the UTC
    day 2024-01-03, which the list already has, and adding it raises
    the streak from 1 to 2, for the calculator files it under
    2024-01-02. *)
Lemma C10_counterexample_offset_timestamp :
  utc_calendar_date <$> Iso.parse "2024-01-02T23:00:00-05:00" =
    utc_calendar_date <$> Iso.parse "2024-01-03T12:00:00+00:00" /\
  calculate_current_streak Iso.fromisoformat 63839890800000000
    ["2024-01-03T12:00:00+00:00"] = Ok 1 /\
  calculate_current_streak Iso.fromisoformat 63839890800000000
    ["2024-01-03T12:00:00+00:00"; "2024-01-02T23:00:00-05:00"] = Ok 2.
Proof. vm_compute. auto. Qed.

(** ** Transactions *)

Section Transactions.

Lemma bind_run {A B} (m : txn A) (f : A -> txn B) w :
  (m ≫= f) w =
  match m w with
  | (Ok a, w') => f a w'
  | (Raise e, w') => (Raise e, w')
  end.
Proof. reflexivity. Qed.

Lemma store_call_run e w :
  store_call e w =
  (if fails (fuse w) then Raise OperationalError else Ok tt,
   {| db := db w; trace := trace w ++ [e]; fuse := burn (fuse w) |}).
Proof. unfold store_call. destruct (fuse w) as [[|n]|]; reflexivity. Qed.

Lemma query_run {A} q (rows : database -> A) w :
  query q rows w =
  (if fails (fuse w) then Raise OperationalError else Ok (rows (db w)),
   {| db := db w; trace := trace w ++ [Execute q]; fuse := burn (fuse w) |}).
Proof.
  unfold query. rewrite bind_run, store_call_run.
  destruct (fails (fuse w)); reflexivity.
Qed.

Lemma update_run q f w :
  update q f w =
  (if fails (fuse w) then Raise OperationalError else Ok tt,
   {| db := if fails (fuse w) then db w else f (db w);
      trace := trace w ++ [Execute q]; fuse := burn (fuse w) |}).
Proof.
  unfold update. rewrite bind_run, store_call_run.
  destruct (fails (fuse w)); reflexivity.
Qed.

Lemma get_db_cursor_run {A} (body : txn A) w :
  get_db_cursor body w =
  if fails (fuse w) then
    (Raise (HTTPException 500 "Database error: " (Some OperationalError)),
     {| db := db w; trace := trace w ++ [Connect]; fuse := None |})
  else if fails (burn (fuse w)) then
    (Raise (HTTPException 500 "Database error: " (Some OperationalError)),
     {| db := db w; trace := trace w ++ [Connect; Cursor; Rollback; Close];
        fuse := None |})
  else
    match body {| db := db w; trace := trace w ++ [Connect; Cursor];
                  fuse := burn (burn (fuse w)) |} with
    | (Raise e, w2) =>
        (Raise (HTTPException 500 "Database error: " (Some e)),
         {| db := db w; trace := trace w2 ++ [Rollback; Close];
            fuse := fuse w2 |})
    | (Ok a, w2) =>
        if fails (fuse w2) then
          (Raise (HTTPException 500 "Database error: " (Some OperationalError)),
           {| db := db w; trace := trace w2 ++ [Commit; Rollback; Close];
              fuse := None |})
        else
          (Ok a, {| db := db w2; trace := trace w2 ++ [Commit; Close];
                    fuse := burn (fuse w2) |})
    end.
Proof.
  unfold get_db_cursor. rewrite store_call_run.
  destruct (fuse w) as [[|[|n]]|]; cbn [fails burn]; [reflexivity|..];
    rewrite bind_run, store_call_run; cbn [fuse db trace fails burn];
    rewrite <- app_assoc; cbn [app].
  1: unfold close, rollback; cbn; now rewrite <- !app_assoc.
  all: rewrite bind_run; destruct (body _) as [[a|e] w2];
    [ rewrite bind_run, store_call_run;
      destruct (fuse w2) as [[|k]|]; unfold close, rollback; cbn;
      now rewrite <- !app_assoc
    | unfold close, rollback; cbn; now rewrite <- !app_assoc ].
Qed.

Lemma try_except_run {A} (body : txn A) detail w :
  try_except body detail w =
  match body w with
  | (Ok a, w') => (Ok a, w')
  | (Raise e, w') => (Raise (HTTPException 500 detail (Some e)), w')
  end.
Proof. reflexivity. Qed.

End Transactions.

Section LogProblem.

Variables (clock clock_solved : Z) (data : ProblemLog.t) (user_id : string).

Lemma select_problem_found (d : database) :
  negb (bool_decide (is_Some (select_problem d (ProblemLog.slug data)))) =
  match leetcode_problem d !! ProblemLog.slug data with
  | Some _ => false
  | None => true
  end.
Proof.
  unfold select_problem.
  destruct (leetcode_problem d !! ProblemLog.slug data); reflexivity.
Qed.

Lemma log_problem_body_run w :
  log_problem_body clock clock_solved data user_id w =
  let reads := log_reads data user_id in
  let after qs f :=
    {| db := db w; trace := trace w ++ (Execute <$> qs); fuse := f |} in
  if fails (fuse w) then (Raise OperationalError, after (take 1 reads) None)
  else match leetcode_problem (db w) !! ProblemLog.slug data with
  | None =>
      (Raise (HTTPException 400 "Problem does not exist in database" None),
       after (take 1 reads) (burn (fuse w)))
  | Some _ =>
      if fails (burn (fuse w)) then
        (Raise OperationalError, after (take 2 reads) None)
      else if fails (burn (burn (fuse w))) then
        (Raise OperationalError, after reads None)
      else
        match calculate_next_review clock (ProblemLog.difficulty data)
                (last_review_of (db w) data user_id) with
        | Raise e => (Raise e, after reads (burn (burn (burn (fuse w)))))
        | Ok nr =>
            let new := logged_row clock_solved data user_id (db w) nr in
            if fails (burn (burn (burn (fuse w)))) then
              (Raise OperationalError, after (reads ++ [Upsert new]) None)
            else
              (Ok {| message := ProblemLog.title data ++ " logged!";
                     next_review := date nr |},
               {| db := log_upsert clock_solved data user_id (db w) nr;
                  trace := trace w ++ (Execute <$> reads ++ [Upsert new]);
                  fuse := burn (burn (burn (burn (fuse w)))) |})
        end
  end.
Proof.
  unfold log_problem_body. rewrite bind_run, query_run.
  destruct (fuse w) as [[|[|[|[|n]]]]|] eqn:Hf; cbn [fails burn];
    try reflexivity.
  all: cbv beta iota; rewrite select_problem_found; cbn [db trace fuse];
    destruct (leetcode_problem (db w) !! ProblemLog.slug data) as [p|] eqn:Hp;
    [|reflexivity].
  all: rewrite bind_run, query_run; cbn [fails burn fuse db trace];
    rewrite <- ?app_assoc; try reflexivity.
  all: rewrite bind_run, query_run; cbn [fails burn fuse db trace];
    rewrite <- ?app_assoc; try reflexivity.
  all: rewrite bind_run; unfold lift;
    destruct (calculate_next_review _ _ _) as [nr|e]; try reflexivity.
  all: rewrite ?bind_run, ?update_run; cbn [fails burn fuse db trace];
    rewrite <- ?app_assoc; try reflexivity.
Qed.

End LogProblem.

Section Reviews.

Variables (today_end : datetime) (user_id : string).

Lemma get_todays_reviews_body_run w :
  get_todays_reviews_body today_end user_id w =
  let cutoff := to_timestamp today_end in
  let after qs f :=
    {| db := db w; trace := trace w ++ (Execute <$> qs); fuse := f |} in
  if fails (fuse w) then
    (Raise OperationalError, after [SelectDue user_id cutoff] None)
  else match select_due (db w) user_id cutoff with
  | j :: js =>
      (Ok {| reviews_due := serialize <$> j :: js; next_up := None |},
       after [SelectDue user_id cutoff] (burn (fuse w)))
  | [] =>
      if fails (burn (fuse w)) then
        (Raise OperationalError,
         after [SelectDue user_id cutoff; SelectNextUp user_id] None)
      else
        (Ok {| reviews_due := [];
               next_up := Some (serialize <$> select_next_up (db w) user_id) |},
         after [SelectDue user_id cutoff; SelectNextUp user_id]
           (burn (burn (fuse w))))
  end.
Proof.
  unfold get_todays_reviews_body. rewrite bind_run, query_run.
  destruct (fuse w) as [[|[|n]]|] eqn:Hf; cbn [fails burn];
    try reflexivity.
  all: cbv beta iota zeta; cbn [db trace fuse];
    destruct (select_due (db w) user_id (to_timestamp today_end)) as [|j js];
    [|reflexivity].
  all: rewrite bind_run, query_run; cbn [fails burn fuse db trace];
    rewrite <- ?app_assoc; try reflexivity.
  all: destruct (select_next_up (db w) user_id); reflexivity.
Qed.

Lemma get_todays_reviews_body_executes :
  executes_only (get_todays_reviews_body today_end user_id).
Proof.
  intros w. rewrite get_todays_reviews_body_run. cbv zeta.
  destruct (fails (fuse w)); [eexists; reflexivity|].
  destruct (select_due _ _ _); [|eexists; reflexivity].
  destruct (fails (burn (fuse w))); eexists; reflexivity.
Qed.

End Reviews.

Lemma log_problem_body_executes clock clock_solved data user_id :
  executes_only (log_problem_body clock clock_solved data user_id).
Proof.
  intros w. rewrite log_problem_body_run. cbv zeta.
  destruct (fails (fuse w)); [eexists; reflexivity|].
  destruct (leetcode_problem _ !! _); [|eexists; reflexivity].
  destruct (fails (burn (fuse w))); [eexists; reflexivity|].
  destruct (fails (burn (burn (fuse w)))); [eexists; reflexivity|].
  destruct (calculate_next_review _ _ _); [|eexists; reflexivity].
  destruct (fails (burn (burn (burn (fuse w))))); eexists; reflexivity.
Qed.

Lemma new_events_app w w' evs :
  trace w' = trace w ++ evs -> new_events w w' = evs.
Proof. intros H. unfold new_events. rewrite H. apply drop_app_length. Qed.

Lemma filter_none {A} (P : A -> Prop) `{forall x, Decision (P x)} (l : list A) :
  (forall x, x ∈ l -> ~ P x) -> filter P l = [].
Proof.
  induction l as [|a l IH]; intros Hl; [reflexivity|].
  rewrite filter_cons_False by (apply Hl; left).
  apply IH. intros x Hx. apply Hl. now right.
Qed.

Lemma connections_executes qs rest :
  connections ((Execute <$> qs) ++ rest) = connections rest.
Proof.
  unfold connections. rewrite filter_app, length_app.
  rewrite filter_none; [reflexivity|].
  intros e He. apply list_elem_of_fmap in He as (q & -> & _). discriminate.
Qed.

Lemma connections_connect evs :
  connections (Connect :: evs) = S (connections evs).
Proof. unfold connections. now rewrite filter_cons_True. Qed.

Lemma connections_other e evs :
  is_connect e = false -> connections (e :: evs) = connections evs.
Proof.
  intros He. unfold connections.
  now rewrite filter_cons_False by (rewrite He; discriminate).
Qed.

Lemma committed_one_connection evs :
  committed_shape evs -> connections evs = 1%nat.
Proof.
  intros (qs & ->). cbn [app].
  rewrite connections_connect, connections_other by reflexivity.
  now rewrite connections_executes.
Qed.

Lemma rolled_back_one_connection evs :
  rolled_back_shape evs -> connections evs = 1%nat.
Proof.
  intros (qs & tail & -> & Htail). cbn [app].
  rewrite connections_connect, connections_other by reflexivity.
  rewrite connections_executes. now destruct Htail as [-> | ->].
Qed.

(** A failed scoped transaction leaves the database as it was, whatever
    its body did. *)
Lemma get_db_cursor_raise {A} (body : txn A) w e w' :
  get_db_cursor body w = (Raise e, w') ->
  db w' = db w /\
  exists cause, e = HTTPException 500 "Database error: " (Some cause).
Proof.
  rewrite get_db_cursor_run.
  destruct (fails (fuse w)); [intros [= <- <-]; cbn; eauto|].
  destruct (fails (burn (fuse w))); [intros [= <- <-]; cbn; eauto|].
  destruct (body _) as [[a|e'] w2].
  - destruct (fails (fuse w2)); [intros [= <- <-]; cbn; eauto | discriminate].
  - intros [= <- <-]. cbn. eauto.
Qed.

(** The events of a scoped transaction whose body only executes
    statements. *)
Lemma get_db_cursor_shape {A} (body : txn A) w :
  executes_only body ->
  match (get_db_cursor body w).1 with
  | Ok _ => committed_shape (new_events w (get_db_cursor body w).2)
  | Raise _ =>
      refused_shape (new_events w (get_db_cursor body w).2) \/
      rolled_back_shape (new_events w (get_db_cursor body w).2)
  end.
Proof.
  intros Hb. rewrite get_db_cursor_run.
  destruct (fails (fuse w)).
  { left. cbn. now apply new_events_app. }
  destruct (fails (burn (fuse w))).
  { right. exists [], []. split; [|now left]. now apply new_events_app. }
  destruct (Hb {| db := db w; trace := trace w ++ [Connect; Cursor];
                  fuse := burn (burn (fuse w)) |}) as [qs Hqs].
  cbn [trace] in Hqs. rewrite <- app_assoc in Hqs.
  destruct (body _) as [[a|e] w2]; cbn [snd] in Hqs.
  - destruct (fails (fuse w2)); cbn [fst snd].
    + right. exists qs, [Commit]. split; [|now right].
      apply new_events_app. cbn [trace]. rewrite Hqs.
      now rewrite <- !app_assoc.
    + exists qs. apply new_events_app. cbn [trace]. rewrite Hqs.
      now rewrite <- !app_assoc.
  - right. exists qs, []. split; [|now left].
    apply new_events_app. cbn [trace]. rewrite Hqs.
    now rewrite <- !app_assoc.
Qed.

Lemma try_except_get_db_cursor_outcome {A} (body : txn A) detail w :
  executes_only body ->
  scoped_outcome (try_except (get_db_cursor body) detail w).1 w
    (try_except (get_db_cursor body) detail w).2.
Proof.
  intros Hb. pose proof (get_db_cursor_shape body w Hb) as Hs.
  rewrite try_except_run.
  destruct (get_db_cursor body w) as [[a|e] w'] eqn:Hrun; cbn [fst snd] in *.
  - split; [now apply committed_one_connection | exact Hs].
  - split.
    + destruct Hs as [-> | Hs]; [reflexivity|].
      now apply rolled_back_one_connection.
    + split; [exact Hs|].
      destruct (get_db_cursor_raise _ _ _ _ Hrun) as [Hdb _].
      split; [exact Hdb|]. eauto.
Qed.

(** C9: logging and the review query each run in one scoped
    transaction. When the operation succeeds its events are a
    connection, the statements, a commit and the close. When it fails,
    at the store, at a rejection of the handler or at any other
    exception, the caller gets the error (an HTTP 500 that wraps the
    cause), the database is as it was before the call, and the events
    end with a rollback and the close, unless the connection itself was
    refused and there is nothing to roll back or release. Nothing is
    tried twice: the events hold one connection. *)
Theorem C9_scoped_transaction (clock clock_solved : Z) (data : ProblemLog.t)
    (user_id : string) (w : world) :
  scoped_outcome (log_problem clock clock_solved data user_id w).1 w
    (log_problem clock clock_solved data user_id w).2 /\
  scoped_outcome (get_todays_reviews clock user_id w).1 w
    (get_todays_reviews clock user_id w).2.
Proof.
  split.
  - apply try_except_get_db_cursor_outcome, log_problem_body_executes.
  - apply try_except_get_db_cursor_outcome, get_todays_reviews_body_executes.
Qed.

Section LogProblemFlow.

Variables (clock clock_solved : Z) (data : ProblemLog.t) (user_id : string).

Ltac run_log_problem w :=
  unfold log_problem;
  rewrite try_except_run, get_db_cursor_run, log_problem_body_run;
  cbv zeta; cbn [db trace fuse].

Ltac no_upsert :=
  let new := fresh "new" in
  let Hin := fresh "Hin" in
  intros [new Hin];
  repeat (apply elem_of_cons in Hin as [Hin|Hin]; [discriminate|]);
  inversion Hin.

(** Without a fault of the store, [log_problem] takes one of three
    paths. *)
Lemma log_problem_run w :
  fuse w = None ->
  log_problem clock clock_solved data user_id w =
  let wrap e :=
    HTTPException 500 "Internal log error: "
      (Some (HTTPException 500 "Database error: " (Some e))) in
  let reads := log_reads data user_id in
  match leetcode_problem (db w) !! ProblemLog.slug data with
  | None =>
      (Raise (wrap (HTTPException 400 "Problem does not exist in database"
                      None)),
       {| db := db w;
          trace := trace w ++ [Connect; Cursor;
                               Execute (SelectProblem (ProblemLog.slug data));
                               Rollback; Close];
          fuse := None |})
  | Some _ =>
      match calculate_next_review clock (ProblemLog.difficulty data)
              (last_review_of (db w) data user_id) with
      | Raise e =>
          (Raise (wrap e),
           {| db := db w;
              trace := trace w ++ [Connect; Cursor] ++ (Execute <$> reads)
                         ++ [Rollback; Close];
              fuse := None |})
      | Ok nr =>
          let new := logged_row clock_solved data user_id (db w) nr in
          (Ok {| message := ProblemLog.title data ++ " logged!";
                 next_review := date nr |},
           {| db := log_upsert clock_solved data user_id (db w) nr;
              trace := trace w ++ [Connect; Cursor]
                         ++ (Execute <$> reads ++ [Upsert new])
                         ++ [Commit; Close];
              fuse := None |})
      end
  end.
Proof.
  intros Hf. run_log_problem w. rewrite Hf. cbn [fails burn].
  destruct (leetcode_problem (db w) !! ProblemLog.slug data).
  - destruct (calculate_next_review _ _ _); cbn;
      now rewrite <- ?app_assoc.
  - cbn. now rewrite <- ?app_assoc.
Qed.

(** A log that returns has found the slug, scheduled the review and
    upserted the row; whatever the store did, nothing else of the
    database changed. *)
Lemma log_problem_ok_inv w r w' :
  log_problem clock clock_solved data user_id w = (Ok r, w') ->
  exists nr,
    is_Some (leetcode_problem (db w) !! ProblemLog.slug data) /\
    calculate_next_review clock (ProblemLog.difficulty data)
      (last_review_of (db w) data user_id) = Ok nr /\
    db w' = log_upsert clock_solved data user_id (db w) nr /\
    r = {| message := ProblemLog.title data ++ " logged!";
           next_review := date nr |}.
Proof.
  run_log_problem w.
  destruct (fuse w) as [[|[|[|[|[|[|[|n]]]]]]]|]; cbn [fails burn];
    try discriminate.
  all: destruct (leetcode_problem (db w) !! ProblemLog.slug data) as [p|];
    try discriminate.
  all: destruct (calculate_next_review _ _ _) as [nr|e]; try discriminate.
  all: cbn [fails burn fuse]; try discriminate.
  all: intros [= <- <-]; exists nr; cbn; eauto.
Qed.

(** A log that finds no problem, or whose scheduler raises, fails
    without having executed the upsert, whatever the store does. *)
Lemma log_problem_rejected w :
  leetcode_problem (db w) !! ProblemLog.slug data = None \/
  is_ok (calculate_next_review clock (ProblemLog.difficulty data)
           (last_review_of (db w) data user_id)) = false ->
  is_ok (log_problem clock clock_solved data user_id w).1 = false /\
  db (log_problem clock clock_solved data user_id w).2 = db w /\
  ~ writes (new_events w (log_problem clock clock_solved data user_id w).2).
Proof.
  intros Hrej. run_log_problem w.
  destruct (fuse w) as [[|[|[|[|[|n]]]]]|]; cbn [fails burn].
  all: try (destruct (leetcode_problem (db w) !! ProblemLog.slug data)
              as [p|] eqn:Hp).
  all: try (destruct (calculate_next_review _ _ _) as [nr|e] eqn:Hnr).
  all: try (destruct Hrej as [Hrej|Hrej]; discriminate).
  all: cbn [fst snd db trace fuse fails burn];
    (split; [reflexivity|]); (split; [reflexivity|]).
  all: erewrite new_events_app
    by (cbn [trace]; rewrite <- ?app_assoc; reflexivity).
  all: cbn; no_upsert.
Qed.

(** With no fault of the store, the slug in the catalog, a difficulty
    from 1 to 5 and a last solved date within the window, the log
    returns. *)
Lemma log_problem_succeeds w :
  fuse w = None ->
  is_Some (leetcode_problem (db w) !! ProblemLog.slug data) ->
  clock_ok clock -> 1 <= ProblemLog.difficulty data <= 5 ->
  (forall t,
     select_last_solved (db w) user_id (ProblemLog.slug data) = Some t ->
     -366 <= days (clock - t) <= 3660) ->
  is_ok (log_problem clock clock_solved data user_id w).1 = true.
Proof.
  intros Hf [p Hp] Hc Hd Hlast. rewrite log_problem_run by assumption.
  cbv zeta. rewrite Hp.
  assert (is_ok (calculate_next_review clock (ProblemLog.difficulty data)
                   (last_review_of (db w) data user_id)) = true) as Hok.
  { apply calculate_next_review_ok; [assumption | assumption |].
    intros t Ht. unfold last_review_of in Ht.
    destruct (select_last_solved _ _ _) as [t'|]; [|discriminate].
    injection Ht as <-. split; [reflexivity|]. now apply Hlast. }
  destruct (calculate_next_review _ _ _); [reflexivity | discriminate].
Qed.

End LogProblemFlow.

(** ** The store *)

Section Store.

Lemma min_by_None {A} (key : A -> Z) (l : list A) :
  min_by key l = None <-> l = [].
Proof.
  destruct l as [|x l]; cbn; [tauto|].
  destruct (min_by key l) as [y|]; [destruct (key y <? key x)|];
    split; discriminate.
Qed.

Lemma min_by_Some {A} (key : A -> Z) (l : list A) x :
  min_by key l = Some x ->
  x ∈ l /\ forall y, y ∈ l -> key x <= key y.
Proof.
  revert x. induction l as [|a l IH]; intros x; cbn; [discriminate|].
  destruct (min_by key l) as [y|] eqn:Hy.
  - destruct (IH y eq_refl) as [Hin Hmin].
    destruct (key y <? key a) eqn:Hlt; intros [= <-].
    + apply Z.ltb_lt in Hlt. split; [now right|].
      intros z Hz. apply elem_of_cons in Hz as [-> | Hz]; [lia | auto].
    + apply Z.ltb_ge in Hlt. split; [left|].
      intros z Hz. apply elem_of_cons in Hz as [-> | Hz]; [lia|].
      specialize (Hmin z Hz). lia.
  - intros [= <-]. apply min_by_None in Hy as ->. split; [left|].
    intros z Hz. apply elem_of_cons in Hz as [-> | Hz]; [lia | inversion Hz].
Qed.

Lemma is_log_of_key u s r :
  is_log_of u s r = true <-> log_key r = (u, s).
Proof.
  unfold is_log_of, log_key. rewrite bool_decide_eq_true. split.
  - intros [-> ->]. reflexivity.
  - intros [= -> ->]. auto.
Qed.

Lemma excluded_update_key old new :
  log_key (excluded_update old new) = log_key old.
Proof. reflexivity. Qed.

(** The upsert keeps the keys of the table, and adds the key of the new
    row when the table has none such. *)
Lemma upsert_keys new rows :
  log_key <$> upsert new rows =
  if decide (log_key new ∈ log_key <$> rows) then log_key <$> rows
  else (log_key <$> rows) ++ [log_key new].
Proof.
  induction rows as [|r rows IH]; cbn [upsert fmap list_fmap].
  - rewrite decide_False; [reflexivity | inversion 1].
  - destruct (is_log_of _ _ r) eqn:Hr.
    + apply is_log_of_key in Hr. cbn [fmap list_fmap].
      rewrite excluded_update_key.
      rewrite decide_True; [reflexivity|]. rewrite Hr. left.
    + cbn [fmap list_fmap]. rewrite IH.
      assert (log_key r <> log_key new) as Hne.
      { intros Heq. apply not_true_iff_false in Hr. apply Hr.
        now apply is_log_of_key. }
      destruct (decide (log_key new ∈ log_key <$> rows)) as [Hin|Hout].
      * rewrite decide_True; [reflexivity | now right].
      * rewrite decide_False; [reflexivity|].
        intros Hin. apply elem_of_cons in Hin as [Heq | Hin]; auto.
Qed.

Lemma upsert_unique new rows :
  NoDup (log_key <$> rows) -> NoDup (log_key <$> upsert new rows).
Proof.
  intros H. rewrite upsert_keys.
  destruct (decide (log_key new ∈ log_key <$> rows)); [assumption|].
  apply NoDup_app. split; [assumption|]. split.
  - intros k Hk Hk'. apply list_elem_of_singleton in Hk'. now subst.
  - apply NoDup_singleton.
Qed.

(** After the upsert the table holds one row with the key of the new
    row, and that row has the new difficulty, dates and tags. *)
Lemma upsert_one_log new rows :
  NoDup (log_key <$> rows) ->
  exists row,
    filter (fun r => is_log_of (UserProblem.user_id new)
                       (UserProblem.slug new) r = true) (upsert new rows)
      = [row] /\
    UserProblem.difficulty row = UserProblem.difficulty new /\
    UserProblem.date_solved row = UserProblem.date_solved new /\
    UserProblem.next_review_date row = UserProblem.next_review_date new /\
    UserProblem.tags row = UserProblem.tags new.
Proof.
  induction rows as [|r rows IH]; intros Hnd; cbn [upsert].
  - exists new. split; [|auto]. rewrite filter_cons_True; [reflexivity|].
    now apply is_log_of_key.
  - cbn [fmap list_fmap] in Hnd. apply NoDup_cons in Hnd as [Hr Hnd].
    destruct (is_log_of _ _ r) eqn:Hk.
    + exists (excluded_update r new). split; [|auto].
      rewrite filter_cons_True
        by (apply is_log_of_key; rewrite excluded_update_key;
            now apply is_log_of_key).
      f_equal. apply filter_none. intros x Hx Hpx. apply Hr.
      apply is_log_of_key in Hk, Hpx. rewrite Hk, <- Hpx.
      apply list_elem_of_fmap. eauto.
    + destruct (IH Hnd) as (row & Hrow & Hfields). exists row.
      split; [|exact Hfields].
      rewrite filter_cons_False by (rewrite Hk; discriminate). exact Hrow.
Qed.

(** With unique keys a pair has at most one log. *)
Lemma unique_keys_one_log d u s :
  unique_keys d -> (length (logs_of d u s) <= 1)%nat.
Proof.
  unfold unique_keys, logs_of. induction (user_problem d) as [|r rows IH];
    intros Hnd; [cbn; lia|].
  cbn [fmap list_fmap] in Hnd. apply NoDup_cons in Hnd as [Hr Hnd].
  destruct (is_log_of u s r) eqn:Hk.
  - rewrite filter_cons_True by assumption.
    rewrite filter_none; [cbn; lia|]. intros x Hx Hpx. apply Hr.
    apply is_log_of_key in Hk, Hpx. rewrite Hk, <- Hpx.
    apply list_elem_of_fmap. eauto.
  - rewrite filter_cons_False by (rewrite Hk; discriminate). auto.
Qed.

Lemma to_timestamp_now_utc c : to_timestamp (now_utc c) = c.
Proof. unfold to_timestamp, now_utc. cbn. lia. Qed.

Lemma calculate_next_review_naive clock d last nr :
  calculate_next_review clock d last = Ok nr -> to_timestamp nr = wall nr.
Proof.
  assert (forall a td x, datetime_add a td = Ok x -> tzinfo a = None ->
            to_timestamp x = wall x) as Hadd.
  { intros a td x. unfold datetime_add. destruct (in_range _); [|discriminate].
    intros [= <-] Ha. unfold to_timestamp. cbn. rewrite Ha. cbn. lia. }
  unfold calculate_next_review. destruct last as [last|].
  - destruct (datetime_sub _ _); cbn; [|discriminate].
    destruct (getitem multiplier d); cbn; [|discriminate].
    destruct (int_mul_float _ _); cbn; [|discriminate].
    destruct (float_to_int _); cbn; [|discriminate].
    intros H. now apply Hadd in H.
  - destruct (getitem initial_days d); cbn; [|discriminate].
    intros H. now apply Hadd in H.
Qed.

End Store.

Section LogTwice.

Variables (user_id : string).

Lemma log_upsert_unique s data d nr :
  unique_keys d -> unique_keys (log_upsert s data user_id d nr).
Proof. unfold unique_keys, log_upsert. cbn. apply upsert_unique. Qed.

(** What the table holds for the pair after a log's upsert. *)
Lemma log_upsert_one_log s data d nr :
  unique_keys d ->
  exists row,
    logs_of (log_upsert s data user_id d nr) user_id (ProblemLog.slug data)
      = [row] /\
    UserProblem.difficulty row = ProblemLog.difficulty data /\
    UserProblem.date_solved row = s /\
    UserProblem.next_review_date row = to_timestamp nr /\
    UserProblem.tags row =
      normalize_tags (fetched_tags (select_tags d (ProblemLog.slug data))).
Proof.
  intros Hu.
  destruct (upsert_one_log (logged_row s data user_id d nr) (user_problem d) Hu)
    as (row & Hrow & Hd & Hs & Hn & Ht).
  exists row. split; [exact Hrow|]. cbn in Hd, Hs, Hn, Ht.
  rewrite to_timestamp_now_utc in Hs. auto.
Qed.

Lemma log_upsert_last_review s data data' d nr :
  unique_keys d -> ProblemLog.slug data' = ProblemLog.slug data ->
  last_review_of (log_upsert s data user_id d nr) data' user_id
    = Some (naive s).
Proof.
  intros Hu Hslug. unfold last_review_of, select_last_solved. rewrite Hslug.
  destruct (log_upsert_one_log s data d nr Hu) as (row & Hrow & _ & Hs & _).
  unfold logs_of in Hrow. rewrite Hrow. cbn. now rewrite Hs.
Qed.

Lemma log_upsert_tags s data d nr slug :
  select_tags (log_upsert s data user_id d nr) slug = select_tags d slug.
Proof. reflexivity. Qed.

(** C6: when the same user logs the same slug twice, the table holds
    exactly one row for the pair afterwards. Its difficulty is that of
    the second call, its solved date the second call's now, its next
    review date the one the scheduler computes for the second call from
    the first call's solved date, and its tags the catalog's tags for
    the slug, normalised. The key of the table stays unique, so a user
    has at most one log per problem. *)
Theorem C6_log_twice_one_record (clock1 solved1 clock2 solved2 : Z)
    (data1 data2 : ProblemLog.t) (w : world) :
  let w1 := (log_problem clock1 solved1 data1 user_id w).2 in
  let w2 := (log_problem clock2 solved2 data2 user_id w1).2 in
  unique_keys (db w) ->
  ProblemLog.slug data1 = ProblemLog.slug data2 ->
  is_ok (log_problem clock1 solved1 data1 user_id w).1 = true ->
  is_ok (log_problem clock2 solved2 data2 user_id w1).1 = true ->
  exists row next_review,
    logs_of (db w2) user_id (ProblemLog.slug data2) = [row] /\
    calculate_next_review clock2 (ProblemLog.difficulty data2)
      (Some (naive solved1)) = Ok next_review /\
    UserProblem.difficulty row = ProblemLog.difficulty data2 /\
    UserProblem.date_solved row = solved2 /\
    UserProblem.next_review_date row = wall next_review /\
    UserProblem.tags row =
      normalize_tags
        (fetched_tags (select_tags (db w) (ProblemLog.slug data2))) /\
    unique_keys (db w2) /\
    forall u s, (length (logs_of (db w2) u s) <= 1)%nat.
Proof.
  intros w1 w2 Hu Hslug Hok1 Hok2. subst w1 w2.
  destruct (log_problem clock1 solved1 data1 user_id w) as [[r1|e1] w1] eqn:H1;
    [|discriminate].
  cbn [snd] in *.
  destruct (log_problem clock2 solved2 data2 user_id w1) as [[r2|e2] w2] eqn:H2;
    [|discriminate].
  cbn [snd].
  apply log_problem_ok_inv in H1 as (nr1 & _ & _ & Hdb1 & _).
  apply log_problem_ok_inv in H2 as (nr2 & _ & Hnr2 & Hdb2 & _).
  assert (unique_keys (db w1)) as Hu1
    by (rewrite Hdb1; now apply log_upsert_unique).
  rewrite Hdb1, log_upsert_last_review in Hnr2 by auto.
  destruct (log_upsert_one_log solved2 data2 (db w1) nr2 Hu1)
    as (row & Hrow & Hd & Hs & Hn & Ht).
  exists row, nr2. rewrite Hdb2.
  split; [exact Hrow|]. split; [exact Hnr2|]. split; [exact Hd|].
  split; [exact Hs|].
  split; [rewrite Hn; now apply calculate_next_review_naive in Hnr2|].
  split; [rewrite Ht, Hdb1; reflexivity|].
  assert (unique_keys (log_upsert solved2 data2 user_id (db w1) nr2)) as Hu2
    by now apply log_upsert_unique.
  split; [exact Hu2|]. intros u s. now apply unique_keys_one_log.
Qed.

End LogTwice.

(** ** Today's reviews *)

Section TodaysReviews.

Variables (clock : Z) (user_id : string).

Lemma get_todays_reviews_run w :
  fuse w = None ->
  get_todays_reviews clock user_id w =
  let cutoff := today_end_of clock in
  match select_due (db w) user_id cutoff with
  | j :: js =>
      (Ok {| reviews_due := serialize <$> j :: js; next_up := None |},
       {| db := db w;
          trace := trace w ++ [Connect; Cursor;
                               Execute (SelectDue user_id cutoff);
                               Commit; Close];
          fuse := None |})
  | [] =>
      (Ok {| reviews_due := [];
             next_up := Some (serialize <$> select_next_up (db w) user_id) |},
       {| db := db w;
          trace := trace w ++ [Connect; Cursor;
                               Execute (SelectDue user_id cutoff);
                               Execute (SelectNextUp user_id);
                               Commit; Close];
          fuse := None |})
  end.
Proof.
  intros Hf. unfold get_todays_reviews. cbv zeta.
  rewrite try_except_run, get_db_cursor_run, get_todays_reviews_body_run.
  cbv zeta. cbn [db trace fuse]. rewrite Hf. cbn [fails burn].
  fold (today_end_of clock).
  destruct (select_due _ _ _); cbn; now rewrite <- ?app_assoc.
Qed.

Lemma joined_logs_elem d j :
  j ∈ joined_logs d user_id <->
  exists r p, is_log_of_user user_id d r /\
    leetcode_problem d !! UserProblem.slug r = Some p /\
    j = {| up := r; lp_tags := LeetcodeProblem.tags p |}.
Proof.
  unfold joined_logs, is_log_of_user. rewrite list_elem_of_omap. split.
  - intros (r & Hr & Hj). apply list_elem_of_filter in Hr as [Hu Hr].
    unfold join in Hj. destruct (leetcode_problem d !! _) as [p|] eqn:Hp;
      [|discriminate].
    cbn in Hj. injection Hj as <-. eauto 10.
  - intros (r & p & [Hr Hu] & Hp & ->). exists r. split.
    + apply list_elem_of_filter. auto.
    + unfold join. now rewrite Hp.
Qed.

Lemma select_due_elem d cutoff j :
  j ∈ select_due d user_id cutoff <->
  exists r p, is_due user_id d cutoff r /\
    leetcode_problem d !! UserProblem.slug r = Some p /\
    j = {| up := r; lp_tags := LeetcodeProblem.tags p |}.
Proof.
  unfold select_due, is_due. rewrite list_elem_of_filter, joined_logs_elem.
  split.
  - intros (Hn & r & p & Hr & Hp & ->). exists r, p. cbn in Hn. auto.
  - intros (r & p & [Hr Hn] & Hp & ->). split; [exact Hn | eauto].
Qed.

(** C7 (as amended): with no fault of the store and every log's slug in
    the catalog, [get_todays_reviews] succeeds and leaves the database
    as it is. If some log of the user has its next review date at or
    before 23:59:59 UTC of the current day, [reviews_due] is not empty,
    holds exactly those logs, each joined with its catalog tags, and
    [next_up] is omitted. If the user has logs and none is due,
    [reviews_due] is empty and [next_up] is a log of the user with the
    smallest next review date among the user's logs; that date is later
    than 23:59:59 UTC of the current day, and later than now whenever
    now is not past it. If the user has no log, [reviews_due] is empty
    and [next_up] is null. *)
Theorem C7_todays_reviews (w : world) :
  fuse w = None -> foreign_keys (db w) ->
  exists resp,
    (get_todays_reviews clock user_id w).1 = Ok resp /\
    db (get_todays_reviews clock user_id w).2 = db w /\
    ((exists r, is_due user_id (db w) (today_end_of clock) r) ->
       reviews_due resp <> [] /\ next_up resp = None /\
       forall x, x ∈ reviews_due resp <->
         exists r, is_due user_id (db w) (today_end_of clock) r /\
           joined_review (db w) r x) /\
    ((exists r, is_log_of_user user_id (db w) r) ->
     (forall r, ~ is_due user_id (db w) (today_end_of clock) r) ->
       reviews_due resp = [] /\
       exists r x, next_up resp = Some (Some x) /\
         is_log_of_user user_id (db w) r /\ joined_review (db w) r x /\
         (forall r', is_log_of_user user_id (db w) r' ->
            UserProblem.next_review_date r
              <= UserProblem.next_review_date r') /\
         today_end_of clock < UserProblem.next_review_date r /\
         (clock <= today_end_of clock ->
            clock < UserProblem.next_review_date r)) /\
    ((forall r, ~ is_log_of_user user_id (db w) r) ->
       reviews_due resp = [] /\ next_up resp = Some None).
Proof.
  intros Hf Hfk. rewrite get_todays_reviews_run by assumption. cbv zeta.
  destruct (select_due (db w) user_id (today_end_of clock)) as [|j js] eqn:Hdue.
  - eexists. split; [reflexivity|]. split; [reflexivity|].
    cbn [reviews_due next_up].
    assert (forall r, ~ is_due user_id (db w) (today_end_of clock) r) as Hnone.
    { intros r Hr. destruct (Hfk r) as [p Hp]; [apply Hr|].
      assert ({| up := r; lp_tags := LeetcodeProblem.tags p |}
                ∈ select_due (db w) user_id (today_end_of clock)) as Hin
        by (apply select_due_elem; eauto).
      rewrite Hdue in Hin. inversion Hin. }
    split; [|split].
    + intros [r Hr]. now apply Hnone in Hr.
    + intros [r0 Hr0] _. split; [reflexivity|].
      destruct (select_next_up (db w) user_id) as [j|] eqn:Hnext.
      * unfold select_next_up in Hnext.
        apply min_by_Some in Hnext as [Hj Hmin].
        apply joined_logs_elem in Hj as (r & p & Hr & Hp & ->).
        exists r, (serialize {| up := r; lp_tags := LeetcodeProblem.tags p |}).
        split; [reflexivity|]. split; [exact Hr|].
        split; [exists p; auto|].
        assert (today_end_of clock < UserProblem.next_review_date r) as Hlate.
        { destruct (Z.lt_ge_cases (today_end_of clock)
                      (UserProblem.next_review_date r)) as [?|Hle];
            [assumption|].
          exfalso. apply (Hnone r). split; [exact Hr | lia]. }
        split; [|split; [exact Hlate | lia]].
        intros r' Hr'. destruct (Hfk r') as [p' Hp']; [apply Hr'|].
        apply (Hmin {| up := r'; lp_tags := LeetcodeProblem.tags p' |}).
        apply joined_logs_elem. eauto.
      * exfalso. unfold select_next_up in Hnext. apply min_by_None in Hnext.
        destruct (Hfk r0) as [p0 Hp0]; [apply Hr0|].
        assert ({| up := r0; lp_tags := LeetcodeProblem.tags p0 |}
                  ∈ joined_logs (db w) user_id) as Hin
          by (apply joined_logs_elem; eauto).
        rewrite Hnext in Hin. inversion Hin.
    + intros Hno. split; [reflexivity|].
      destruct (select_next_up (db w) user_id) as [j|] eqn:Hnext;
        [|reflexivity].
      exfalso. unfold select_next_up in Hnext.
      apply min_by_Some in Hnext as [Hj _].
      apply joined_logs_elem in Hj as (r & p & Hr & _). now apply (Hno r).
  - eexists. split; [reflexivity|]. split; [reflexivity|].
    cbn [reviews_due next_up].
    assert (exists r, is_due user_id (db w) (today_end_of clock) r) as Hsome.
    { assert (j ∈ select_due (db w) user_id (today_end_of clock)) as Hin
        by (rewrite Hdue; left).
      apply select_due_elem in Hin as (r & p & Hr & _). eauto. }
    split; [|split].
    + intros _. split; [discriminate|]. split; [reflexivity|].
      intros x. rewrite <- Hdue, list_elem_of_fmap. split.
      * intros (j' & -> & Hj').
        apply select_due_elem in Hj' as (r & p & Hr & Hp & ->).
        exists r. split; [exact Hr|]. exists p. auto.
      * intros (r & Hr & p & Hp & ->). eexists. split; [reflexivity|].
        apply select_due_elem. eauto.
    + intros _ Hnone. destruct Hsome as [r Hr]. now apply Hnone in Hr.
    + intros Hno. destruct Hsome as [r [Hr _]]. now apply Hno in Hr.
Qed.

End TodaysReviews.

Lemma today_end_of_bounds clock :
  today_end_of clock = clock - clock mod US_PER_DAY + 86399 * US_PER_SECOND /\
  clock - US_PER_SECOND < today_end_of clock.
Proof.
  unfold today_end_of, to_timestamp, combine, date, utcnow, naive. cbn.
  pose proof (Z.div_mod clock US_PER_DAY) as Hdm.
  pose proof (Z.mod_pos_bound clock US_PER_DAY) as Hb.
  unfold US_PER_DAY, US_PER_SECOND in *. lia.
Qed.

(** ** Rejections of the logging flow *)

Section Rejections.

Variables (clock clock_solved : Z) (user_id : string).

Lemma calculate_next_review_outside d last :
  ~ (1 <= d <= 5) ->
  is_ok (calculate_next_review clock d last) = false /\
  (forall t, last = Some (naive t) \/ last = None ->
     calculate_next_review clock d last = Raise (KeyError d)).
Proof.
  intros Hd. unfold calculate_next_review.
  rewrite (getitem_None initial_days d (initial_days_outside d Hd)).
  rewrite (getitem_None multiplier d (multiplier_outside d Hd)).
  split.
  - destruct last as [last|]; [|reflexivity].
    destruct (datetime_sub _ _); reflexivity.
  - intros t [-> | ->]; reflexivity.
Qed.

(** A log of a slug that is not in the catalog, whatever the store
    does: the error that leaves the handler. *)
Lemma log_problem_unknown_slug_error (data : ProblemLog.t) (w : world) e :
  leetcode_problem (db w) !! ProblemLog.slug data = None ->
  (log_problem clock clock_solved data user_id w).1 = Raise e ->
  exists cause,
    e = HTTPException 500 "Internal log error: "
          (Some (HTTPException 500 "Database error: " (Some cause))) /\
    (cause = OperationalError \/
     cause = HTTPException 400 "Problem does not exist in database" None).
Proof.
  intros Hslug. unfold log_problem.
  rewrite try_except_run, get_db_cursor_run, log_problem_body_run.
  cbv zeta. cbn [db trace fuse]. rewrite Hslug.
  destruct (fuse w) as [[|[|[|n]]]|]; cbn; intros [= <-]; eauto.
Qed.

(** C5 (the code departs from the claim): for a slug that is not in
    the catalog [log_problem] raises its rejection, "Problem does not
    exist in database" with status 400, under [get_db_cursor], whose
    [except Exception] catches it as it catches a failure of the store
    and raises an HTTP 500 in its place; the [except] of the handler
    wraps that once more. So the rejection does not reach the caller:
    whatever the store does, what leaves the handler is an HTTP 500
    "Internal log error" about a 500 "Database error", never the 400,
    which with no fault of the store is its innermost cause. The rest
    of the claim holds: the call fails, the upsert is not executed and
    the database is as it was, and with no fault of the store the only
    statement executed is the existence check. *)
Theorem C5_unknown_slug_is_answered_with_500 (data : ProblemLog.t)
    (w : world) :
  leetcode_problem (db w) !! ProblemLog.slug data = None ->
  is_ok (log_problem clock clock_solved data user_id w).1 = false /\
  db (log_problem clock clock_solved data user_id w).2 = db w /\
  ~ writes (new_events w (log_problem clock clock_solved data user_id w).2) /\
  (forall e, (log_problem clock clock_solved data user_id w).1 = Raise e ->
     e <> HTTPException 400 "Problem does not exist in database" None /\
     exists cause,
       e = HTTPException 500 "Internal log error: "
             (Some (HTTPException 500 "Database error: " (Some cause))) /\
       (cause = OperationalError \/
        cause = HTTPException 400 "Problem does not exist in database"
                  None)) /\
  (fuse w = None ->
     (log_problem clock clock_solved data user_id w).1 =
       Raise (HTTPException 500 "Internal log error: "
                (Some (HTTPException 500 "Database error: "
                   (Some (HTTPException 400
                            "Problem does not exist in database" None))))) /\
     new_events w (log_problem clock clock_solved data user_id w).2 =
       [Connect; Cursor; Execute (SelectProblem (ProblemLog.slug data));
        Rollback; Close]).
Proof.
  intros Hslug.
  destruct (log_problem_rejected clock clock_solved data user_id w
              (or_introl Hslug)) as (Hr & Hd & Hw).
  split; [exact Hr|]. split; [exact Hd|]. split; [exact Hw|]. split.
  - intros e He.
    destruct (log_problem_unknown_slug_error data w e Hslug He)
      as (cause & -> & Hcause).
    split; [discriminate | eauto].
  - intros Hf. rewrite log_problem_run by assumption. cbv zeta.
    rewrite Hslug. split; [reflexivity|]. now apply new_events_app.
Qed.

(** C4 (as amended): a difficulty outside 1..5 makes the scheduler
    fail in both cases, with the [KeyError] of its table lookup (in the
    repeat case for the naive last review date the store hands it; for
    any other it fails as well). In the logging flow the failure comes
    after the reads, not before any store access: with no fault of the
    store and the slug in the catalog, the existence check, the tags
    and the last solved date are read, then the call fails with that
    [KeyError], wrapped, and the transaction is rolled back. Whatever
    the store does, the upsert is not executed and the database is as
    it was. *)
Theorem C4_invalid_difficulty (d : Z) :
  ~ (1 <= d <= 5) ->
  calculate_next_review clock d None = Raise (KeyError d) /\
  (forall t, calculate_next_review clock d (Some (naive t))
             = Raise (KeyError d)) /\
  (forall last, is_ok (calculate_next_review clock d last) = false) /\
  (forall data w, ProblemLog.difficulty data = d ->
     is_ok (log_problem clock clock_solved data user_id w).1 = false /\
     db (log_problem clock clock_solved data user_id w).2 = db w /\
     ~ writes
         (new_events w (log_problem clock clock_solved data user_id w).2) /\
     (fuse w = None ->
      is_Some (leetcode_problem (db w) !! ProblemLog.slug data) ->
        (log_problem clock clock_solved data user_id w).1 =
          Raise (HTTPException 500 "Internal log error: "
                   (Some (HTTPException 500 "Database error: "
                      (Some (KeyError d))))) /\
        new_events w (log_problem clock clock_solved data user_id w).2 =
          [Connect; Cursor] ++ (Execute <$> log_reads data user_id)
            ++ [Rollback; Close])).
Proof.
  intros Hd.
  split; [apply (proj2 (calculate_next_review_outside d None Hd) 0); auto|].
  split.
  { intros t. apply (proj2 (calculate_next_review_outside d _ Hd) t). auto. }
  split; [intros last; apply (calculate_next_review_outside d last Hd)|].
  intros data w <-.
  pose proof (proj1 (calculate_next_review_outside _
                (last_review_of (db w) data user_id) Hd)) as Hnr.
  destruct (log_problem_rejected clock clock_solved data user_id w
              (or_intror Hnr)) as (Hr & Hdb & Hw).
  split; [exact Hr|]. split; [exact Hdb|]. split; [exact Hw|].
  intros Hf [p Hp]. rewrite log_problem_run by assumption. cbv zeta.
  rewrite Hp.
  assert (calculate_next_review clock (ProblemLog.difficulty data)
            (last_review_of (db w) data user_id)
          = Raise (KeyError (ProblemLog.difficulty data))) as ->.
  { unfold last_review_of.
    destruct (select_last_solved _ _ _) as [t|];
      cbn [fmap option_fmap option_map].
    - apply (proj2 (calculate_next_review_outside _ _ Hd) t). auto.
    - apply (proj2 (calculate_next_review_outside _ _ Hd) 0). auto. }
  split; [reflexivity|]. now apply new_events_app.
Qed.

End Rejections.


(** ** The invariants of the store are kept *)

Section Invariants.

Variables (clock clock_solved : Z) (data : ProblemLog.t) (user_id : string).

Lemma log_problem_db w :
  db (log_problem clock clock_solved data user_id w).2 = db w \/
  exists nr,
    is_Some (leetcode_problem (db w) !! ProblemLog.slug data) /\
    db (log_problem clock clock_solved data user_id w).2
      = log_upsert clock_solved data user_id (db w) nr.
Proof.
  destruct (log_problem clock clock_solved data user_id w) as [[r|e] w'] eqn:H.
  - right. apply log_problem_ok_inv in H as (nr & Hp & _ & Hdb & _). eauto.
  - left. unfold log_problem in H. rewrite try_except_run in H.
    destruct (get_db_cursor _ w) as [[a|e'] w''] eqn:Hc; [discriminate|].
    injection H as _ <-. now apply get_db_cursor_raise in Hc as [Hdb _].
Qed.

Lemma upsert_elem new rows r :
  r ∈ upsert new rows ->
  r = new \/
  exists old, old ∈ rows /\ UserProblem.slug r = UserProblem.slug old.
Proof.
  induction rows as [|a rows IH]; cbn [upsert].
  - intros Hr. apply list_elem_of_singleton in Hr. now left.
  - destruct (is_log_of _ _ a).
    + intros Hr. right. apply elem_of_cons in Hr as [-> | Hr].
      * exists a. split; [left | reflexivity].
      * exists r. split; [now right | reflexivity].
    + intros Hr. apply elem_of_cons in Hr as [-> | Hr].
      * right. exists a. split; [left | reflexivity].
      * destruct (IH Hr) as [-> | (old & Hold & Hs)]; [now left|].
        right. exists old. split; [now right | exact Hs].
Qed.

(** Logging keeps the key of the logs unique and every log's slug in
    the catalog. *)
Lemma log_problem_invariants w :
  unique_keys (db w) -> foreign_keys (db w) ->
  unique_keys (db (log_problem clock clock_solved data user_id w).2) /\
  foreign_keys (db (log_problem clock clock_solved data user_id w).2).
Proof.
  intros Hu Hfk.
  destruct (log_problem_db w) as [-> | (nr & Hp & ->)]; [auto|].
  split; [now apply log_upsert_unique|].
  intros r Hr. cbn in Hr. apply upsert_elem in Hr as [-> | (old & Hold & Hs)].
  - exact Hp.
  - cbn. rewrite Hs. now apply Hfk.
Qed.

End Invariants.

(** ** Tags *)

Section Tags.

Lemma keys_strings items : is_list_of_strings (keys items) = true.
Proof.
  unfold keys, is_list_of_strings.
  induction items as [|[k v] items IH]; [reflexivity | exact IH].
Qed.

Lemma normalize_tags_strings v :
  catalog_tags_shape v = true ->
  is_list_of_strings (normalize_tags (fetched_tags (Some v))) = true.
Proof.
  destruct v; cbn; try discriminate; auto. intros _. apply keys_strings.
Qed.

Lemma fix_tags_strings v :
  catalog_tags_shape v = true -> is_list_of_strings (fix_tags v) = true.
Proof.
  destruct v; cbn; try discriminate; auto. intros _. apply keys_strings.
Qed.

(** C8: of the tags fetched from the catalog while logging, a mapping
    becomes the list of its keys (the mapping with keys array and
    string becomes the list of array and string), null and a missing
    row become the empty list, and a list is kept as it is. So for the
    tags the data model allows (a mapping, null or a list of strings)
    what is written to the log is a list of strings, the one row the
    log leaves for the pair holds such a list, and the tags
    [get_all_problems] builds from stored tags of these shapes are a
    list of strings as well. *)
Theorem C8_tags_normalize_to_list :
  (forall items,
     normalize_tags (fetched_tags (Some (JDict items)))
       = JList (JStr <$> items.*1)) /\
  normalize_tags
    (fetched_tags (Some (JDict [("array", JNum 1); ("string", JNum 1)])))
    = JList [JStr "array"; JStr "string"] /\
  normalize_tags (fetched_tags (Some JNull)) = JList [] /\
  normalize_tags (fetched_tags None) = JList [] /\
  (forall l, normalize_tags (fetched_tags (Some (JList l))) = JList l) /\
  (forall v, catalog_tags_shape v = true ->
     is_list_of_strings (normalize_tags (fetched_tags (Some v))) = true) /\
  (forall clock clock_solved data user_id w,
     unique_keys (db w) ->
     (forall p, leetcode_problem (db w) !! ProblemLog.slug data = Some p ->
        catalog_tags_shape (LeetcodeProblem.tags p) = true) ->
     is_ok (log_problem clock clock_solved data user_id w).1 = true ->
     exists row,
       logs_of (db (log_problem clock clock_solved data user_id w).2)
         user_id (ProblemLog.slug data) = [row] /\
       is_list_of_strings (UserProblem.tags row) = true) /\
  (forall json_loads user_tags official_tags,
     catalog_tags_shape user_tags = true ->
     catalog_tags_shape official_tags = true ->
     exists t, row_tags json_loads user_tags official_tags = Ok t /\
       is_list_of_strings t = true).
Proof.
  split; [reflexivity|]. split; [reflexivity|]. split; [reflexivity|].
  split; [reflexivity|]. split; [reflexivity|].
  split; [exact normalize_tags_strings|]. split.
  - intros clock clock_solved data user_id w Hu Hshape Hok.
    destruct (log_problem clock clock_solved data user_id w)
      as [[r|e] w'] eqn:H; [|discriminate].
    apply log_problem_ok_inv in H as (nr & [p Hp] & _ & Hdb & _).
    cbn [snd]. rewrite Hdb.
    destruct (log_upsert_one_log user_id clock_solved data (db w) nr Hu)
      as (row & Hrow & _ & _ & _ & Ht).
    exists row. split; [exact Hrow|]. rewrite Ht.
    unfold select_tags. rewrite Hp. cbn [fmap option_fmap option_map].
    apply normalize_tags_strings, (Hshape p Hp).
  - intros json_loads u o Hu Ho. unfold row_tags.
    assert (forall v, catalog_tags_shape v = true ->
              loads_if_str json_loads v = Ok v) as Hloads
      by (intros v; destruct v; cbn; (discriminate || reflexivity)).
    rewrite (Hloads u Hu), (Hloads o Ho). cbn.
    eexists. split; [reflexivity|]. unfold py_or.
    destruct (truthy (fix_tags u)); [now apply fix_tags_strings|].
    destruct (truthy (fix_tags o)); [now apply fix_tags_strings | reflexivity].
Qed.

End Tags.

(** ** Worked instances *)

Lemma C8_tags_normalize_to_list_witness :
  catalog_tags_shape (LeetcodeProblem.tags two_sum) = true /\
  is_list_of_strings
    (normalize_tags (fetched_tags (Some (LeetcodeProblem.tags two_sum))))
    = true.
Proof.
  assert (catalog_tags_shape (LeetcodeProblem.tags two_sum) = true) as H
    by reflexivity.
  split; [exact H|].
  exact (proj1 (proj2 (proj2 (proj2 (proj2 (proj2
           C8_tags_normalize_to_list))))) _ H).
Defined.

Lemma C4_invalid_difficulty_witness :
  ~ (1 <= 9 <= 5) /\
  calculate_next_review 63839890800000000 9 None = Raise (KeyError 9).
Proof.
  assert (~ (1 <= 9 <= 5)) as H by lia.
  split; [exact H|].
  exact (proj1 (C4_invalid_difficulty 63839890800000000 63839890800000005
                  "u1" 9 H)).
Defined.

(** C4, the claim as stated fails: the catalog holds the slug and the
    difficulty is 9. Before the call fails, it has connected and read
    the store three times. *)
Lemma C4_counterexample_reads_before_rejection :
  (log_problem 63839890800000000 63839890800000005 (log_request 9) "u1"
     (store_of [])).1
    = Raise (HTTPException 500 "Internal log error: "
               (Some (HTTPException 500 "Database error: "
                        (Some (KeyError 9))))) /\
  trace (log_problem 63839890800000000 63839890800000005 (log_request 9) "u1"
           (store_of [])).2
    = [Connect; Cursor; Execute (SelectProblem "two-sum");
       Execute (SelectTags "two-sum");
       Execute (SelectLastSolved "u1" "two-sum"); Rollback; Close] /\
  accesses_store
    (trace (log_problem 63839890800000000 63839890800000005 (log_request 9)
              "u1" (store_of [])).2).
Proof.
  assert (trace (log_problem 63839890800000000 63839890800000005
                   (log_request 9) "u1" (store_of [])).2
          = [Connect; Cursor; Execute (SelectProblem "two-sum");
             Execute (SelectTags "two-sum");
             Execute (SelectLastSolved "u1" "two-sum"); Rollback; Close])
    as Ht by (vm_compute; reflexivity).
  split; [vm_compute; reflexivity|]. split; [exact Ht|].
  exists (SelectProblem "two-sum"). rewrite Ht. right. right. left.
Qed.

Lemma C5_unknown_slug_is_answered_with_500_witness :
  leetcode_problem (db (store_of []))
    !! ProblemLog.slug {| ProblemLog.slug := "no-such-problem";
                          ProblemLog.title := "No Such Problem";
                          ProblemLog.difficulty := 3 |} = None /\
  (log_problem 63839890800000000 63839890800000005
     {| ProblemLog.slug := "no-such-problem";
        ProblemLog.title := "No Such Problem";
        ProblemLog.difficulty := 3 |} "u1" (store_of [])).1
    = Raise (HTTPException 500 "Internal log error: "
               (Some (HTTPException 500 "Database error: "
                  (Some (HTTPException 400
                           "Problem does not exist in database" None))))) /\
  db (log_problem 63839890800000000 63839890800000005
        {| ProblemLog.slug := "no-such-problem";
           ProblemLog.title := "No Such Problem";
           ProblemLog.difficulty := 3 |} "u1" (store_of [])).2
    = db (store_of []).
Proof.
  assert (leetcode_problem (db (store_of []))
            !! ProblemLog.slug {| ProblemLog.slug := "no-such-problem";
                                  ProblemLog.title := "No Such Problem";
                                  ProblemLog.difficulty := 3 |} = None) as H
    by (vm_compute; reflexivity).
  split; [exact H|].
  destruct (C5_unknown_slug_is_answered_with_500 63839890800000000
              63839890800000005 "u1" _ (store_of []) H)
    as (_ & Hdb & _ & _ & Hcaller).
  split; [exact (proj1 (Hcaller eq_refl)) | exact Hdb].
Defined.

Lemma C6_log_twice_one_record_witness :
  unique_keys (db (store_of [])) /\
  exists row,
    logs_of
      (db (log_problem 63840754800000000 63840754800000005 (log_request 2) "u1"
             (log_problem 63839890800000000 63839890800000005 (log_request 3)
                "u1" (store_of [])).2).2) "u1" "two-sum" = [row] /\
    UserProblem.difficulty row = 2.
Proof.
  assert (unique_keys (db (store_of []))) as Hu by constructor.
  split; [exact Hu|].
  destruct (C6_log_twice_one_record "u1" 63839890800000000 63839890800000005
              63840754800000000 63840754800000005 (log_request 3)
              (log_request 2) (store_of []) Hu eq_refl)
    as (row & nr & Hrow & _ & Hd & _).
  - vm_compute. reflexivity.
  - vm_compute. reflexivity.
  - exists row. split; [exact Hrow | exact Hd].
Defined.

Lemma C7_todays_reviews_witness :
  fuse (store_of [late_log]) = None /\
  foreign_keys (db (store_of [late_log])) /\
  exists resp,
    (get_todays_reviews 63839890800000000 "u1" (store_of [late_log])).1
      = Ok resp.
Proof.
  assert (foreign_keys (db (store_of [late_log]))) as Hfk.
  { intros r Hr. apply list_elem_of_singleton in Hr. subst r.
    exists two_sum. vm_compute. reflexivity. }
  split; [reflexivity|]. split; [exact Hfk|].
  destruct (C7_todays_reviews 63839890800000000 "u1" (store_of [late_log])
              eq_refl Hfk) as (resp & Hresp & _).
  exists resp. exact Hresp.
Defined.

(** C7, the claim as stated fails: at 23:59:59.5 of 2024-01-03 the one
    log of the user, whose review fell at 23:59:59.2 of that day, is
    not due by the cutoff of 23:59:59 and is returned as [next_up],
    though its next review date is not greater than now. *)
Lemma C7_counterexample_last_second :
  (get_todays_reviews 63839923199500000 "u1" (store_of [late_log])).1
    = Ok {| reviews_due := [];
            next_up := Some (Some (serialize
              {| up := late_log;
                 lp_tags := LeetcodeProblem.tags two_sum |})) |} /\
  UserProblem.next_review_date late_log < 63839923199500000.
Proof. split; vm_compute; reflexivity. Qed.

(** * Further properties *)

(** ** The scheduler *)

Section SchedulerBounds.

Lemma getitem_initial_days_inv d x :
  getitem initial_days d = Ok x -> 1 <= d <= 5 /\ x = initialOffsetDays d.
Proof.
  intros H. destruct (decide (1 <= d <= 5)) as [Hd|Hd].
  - split; [exact Hd|]. rewrite initial_days_inside in H by assumption.
    now injection H.
  - rewrite (getitem_None _ _ (initial_days_outside d Hd)) in H. discriminate.
Qed.

Lemma getitem_multiplier_inv d m :
  getitem multiplier d = Ok m -> 1 <= d <= 5.
Proof.
  intros H. destruct (decide (1 <= d <= 5)) as [Hd|Hd]; [exact Hd|].
  rewrite (getitem_None _ _ (multiplier_outside d Hd)) in H. discriminate.
Qed.

Lemma datetime_add_inv a td x :
  datetime_add a td = Ok x -> wall x = wall a + td /\ tzinfo x = tzinfo a.
Proof.
  unfold datetime_add. destruct (in_range _); [|discriminate].
  intros [= <-]. auto.
Qed.

Lemma initialOffsetDays_range d : 1 <= d <= 5 -> 1 <= initialOffsetDays d <= 8.
Proof.
  intros H. assert (d = 1 \/ d = 2 \/ d = 3 \/ d = 4 \/ d = 5) as Hd by lia.
  destruct Hd as [-> | [-> | [-> | [-> | ->]]]]; cbn; lia.
Qed.

(** X1: whenever the scheduler returns, the difficulty was one of 1..5,
    a last review date given to it was naive, and the result is a naive
    datetime a whole number of days after now: from 1 to 90 days, and
    at most 8 days for a first review. The time of day is that of
    now. *)
Theorem next_review_is_1_to_90_days_ahead (clock d : Z)
    (last : option datetime) (next_review : datetime) :
  calculate_next_review clock d last = Ok next_review ->
  1 <= d <= 5 /\
  (forall t, last = Some t -> tzinfo t = None) /\
  tzinfo next_review = None /\
  exists gap,
    wall next_review = clock + timedelta gap /\
    1 <= gap <= 90 /\ (last = None -> gap <= 8).
Proof.
  unfold calculate_next_review. destruct last as [[t tz]|].
  - unfold datetime_sub. cbn [tzinfo wall utcnow naive].
    destruct tz as [off|]; [discriminate|]. cbn.
    destruct (getitem multiplier d) as [m|e] eqn:Hm; [|discriminate]. cbn.
    destruct (int_mul_float _ m) as [x|e]; [|discriminate]. cbn.
    destruct (float_to_int x) as [n|e]; [|discriminate]. cbn.
    intros H. apply datetime_add_inv in H as [Hw Htz].
    split; [now apply getitem_multiplier_inv in Hm|].
    split; [now intros t' [= <-]|]. split; [exact Htz|].
    exists (Z.min (Z.max 1 n) 90). split; [exact Hw|].
    split; [lia | discriminate].
  - destruct (getitem initial_days d) as [x|e] eqn:Hx; [|discriminate]. cbn.
    intros H. apply datetime_add_inv in H as [Hw Htz].
    apply getitem_initial_days_inv in Hx as [Hd ->].
    pose proof (initialOffsetDays_range d Hd) as Hr.
    split; [exact Hd|]. split; [discriminate|]. split; [exact Htz|].
    exists (initialOffsetDays d). split; [exact Hw|]. split; [lia|].
    intros _. lia.
Qed.

Lemma next_review_is_1_to_90_days_ahead_witness :
  calculate_next_review 63839890800000000 4
    (Some (naive (63839890800000000 - timedelta 30)))
    = Ok (naive (63839890800000000 + timedelta 36)) /\
  1 <= 4 <= 5.
Proof.
  assert (calculate_next_review 63839890800000000 4
            (Some (naive (63839890800000000 - timedelta 30)))
          = Ok (naive (63839890800000000 + timedelta 36))) as H
    by (vm_compute; reflexivity).
  split; [exact H|].
  exact (proj1 (next_review_is_1_to_90_days_ahead _ _ _ _ H)).
Defined.

Lemma spec_tenths_mono d d' :
  1 <= d <= d' -> d' <= 5 -> 0 <= spec_tenths d <= spec_tenths d'.
Proof.
  intros H1 H2.
  assert (d = 1 \/ d = 2 \/ d = 3 \/ d = 4 \/ d = 5) as Hd by lia.
  assert (d' = 1 \/ d' = 2 \/ d' = 3 \/ d' = 4 \/ d' = 5) as Hd' by lia.
  destruct Hd as [-> | [-> | [-> | [-> | ->]]]];
    destruct Hd' as [-> | [-> | [-> | [-> | ->]]]]; cbn; lia.
Qed.

(** In exact arithmetic the gap grows with the days elapsed and with
    the difficulty. *)
Lemma spec_gap_mono d d' n n' :
  1 <= d <= d' -> d' <= 5 -> n <= n' -> spec_gap d n <= spec_gap d' n'.
Proof.
  intros Hd Hd' Hn. unfold spec_gap.
  pose proof (spec_tenths_mono d d' Hd Hd') as Ht.
  assert (Z.max 0 n * spec_tenths d / 10 <= Z.max 0 n' * spec_tenths d' / 10).
  { apply Z.div_le_mono; [lia|]. apply Z.mul_le_mono_nonneg; lia. }
  lia.
Qed.

(** The gap of the code is the exact gap of a day count at most one
    day short. *)
Lemma repeat_gap_shifted d n g :
  1 <= d <= 5 -> -366 <= n <= 3660 -> repeat_gap d n = Ok g ->
  g = spec_gap d (if decide (d = 2 /\ n = 90) then 89 else n).
Proof.
  intros Hd Hn Hg. destruct (decide (d = 2 /\ n = 90)) as [[-> ->]|Hne].
  - rewrite repeat_gap_2_90 in Hg. injection Hg as <-. reflexivity.
  - rewrite repeat_gap_spec in Hg by assumption. now injection Hg.
Qed.

Lemma repeat_gap_mono d d' n n' g g' :
  1 <= d <= d' -> d' <= 5 -> -366 <= n -> n <= n' -> n' <= 3660 ->
  repeat_gap d n = Ok g -> repeat_gap d' n' = Ok g' -> g <= g'.
Proof.
  intros Hd Hd' Hlo Hn Hhi Hg Hg'.
  apply repeat_gap_shifted in Hg; [|lia|lia].
  apply repeat_gap_shifted in Hg'; [|lia|lia]. subst g g'.
  destruct (decide (d' = 2 /\ n' = 90)) as [[-> ->]|Hne'];
    destruct (decide (d = 2 /\ n = 90)) as [[-> ->]|Hne].
  - lia.
  - destruct (decide (n = 90)) as [->|Hn90].
    + assert (d = 1) as -> by lia. vm_compute. discriminate.
    + apply spec_gap_mono; lia.
  - apply spec_gap_mono; lia.
  - apply spec_gap_mono; lia.
Qed.

Lemma calculate_next_review_repeat_inv clock d t nr :
  calculate_next_review clock d (Some (naive t)) = Ok nr ->
  exists g, repeat_gap d (days (clock - t)) = Ok g /\
    wall nr = clock + timedelta g.
Proof.
  rewrite calculate_next_review_repeat.
  destruct (repeat_gap d _) as [g|e]; [|discriminate]. cbn.
  intros H. apply datetime_add_inv in H as [Hw _]. eauto.
Qed.

Lemma days_mono a b : a <= b -> days a <= days b.
Proof.
  intros H. unfold days. apply Z.div_le_mono; [|exact H].
  unfold US_PER_DAY, US_PER_SECOND. lia.
Qed.

Lemma timedelta_mono a b : a <= b -> timedelta a <= timedelta b.
Proof. unfold timedelta, US_PER_DAY, US_PER_SECOND. lia. Qed.

(** X2: in the repeat case, for a last review between a year ahead of
    now and ten years back, waiting longer never brings the next review
    closer, and neither does a higher difficulty: the next review date
    grows with the time elapsed and with the difficulty. *)
Theorem next_review_grows_with_delay_and_difficulty
    (clock d d' t t' : Z) (nr nr' : datetime) :
  1 <= d <= d' -> d' <= 5 -> t' <= t ->
  -366 <= days (clock - t) -> days (clock - t') <= 3660 ->
  calculate_next_review clock d (Some (naive t)) = Ok nr ->
  calculate_next_review clock d' (Some (naive t')) = Ok nr' ->
  wall nr <= wall nr'.
Proof.
  intros Hd Hd' Ht Hlo Hhi H H'.
  apply calculate_next_review_repeat_inv in H as (g & Hg & ->).
  apply calculate_next_review_repeat_inv in H' as (g' & Hg' & ->).
  assert (days (clock - t) <= days (clock - t')) as Hn
    by (apply days_mono; lia).
  pose proof (repeat_gap_mono d d' _ _ g g' Hd Hd' Hlo Hn Hhi Hg Hg').
  pose proof (timedelta_mono g g'). lia.
Qed.

Lemma next_review_grows_witness :
  1 <= 2 <= 4 /\ 4 <= 5 /\
  wall (naive (63839890800000000 + timedelta 62))
    <= wall (naive (63839890800000000 + timedelta 90)).
Proof.
  assert (1 <= 2 <= 4) as H1 by lia. assert (4 <= 5) as H2 by lia.
  split; [exact H1|]. split; [exact H2|].
  apply (next_review_grows_with_delay_and_difficulty 63839890800000000 2 4
           (63839890800000000 - timedelta 90)
           (63839890800000000 - timedelta 100) _ _ H1 H2).
  - vm_compute. discriminate.
  - vm_compute. discriminate.
  - vm_compute. discriminate.
  - vm_compute. reflexivity.
  - vm_compute. reflexivity.
Defined.

(** X3: a first review comes the sooner the higher the difficulty,
    while in the repeat case (X2) a higher difficulty never brings the
    next review sooner: the two tables of the scheduler order the
    difficulties in opposite ways. *)
Theorem first_review_sooner_when_harder (clock d d' : Z)
    (nr nr' : datetime) :
  1 <= d -> d < d' -> d' <= 5 ->
  calculate_next_review clock d None = Ok nr ->
  calculate_next_review clock d' None = Ok nr' ->
  wall nr' < wall nr /\
  (forall t g g', -366 <= days (clock - t) <= 3660 ->
     repeat_gap d (days (clock - t)) = Ok g ->
     repeat_gap d' (days (clock - t)) = Ok g' -> g <= g').
Proof.
  intros H1 H2 H3 H H'. split.
  - unfold calculate_next_review in H, H'.
    destruct (getitem initial_days d) as [x|e] eqn:Hx; [|discriminate].
    destruct (getitem initial_days d') as [x'|e] eqn:Hx'; [|discriminate].
    cbn in H, H'. apply datetime_add_inv in H as [-> _].
    apply datetime_add_inv in H' as [-> _].
    apply getitem_initial_days_inv in Hx as [_ ->].
    apply getitem_initial_days_inv in Hx' as [_ ->].
    assert (initialOffsetDays d' < initialOffsetDays d).
    { assert (d = 1 \/ d = 2 \/ d = 3 \/ d = 4) as Hd by lia.
      assert (d' = 2 \/ d' = 3 \/ d' = 4 \/ d' = 5) as Hd' by lia.
      destruct Hd as [-> | [-> | [-> | ->]]];
        destruct Hd' as [-> | [-> | [-> | ->]]]; cbn; lia. }
    cbn. unfold timedelta, US_PER_DAY, US_PER_SECOND. lia.
  - intros t g g' Hn Hg Hg'.
    apply (repeat_gap_mono d d' (days (clock - t)) (days (clock - t)) g g');
      auto; lia.
Qed.

Lemma first_review_sooner_witness :
  1 <= 1 /\ 1 < 5 /\ 5 <= 5 /\
  wall (naive (63839890800000000 + timedelta 1))
    < wall (naive (63839890800000000 + timedelta 8)).
Proof.
  assert (1 <= 1) as H1 by lia. assert (1 < 5) as H2 by lia.
  assert (5 <= 5) as H3 by lia.
  split; [exact H1|]. split; [exact H2|]. split; [exact H3|].
  apply (proj1 (first_review_sooner_when_harder 63839890800000000 1 5 _ _
                  H1 H2 H3 ltac:(vm_compute; reflexivity)
                  ltac:(vm_compute; reflexivity))).
Defined.

(** X4: a problem logged again within two days of its last solve, or
    with a last solve up to a year ahead of the clock, is scheduled
    exactly one day ahead, whatever its difficulty. *)
Theorem relog_within_two_days_is_due_tomorrow (clock d t : Z) :
  clock_ok clock -> 1 <= d <= 5 -> -366 <= days (clock - t) <= 1 ->
  calculate_next_review clock d (Some (naive t))
    = Ok (naive (clock + timedelta 1)).
Proof.
  intros Hc Hd Hn. rewrite calculate_next_review_spec; try lia; [|assumption].
  do 3 f_equal. unfold spec_gap.
  assert (d = 1 \/ d = 2 \/ d = 3 \/ d = 4 \/ d = 5) as Hd' by lia.
  assert (Z.max 0 (days (clock - t)) = 0 \/ Z.max 0 (days (clock - t)) = 1)
    as [-> | ->] by lia;
    destruct Hd' as [-> | [-> | [-> | [-> | ->]]]]; reflexivity.
Qed.

Lemma relog_within_two_days_witness :
  clock_ok 63839890800000000 /\ 1 <= 5 <= 5 /\
  calculate_next_review 63839890800000000 5
    (Some (naive (63839890800000000 - timedelta 1)))
    = Ok (naive (63839890800000000 + timedelta 1)).
Proof.
  assert (clock_ok 63839890800000000) as H
    by (vm_compute; split; [discriminate | reflexivity]).
  assert (1 <= 5 <= 5) as Hd by lia.
  split; [exact H|]. split; [exact Hd|].
  apply (relog_within_two_days_is_due_tomorrow _ _ _ H Hd).
  vm_compute. split; discriminate.
Defined.

End SchedulerBounds.

(** ** The streak calculator *)

Section StreakMeaning.

Variable fromisoformat : string -> result datetime.

(** What the loop has seen when it returns. *)
Lemma streak_loop_inv (logged : gset Z) :
  forall fuel today k r,
    streak_loop fuel logged today k = Ok r ->
    k <= r /\
    (forall i, 0 <= i < r - k -> today - i ∈ logged) /\
    (today - (r - k) ∉ logged) /\
    (k < r -> 1 <= today - (r - k)).
Proof.
  induction fuel as [|fuel IH]; intros today k r; [discriminate|].
  cbn [streak_loop]. destruct (decide (today ∈ logged)) as [Hin|Hout].
  - destruct (date_sub_days today 1) as [o|e] eqn:Hsub; [|discriminate].
    apply date_sub_days_inv in Hsub as [-> Ho]. cbn. intros H.
    apply IH in H as (Hk & Hrun & Hstop & Hmin).
    split; [lia|]. split; [|split].
    + intros i Hi. destruct (decide (i = 0)) as [->|Hi0].
      * now replace (today - 0) with today by lia.
      * replace (today - i) with (today - 1 - (i - 1)) by lia.
        apply Hrun. lia.
    + now replace (today - (r - k)) with (today - 1 - (r - (k + 1))) by lia.
    + intros _. destruct (decide (k + 1 = r)) as [<-|Hne]; [lia|].
      specialize (Hmin ltac:(lia)). lia.
  - intros [= <-]. split; [lia|]. split; [intros i Hi; lia|].
    split; [|lia]. now replace (today - (k - k)) with today by lia.
Qed.

(** What the loop has seen when it fails. *)
Lemma streak_loop_raise_inv (logged : gset Z) :
  forall fuel today k e, (Z.to_nat today < fuel)%nat ->
    today <= MAXORDINAL ->
    streak_loop fuel logged today k = Raise e ->
    e = OverflowError "date value out of range" /\
    forall d, 1 <= d <= today -> d ∈ logged.
Proof.
  induction fuel as [|fuel IH]; intros today k e Hfuel Hmax; [lia|].
  cbn [streak_loop]. destruct (decide (today ∈ logged)) as [Hin|Hout];
    [|discriminate].
  destruct (date_sub_days today 1) as [o|e'] eqn:Hsub.
  - apply date_sub_days_inv in Hsub as [-> Ho]. cbn. intros H.
    apply IH in H as [-> Hall]; [|lia|lia]. split; [reflexivity|].
    intros d Hd. destruct (decide (d = today)) as [->|Hne]; [assumption|].
    apply Hall. lia.
  - unfold date_sub_days in Hsub. cbn zeta in Hsub.
    destruct (1 <=? today - 1) eqn:H1.
    + replace (today - 1 <=? MAXORDINAL) with true in Hsub
        by (symmetry; apply Z.leb_le; lia). discriminate.
    + apply Z.leb_gt in H1. cbn in Hsub. injection Hsub as <-. cbn.
      intros [= <-]. split; [reflexivity|].
      intros d Hd. now replace d with today by lia.
Qed.

(** X5: what a result of the streak loop means. A returned streak [n]
    says that each of the [n] days ending today is logged and that the
    day before them is not (a day of the calendar, when [n] is not 0).
    The loop fails only by stepping before 0001-01-01, with an
    [OverflowError], and then every day from 0001-01-01 to today is
    logged. *)
Theorem current_streak_meaning (logged : gset Z) (today : Z) :
  today <= MAXORDINAL ->
  (forall n, current_streak logged today = Ok n ->
     0 <= n /\ (forall i, 0 <= i < n -> today - i ∈ logged) /\
     (today - n ∉ logged) /\ (0 < n -> 1 <= today - n)) /\
  (forall e, current_streak logged today = Raise e ->
     e = OverflowError "date value out of range" /\
     forall d, 1 <= d <= today -> d ∈ logged).
Proof.
  intros Hmax. split.
  - intros n H. apply streak_loop_inv in H as (H0 & Hrun & Hstop & Hmin).
    replace (n - 0) with n in * by lia. auto.
  - intros e H. apply streak_loop_raise_inv in H; [exact H | lia | exact Hmax].
Qed.

Lemma size_run (logged : gset Z) today (n : nat) :
  (forall i, 0 <= i < Z.of_nat n -> today - i ∈ logged) ->
  (n <= size logged)%nat.
Proof.
  revert logged today. induction n as [|n IH]; intros logged today Hrun;
    [lia|].
  assert (today ∈ logged) as Hin
    by (replace today with (today - 0) by lia; apply Hrun; lia).
  assert ({[ today ]} ⊆ logged) as Hsub
    by (intros x Hx; apply elem_of_singleton in Hx; now subst x).
  pose proof (subseteq_size _ _ Hsub) as H1.
  pose proof (size_difference _ _ Hsub) as H2.
  rewrite size_singleton in H1, H2.
  assert (n <= size (logged ∖ {[ today ]}))%nat as Hn; [|lia].
  apply (IH _ (today - 1)). intros i Hi.
  apply elem_of_difference. split.
  - replace (today - 1 - i) with (today - (i + 1)) by lia.
    apply Hrun. lia.
  - rewrite elem_of_singleton. lia.
Qed.

Lemma size_list_to_set_le (l : list Z) :
  (size (list_to_set l : gset Z) <= length l)%nat.
Proof.
  induction l as [|x l IH]; [now rewrite list_to_set_nil, size_empty|].
  rewrite list_to_set_cons, size_union_alt, size_singleton. cbn.
  apply le_n_S. etransitivity; [|exact IH].
  apply subseteq_size. intros y Hy. now apply elem_of_difference in Hy as [Hy _].
Qed.

Lemma mapM_length l dts :
  mapM fromisoformat l = Ok dts -> length dts = length l.
Proof.
  intros H. apply mapM_parsed in H. symmetry.
  eapply Forall2_length, H.
Qed.

Lemma calculate_current_streak_inv clock l n :
  calculate_current_streak fromisoformat clock l = Ok n ->
  exists dts, mapM fromisoformat l = Ok dts /\
    current_streak (list_to_set (date <$> dts)) (date (utcnow clock)) = Ok n.
Proof.
  intros H. destruct (mapM fromisoformat l) as [dts|e] eqn:Hm.
  - exists dts. split; [reflexivity|].
    now rewrite (calculate_current_streak_set _ clock l dts Hm) in H.
  - destruct l as [|s l]; [discriminate|].
    unfold calculate_current_streak, logged_days_of in H.
    rewrite Hm in H. discriminate.
Qed.

(** X6: a streak is never longer than the list of timestamps it was
    computed from, and never negative. *)
Theorem streak_at_most_number_of_dates (clock : Z) (dates : list string)
    (n : Z) :
  calculate_current_streak fromisoformat clock dates = Ok n ->
  0 <= n <= Z.of_nat (length dates).
Proof.
  intros H. apply calculate_current_streak_inv in H as (dts & Hm & H).
  apply streak_loop_inv in H as (H0 & Hrun & _).
  replace (n - 0) with n in Hrun by lia. split; [lia|].
  assert (Z.to_nat n <= size (list_to_set (date <$> dts) : gset Z))%nat as Hs.
  { apply (size_run _ (date (utcnow clock))). intros i Hi. apply Hrun. lia. }
  pose proof (size_list_to_set_le (date <$> dts)) as Hl.
  rewrite length_fmap, (mapM_length _ _ Hm) in Hl. lia.
Qed.

(** X7: the streak is decided by the days from today back to the
    first day that is not logged: a set of days that agrees with the
    logged one on these days (one with more or fewer days in the
    future, or before the gap) has the same streak. *)
Theorem streak_ignores_days_beyond_the_gap (logged logged' : gset Z)
    (today n : Z) :
  today <= MAXORDINAL ->
  current_streak logged today = Ok n ->
  (forall x, today - n <= x <= today -> x ∈ logged <-> x ∈ logged') ->
  current_streak logged' today = Ok n.
Proof.
  intros Hmax H Hsame.
  apply streak_loop_inv in H as (H0 & Hrun & Hstop & Hmin).
  replace (n - 0) with n in * by lia.
  destruct (decide (n = 0)) as [->|Hn].
  - apply current_streak_absent. rewrite <- Hsame by lia.
    now replace (today - 0) with today in Hstop by lia.
  - apply current_streak_counts; try lia.
    + intros i Hi. apply Hsame; [lia|]. apply Hrun. lia.
    + rewrite <- Hsame by lia. assumption.
Qed.

(** X8: the timestamps are all read before the days are walked: a
    list with a timestamp that does not parse gives the error of the
    first such timestamp, whatever the other timestamps are. *)
Theorem streak_fails_on_first_unreadable_date (clock : Z)
    (before after : list string) (s : string) (e : exn) :
  Forall (fun s => is_ok (fromisoformat s) = true) before ->
  fromisoformat s = Raise e ->
  calculate_current_streak fromisoformat clock (before ++ s :: after)
    = Raise e.
Proof.
  intros Hb Hs.
  assert (mapM fromisoformat (before ++ s :: after) = Raise e) as Hm.
  { induction Hb as [|s' l Hs' _ IH].
    - cbn [app]. rewrite mapM_cons, Hs. reflexivity.
    - cbn [app]. rewrite mapM_cons, IH.
      destruct (fromisoformat s'); [reflexivity | discriminate]. }
  destruct before as [|s' l]; cbn [app] in *;
    unfold calculate_current_streak, logged_days_of; now rewrite Hm.
Qed.

(** X9: with today logged, the streak is one more than the streak as
    of yesterday, and fails when that one fails. *)
Theorem streak_is_one_more_than_yesterdays (logged : gset Z) (today : Z) :
  2 <= today <= MAXORDINAL -> today ∈ logged ->
  current_streak logged today =
  (n ← current_streak logged (today - 1); Ok (n + 1)).
Proof.
  intros Ht Hin.
  destruct (current_streak logged (today - 1)) as [m|e] eqn:Hy.
  - apply streak_loop_inv in Hy as (H0 & Hrun & Hstop & Hmin).
    replace (m - 0) with m in * by lia. cbn.
    apply current_streak_counts; try lia.
    + intros i Hi. destruct (decide (i = 0)) as [->|Hi0].
      * now replace (today - 0) with today by lia.
      * replace (today - i) with (today - 1 - (i - 1)) by lia.
        apply Hrun. lia.
    + now replace (today - (m + 1)) with (today - 1 - m) by lia.
  - apply streak_loop_raise_inv in Hy as [-> Hall]; [|lia|lia]. cbn.
    apply current_streak_overflow; [lia|].
    intros i Hi. destruct (decide (i = 0)) as [->|Hi0].
    + now replace (today - 0) with today by lia.
    + apply Hall. lia.
Qed.

End StreakMeaning.

Lemma current_streak_meaning_witness :
  738888 <= MAXORDINAL /\
  current_streak {[ 738888; 738887; 738885 ]} 738888 = Ok 2 /\
  738888 - 2 ∉ ({[ 738888; 738887; 738885 ]} : gset Z).
Proof.
  assert (738888 <= MAXORDINAL) as H by (unfold MAXORDINAL; lia).
  assert (current_streak {[ 738888; 738887; 738885 ]} 738888 = Ok 2) as Hs
    by (vm_compute; reflexivity).
  split; [exact H|]. split; [exact Hs|].
  exact (proj1 (proj2 (proj2
    (proj1 (current_streak_meaning _ _ H) 2 Hs)))).
Defined.

Lemma streak_at_most_number_of_dates_witness :
  0 <= 1 <= Z.of_nat (length ["2024-01-03T10:00:00"; "2024-01-01T10:00:00"]).
Proof.
  apply (streak_at_most_number_of_dates Iso.fromisoformat 63839890800000000).
  vm_compute. reflexivity.
Defined.

Lemma streak_ignores_days_beyond_the_gap_witness :
  current_streak {[ 738888; 738887; 738885; 738900 ]} 738888 = Ok 2.
Proof.
  apply (streak_ignores_days_beyond_the_gap
           {[ 738888; 738887 ]} _ 738888 2).
  - unfold MAXORDINAL; lia.
  - vm_compute. reflexivity.
  - intros x Hx. rewrite !elem_of_union, !elem_of_singleton. lia.
Defined.

Lemma streak_fails_on_first_unreadable_date_witness :
  calculate_current_streak Iso.fromisoformat 63839890800000000
    (["2024-01-03T10:00:00"] ++ "yesterday" :: ["2024-01-02"])
  = Raise (ValueError "Invalid isoformat string: 'yesterday'").
Proof.
  apply streak_fails_on_first_unreadable_date.
  - repeat constructor.
  - vm_compute. reflexivity.
Defined.

Lemma streak_is_one_more_than_yesterdays_witness :
  current_streak {[ 738888; 738887; 738885 ]} 738888 =
  (n ← current_streak {[ 738888; 738887; 738885 ]} (738888 - 1); Ok (n + 1)).
Proof.
  apply streak_is_one_more_than_yesterdays.
  - unfold MAXORDINAL; lia.
  - rewrite !elem_of_union, !elem_of_singleton. lia.
Defined.

(** ** The transaction scope, for any body *)

(** X10: what [get_db_cursor] does with any body. It returns only
    when the body returned and the commit went through: the database is
    then the one the body left, and the connection is closed after the
    commit. In every other case the caller gets an HTTP 500 "Database
    error" that wraps the cause (an exception of the body, also one
    that is itself an HTTP error, or the failure of the store), the
    database is the one from before the call, and the connection is
    rolled back and closed, unless it could not be opened. *)
Theorem get_db_cursor_commits_or_rolls_back {A} (body : txn A) (w : world) :
  match (get_db_cursor body w).1 with
  | Ok a =>
      exists w2,
        body {| db := db w; trace := trace w ++ [Connect; Cursor];
                fuse := burn (burn (fuse w)) |} = (Ok a, w2) /\
        db (get_db_cursor body w).2 = db w2 /\
        trace (get_db_cursor body w).2 = trace w2 ++ [Commit; Close]
  | Raise e =>
      db (get_db_cursor body w).2 = db w /\
      (exists cause, e = HTTPException 500 "Database error: " (Some cause)) /\
      (trace (get_db_cursor body w).2 = trace w ++ [Connect] \/
       exists evs, trace (get_db_cursor body w).2 = evs ++ [Rollback; Close])
  end.
Proof.
  rewrite get_db_cursor_run.
  destruct (fails (fuse w)); [cbn; eauto 6|].
  destruct (fails (burn (fuse w))).
  { cbn. split; [reflexivity|]. split; [eauto|]. right.
    exists (trace w ++ [Connect; Cursor]). now rewrite <- app_assoc. }
  destruct (body _) as [[a|e] w2].
  - destruct (fails (fuse w2)); cbn.
    + split; [reflexivity|]. split; [eauto|]. right.
      exists (trace w2 ++ [Commit]). now rewrite <- app_assoc.
    + eauto.
  - cbn. eauto 6.
Qed.

(** ** Logging a problem: what else it does *)

Section LogProblemFrame.

Variables (clock clock_solved : Z) (data : ProblemLog.t) (user_id : string).

Lemma upsert_other new rows r :
  log_key r <> log_key new -> r ∈ upsert new rows <-> r ∈ rows.
Proof.
  intros Hne. induction rows as [|a rows IH]; cbn [upsert].
  - rewrite list_elem_of_singleton. split; [intros ->; now destruct Hne|].
    inversion 1.
  - destruct (is_log_of _ _ a) eqn:Ha.
    + apply is_log_of_key in Ha. rewrite !elem_of_cons. split.
      * intros [-> | Hr]; [|now right].
        exfalso. apply Hne. now rewrite excluded_update_key.
      * intros [-> | Hr]; [now destruct Hne | now right].
    + rewrite !elem_of_cons, IH. reflexivity.
Qed.

Lemma upsert_length new rows :
  (length rows <= length (upsert new rows) <= S (length rows))%nat.
Proof.
  induction rows as [|a rows IH]; cbn [upsert]; [cbn; lia|].
  destruct (is_log_of _ _ a); cbn; lia.
Qed.

(** X11: a call of [log_problem], whatever its outcome and whatever
    the store does, leaves the catalog as it is and touches no log
    other than the one of its own (user, slug) pair: every other row is
    in the table afterwards exactly when it was before, and the table
    has the same number of rows or one more. *)
Theorem log_problem_touches_one_log (w : world) (r : UserProblem.row) :
  log_key r <> (user_id, ProblemLog.slug data) ->
  let after := db (log_problem clock clock_solved data user_id w).2 in
  leetcode_problem after = leetcode_problem (db w) /\
  (r ∈ user_problem after <-> r ∈ user_problem (db w)) /\
  (length (user_problem (db w)) <= length (user_problem after)
     <= S (length (user_problem (db w))))%nat.
Proof.
  intros Hkey after. subst after.
  destruct (log_problem_db clock clock_solved data user_id w)
    as [-> | (nr & _ & ->)].
  - split; [reflexivity|]. split; [reflexivity | lia].
  - cbn [log_upsert leetcode_problem user_problem].
    split; [reflexivity|]. split; [|apply upsert_length].
    now apply upsert_other.
Qed.

Lemma upsert_logs_existing new rows old rest :
  filter (fun r => is_log_of (UserProblem.user_id new)
                     (UserProblem.slug new) r = true) rows = old :: rest ->
  exists rest',
    filter (fun r => is_log_of (UserProblem.user_id new)
                       (UserProblem.slug new) r = true) (upsert new rows)
      = excluded_update old new :: rest'.
Proof.
  induction rows as [|a rows IH]; cbn [upsert]; [discriminate|].
  destruct (is_log_of _ _ a) eqn:Ha.
  - rewrite filter_cons_True by assumption. intros [= -> <-].
    rewrite filter_cons_True
      by (apply is_log_of_key; rewrite excluded_update_key;
          now apply is_log_of_key).
    eauto.
  - rewrite !filter_cons_False by (rewrite Ha; discriminate). exact IH.
Qed.

Lemma upsert_logs_new new rows :
  filter (fun r => is_log_of (UserProblem.user_id new)
                     (UserProblem.slug new) r = true) rows = [] ->
  filter (fun r => is_log_of (UserProblem.user_id new)
                     (UserProblem.slug new) r = true) (upsert new rows)
    = [new].
Proof.
  induction rows as [|a rows IH]; cbn [upsert].
  - intros _. rewrite filter_cons_True by now apply is_log_of_key.
    reflexivity.
  - destruct (is_log_of _ _ a) eqn:Ha.
    + rewrite filter_cons_True by assumption. discriminate.
    + rewrite !filter_cons_False by (rewrite Ha; discriminate). exact IH.
Qed.

(** X12: what a log that returns leaves for its pair, beyond the
    columns it sets. The title of the row is the title of the request
    only when the pair had no log; a log that was there keeps its
    title, whatever title the request carries, while the message of the
    response names the title of the request. The date sent as
    [next_review] is the date of the stored next review date. *)
Theorem relog_keeps_the_first_title (w w' : world) (resp : log_response) :
  unique_keys (db w) ->
  log_problem clock clock_solved data user_id w = (Ok resp, w') ->
  exists row,
    logs_of (db w') user_id (ProblemLog.slug data) = [row] /\
    UserProblem.title row =
      match logs_of (db w) user_id (ProblemLog.slug data) with
      | old :: _ => UserProblem.title old
      | [] => ProblemLog.title data
      end /\
    message resp = (ProblemLog.title data ++ " logged!")%string /\
    next_review resp = date (of_timestamp (UserProblem.next_review_date row)).
Proof.
  intros Hu H.
  apply log_problem_ok_inv in H as (nr & _ & Hnr & -> & ->).
  destruct (log_upsert_one_log user_id clock_solved data (db w) nr Hu)
    as (row & Hrow & _ & _ & Hn & _).
  exists row. split; [exact Hrow|]. split; [|split; [reflexivity|]].
  - unfold logs_of, log_upsert in *. cbn [user_problem] in Hrow.
    destruct (filter _ (user_problem (db w))) as [|old rest] eqn:Hold.
    + pose proof (upsert_logs_new
        (logged_row clock_solved data user_id (db w) nr) _ Hold) as Hnew.
      cbn [logged_row new_log UserProblem.user_id UserProblem.slug] in Hnew.
      rewrite Hrow in Hnew. now injection Hnew as ->.
    + destruct (upsert_logs_existing
        (logged_row clock_solved data user_id (db w) nr) _ _ _ Hold)
        as [rest' Hex].
      cbn [logged_row new_log UserProblem.user_id UserProblem.slug] in Hex.
      rewrite Hrow in Hex. now injection Hex as -> _.
  - cbn [next_review]. rewrite Hn.
    rewrite (calculate_next_review_naive _ _ _ _ Hnr). reflexivity.
Qed.

End LogProblemFrame.

Lemma relog_keeps_the_first_title_witness :
  exists row,
    logs_of (db (log_problem 63840754800000000 63840754800000000
                   {| ProblemLog.slug := "two-sum";
                      ProblemLog.title := "2sum";
                      ProblemLog.difficulty := 3 |} "u1"
                   (store_of [late_log])).2) "u1" "two-sum" = [row] /\
    UserProblem.title row = "Two Sum".
Proof.
  assert (unique_keys (db (store_of [late_log]))) as Hu
    by (unfold unique_keys; cbn; repeat constructor; inversion 1).
  destruct (log_problem 63840754800000000 63840754800000000
              {| ProblemLog.slug := "two-sum"; ProblemLog.title := "2sum";
                 ProblemLog.difficulty := 3 |} "u1" (store_of [late_log]))
    as [[resp|e] w'] eqn:H; [|vm_compute in H; discriminate].
  destruct (relog_keeps_the_first_title _ _ _ _ _ _ _ Hu H)
    as (row & Hrow & Ht & _).
  exists row. split; [exact Hrow | exact Ht].
Defined.

Lemma log_problem_touches_one_log_witness :
  late_log ∈ user_problem
    (db (log_problem 63840754800000000 63840754800000000 (log_request 3) "u2"
           (store_of [late_log])).2).
Proof.
  apply (log_problem_touches_one_log 63840754800000000 63840754800000000
           (log_request 3) "u2" (store_of [late_log]) late_log).
  - vm_compute. discriminate.
  - left.
Defined.

(** ** The store over a history of calls *)

Section Histories.

Lemma log_problem_raise_db clock clock_solved data user_id w e w' :
  log_problem clock clock_solved data user_id w = (Raise e, w') ->
  db w' = db w.
Proof.
  unfold log_problem. rewrite try_except_run.
  destruct (get_db_cursor _ w) as [[a|e'] w''] eqn:Hc; [discriminate|].
  intros [= _ <-]. now apply get_db_cursor_raise in Hc as [Hdb _].
Qed.

Lemma get_todays_reviews_inv clock user_id w resp w' :
  get_todays_reviews clock user_id w = (Ok resp, w') ->
  db w' = db w /\
  match select_due (db w) user_id (today_end_of clock) with
  | j :: js =>
      resp = {| reviews_due := serialize <$> j :: js; next_up := None |}
  | [] =>
      resp = {| reviews_due := [];
                next_up := Some (serialize <$> select_next_up (db w) user_id) |}
  end.
Proof.
  unfold get_todays_reviews. cbv zeta.
  rewrite try_except_run, get_db_cursor_run, get_todays_reviews_body_run.
  cbv zeta. cbn [db trace fuse]. fold (today_end_of clock).
  destruct (fuse w) as [[|[|[|[|[|n]]]]]|]; cbn [fails burn];
    try discriminate.
  all: destruct (select_due _ _ _) as [|j js]; cbn [fails burn fuse];
    try discriminate.
  all: intros [= <- <-]; cbn; auto.
Qed.

Lemma get_todays_reviews_db clock user_id w :
  db (get_todays_reviews clock user_id w).2 = db w.
Proof.
  destruct (get_todays_reviews clock user_id w) as [[resp|e] w'] eqn:H.
  - now apply get_todays_reviews_inv in H as [Hdb _].
  - unfold get_todays_reviews in H. cbv zeta in H.
    rewrite try_except_run in H.
    destruct (get_db_cursor _ w) as [[a|e'] w''] eqn:Hc; [discriminate|].
    injection H as _ <-. now apply get_db_cursor_raise in Hc as [Hdb _].
Qed.

Lemma upsert_elem_inv new rows r :
  r ∈ upsert new rows ->
  r = new \/ r ∈ rows \/
  exists old, old ∈ rows /\ log_key old = log_key new /\
    r = excluded_update old new.
Proof.
  induction rows as [|a rows IH]; cbn [upsert].
  - intros Hr. apply list_elem_of_singleton in Hr. now left.
  - destruct (is_log_of _ _ a) eqn:Ha.
    + apply is_log_of_key in Ha. intros Hr. right.
      apply elem_of_cons in Hr as [-> | Hr].
      * right. exists a. split; [left | auto].
      * left. now right.
    + intros Hr. apply elem_of_cons in Hr as [-> | Hr].
      * right. left. left.
      * destruct (IH Hr) as [-> | [Hin | (old & Hold & Hk & ->)]].
        -- now left.
        -- right. left. now right.
        -- right. right. exists old. split; [now right | auto].
Qed.

Lemma calculate_next_review_difficulty clock d last nr :
  calculate_next_review clock d last = Ok nr -> 1 <= d <= 5.
Proof.
  intros H. destruct (decide (1 <= d <= 5)) as [Hd|Hd]; [exact Hd|].
  unfold calculate_next_review in H.
  rewrite (getitem_None initial_days d (initial_days_outside d Hd)) in H.
  rewrite (getitem_None multiplier d (multiplier_outside d Hd)) in H.
  destruct last as [last|]; [|discriminate].
  destruct (datetime_sub _ _); discriminate.
Qed.

Lemma normalize_tags_normalized v :
  is_normalized (normalize_tags (fetched_tags v)) = true.
Proof. destruct v as [[]|]; reflexivity. Qed.

(** One call of [log_problem] keeps the invariants of the store. *)
Lemma log_problem_keeps_store (catalog : gmap string LeetcodeProblem.row)
    clock clock_solved data user_id (w : world) :
  kept_store catalog (db w) ->
  kept_store catalog (db (log_problem clock clock_solved data user_id w).2).
Proof.
  intros (Hcat & Hu & Hfk & Hrows).
  destruct (log_problem clock clock_solved data user_id w)
    as [[resp|e] w'] eqn:Hlog; cbn [snd].
  - apply log_problem_ok_inv in Hlog as (nr & Hp & Hnr & -> & _).
    split; [exact Hcat|].
    split; [now apply log_upsert_unique|].
    assert (well_kept catalog
              (logged_row clock_solved data user_id (db w) nr)) as Hnew.
    { split; [now apply calculate_next_review_difficulty in Hnr|].
      cbn. unfold select_tags. now rewrite Hcat. }
    assert (forall r,
      r ∈ upsert (logged_row clock_solved data user_id (db w) nr)
            (user_problem (db w)) ->
      is_Some (leetcode_problem (db w) !! UserProblem.slug r) /\
      well_kept catalog r) as Hall.
    { intros r Hr.
      apply upsert_elem_inv in Hr as [-> | [Hr | (old & Hold & Hk & ->)]].
      - split; [exact Hp | exact Hnew].
      - split; [now apply Hfk | now apply Hrows].
      - unfold log_key in Hk. injection Hk as _ Hs.
        split; [cbn; now apply Hfk|]. destruct Hnew as [Hd Ht].
        split; [exact Hd|].
        cbn [excluded_update UserProblem.tags UserProblem.slug].
        rewrite Hs. exact Ht. }
    split; [intros r Hr; now apply Hall|].
    intros r Hr. destruct (Hall r Hr) as [_ Hk]. split; [exact Hk|].
    destruct Hk as [_ ->]. apply normalize_tags_normalized.
  - apply log_problem_raise_db in Hlog. rewrite Hlog.
    repeat split; auto; now apply Hrows.
Qed.

Lemma kept_store_empty (catalog : gmap string LeetcodeProblem.row) :
  kept_store catalog {| leetcode_problem := catalog; user_problem := [] |}.
Proof.
  split; [reflexivity|]. split; [constructor|].
  split; [intros r Hr; inversion Hr|]. intros r Hr. inversion Hr.
Qed.

Lemma reachable_kept_store (catalog : gmap string LeetcodeProblem.row)
    (w : world) :
  reachable catalog w -> kept_store catalog (db w).
Proof.
  induction 1 as [tr f | w clock clock_solved data user_id Hw IH
                  | w clock user_id Hw IH | w f Hw IH].
  - apply kept_store_empty.
  - now apply log_problem_keeps_store.
  - now rewrite get_todays_reviews_db.
  - exact IH.
Qed.

(** X13: in every state the handlers can bring the store to, from a
    table without logs, through any sequence of [log_problem] and
    [get_todays_reviews] calls with any arguments and any outcomes,
    and any faults of the store in between: the catalog is the one the
    history started with, a (user, slug) pair has at most one log, the
    slug of every log is in the catalog, the difficulty of every log is
    one of 1..5 and its tags are the normalised tags of its catalog
    problem, hence neither a mapping nor null. *)
Theorem store_invariants_of_every_history
    (catalog : gmap string LeetcodeProblem.row) (w : world) :
  reachable catalog w ->
  leetcode_problem (db w) = catalog /\
  unique_keys (db w) /\ foreign_keys (db w) /\
  forall r, r ∈ user_problem (db w) ->
    well_kept catalog r /\ is_normalized (UserProblem.tags r) = true.
Proof.
  intros Hreach. change (kept_store catalog (db w)).
  induction Hreach as [tr f | w clock clock_solved data user_id Hw IH
                       | w clock user_id Hw IH | w f Hw IH].
  - apply kept_store_empty.
  - apply log_problem_keeps_store, IH.
  - rewrite get_todays_reviews_db. exact IH.
  - exact IH.
Qed.

End Histories.

Lemma store_invariants_of_every_history_witness :
  unique_keys
    (db (log_problem 63839890800000000 63839890800000000 (log_request 3) "u1"
           (store_of [])).2).
Proof.
  apply (store_invariants_of_every_history {[ "two-sum" := two_sum ]}).
  apply reach_log. apply reach_empty.
Defined.

(** ** Today's reviews: what is returned, whatever the store does *)

Section ReviewsAnyFault.

Variables (clock : Z) (user_id : string).

(** X14: a review query never changes the database, whether it
    succeeds or fails and whatever the store does. When it returns,
    every review it returns, due or next up, is a log of the calling
    user; the due ones have their next review date at or before
    23:59:59 of the clock's day; and [next_up] is present exactly when
    no review is due. *)
Theorem reviews_are_the_callers_own (w : world) :
  db (get_todays_reviews clock user_id w).2 = db w /\
  forall resp, (get_todays_reviews clock user_id w).1 = Ok resp ->
    (forall x, x ∈ reviews_due resp ->
       r_user_id x = user_id /\
       wall (r_next_review_date x) <= today_end_of clock) /\
    (forall x, next_up resp = Some (Some x) -> r_user_id x = user_id) /\
    (next_up resp = None <-> reviews_due resp <> []).
Proof.
  split; [apply get_todays_reviews_db|]. intros resp Hresp.
  destruct (get_todays_reviews clock user_id w) as [r w'] eqn:H.
  cbn [fst] in Hresp. subst r.
  apply get_todays_reviews_inv in H as [_ H].
  destruct (select_due (db w) user_id (today_end_of clock)) as [|j js] eqn:Hd;
    subst resp; cbn [reviews_due next_up].
  - split; [intros x Hx; inversion Hx|]. split.
    + intros x [= Hx].
      destruct (select_next_up (db w) user_id) as [j|] eqn:Hn; [|discriminate].
      injection Hx as <-. unfold select_next_up in Hn.
      apply min_by_Some in Hn as [Hj _].
      apply (joined_logs_elem user_id) in Hj as (r & p & [_ Hr] & _ & ->).
      exact Hr.
    + split; [discriminate | intros Hne; now destruct Hne].
  - split.
    + intros x Hx. rewrite <- Hd in Hx.
      apply list_elem_of_fmap in Hx as (j' & -> & Hj').
      apply (select_due_elem user_id) in Hj'
        as (r & p & [[_ Hr] Hn] & _ & ->).
      split; [exact Hr | exact Hn].
    + split; [discriminate|]. split; [discriminate | reflexivity].
Qed.

End ReviewsAnyFault.

(** ** Logging, then asking for the reviews *)

Section LogThenReviews.

Variables (clock clock_solved clock' : Z) (data : ProblemLog.t)
  (user_id : string).

Lemma calculate_next_review_day_ahead c d last nr :
  calculate_next_review c d last = Ok nr -> c + US_PER_DAY <= wall nr.
Proof.
  unfold calculate_next_review. destruct last as [last|].
  - destruct (datetime_sub _ _); cbn; [|discriminate].
    destruct (getitem multiplier d); cbn; [|discriminate].
    destruct (int_mul_float _ _); cbn; [|discriminate].
    destruct (float_to_int _) as [n|]; cbn; [|discriminate].
    intros H. apply datetime_add_inv in H as [-> _]. cbn.
    unfold timedelta, US_PER_DAY, US_PER_SECOND. lia.
  - destruct (getitem initial_days d) as [x|] eqn:Hx; cbn; [|discriminate].
    intros H. apply datetime_add_inv in H as [-> _]. cbn.
    apply getitem_initial_days_inv in Hx as [Hd ->].
    pose proof (initialOffsetDays_range d Hd).
    unfold timedelta, US_PER_DAY, US_PER_SECOND. lia.
Qed.

(** X15: a problem that was just logged is not due the same day. After
    a log that returned, a review query of the same user on the UTC day
    of the log (or on an earlier one) does not list the logged problem
    among the due reviews, whatever the store does. *)
Theorem logged_problem_is_not_due_the_same_day (w w1 : world)
    (resp : log_response) (reviews : reviews_response) :
  unique_keys (db w) ->
  log_problem clock clock_solved data user_id w = (Ok resp, w1) ->
  date (utcnow clock') <= date (utcnow clock) ->
  (get_todays_reviews clock' user_id w1).1 = Ok reviews ->
  forall x, x ∈ reviews_due reviews -> r_slug x <> ProblemLog.slug data.
Proof.
  intros Hu Hlog Hday Hrev x Hx Hslug.
  apply log_problem_ok_inv in Hlog as (nr & _ & Hnr & Hdb & _).
  destruct (log_upsert_one_log user_id clock_solved data (db w) nr Hu)
    as (row & Hrow & _ & _ & Hn & _).
  rewrite <- Hdb in Hrow.
  destruct (get_todays_reviews clock' user_id w1) as [r w2] eqn:H.
  cbn [fst] in Hrev. subst r. apply get_todays_reviews_inv in H as [_ H].
  destruct (select_due (db w1) user_id (today_end_of clock')) as [|j js] eqn:Hd;
    subst reviews; cbn [reviews_due] in Hx; [inversion Hx|].
  rewrite <- Hd in Hx. apply list_elem_of_fmap in Hx as (j' & -> & Hj').
  apply (select_due_elem user_id) in Hj' as (r & p & [[Hin Hr] Hdue] & _ & ->).
  cbn in Hslug.
  assert (r ∈ logs_of (db w1) user_id (ProblemLog.slug data)) as Hr'.
  { unfold logs_of. apply list_elem_of_filter. split; [|exact Hin].
    apply is_log_of_key. unfold log_key. now rewrite Hr, Hslug. }
  rewrite Hrow in Hr'. apply list_elem_of_singleton in Hr'. subst r.
  rewrite Hn, (calculate_next_review_naive _ _ _ _ Hnr) in Hdue.
  apply calculate_next_review_day_ahead in Hnr.
  destruct (today_end_of_bounds clock') as [Hend _]. rewrite Hend in Hdue.
  unfold date, utcnow, naive in Hday. cbn [wall] in Hday.
  pose proof (Z.div_mod clock US_PER_DAY) as Hc.
  pose proof (Z.div_mod clock' US_PER_DAY) as Hc'.
  pose proof (Z.mod_pos_bound clock US_PER_DAY) as Hb.
  pose proof (Z.mod_pos_bound clock' US_PER_DAY) as Hb'.
  unfold US_PER_DAY, US_PER_SECOND in *. lia.
Qed.

End LogThenReviews.

Lemma reviews_are_the_callers_own_witness :
  db (get_todays_reviews 63839890800000000 "u1" (store_of [late_log])).2
    = db (store_of [late_log]).
Proof.
  exact (proj1 (reviews_are_the_callers_own 63839890800000000 "u1"
                  (store_of [late_log]))).
Defined.

Lemma logged_problem_is_not_due_the_same_day_witness :
  exists reviews,
    (get_todays_reviews 63839923199500000 "u1"
       (log_problem 63839890800000000 63839890800000000 (log_request 5) "u1"
          {| db := two_problems [due_log]; trace := []; fuse := None |}).2).1
      = Ok reviews /\
    length (reviews_due reviews) = 1%nat /\
    Forall (fun x => r_slug x <> "two-sum") (reviews_due reviews).
Proof.
  eassert (log_problem 63839890800000000 63839890800000000 (log_request 5)
             "u1" {| db := two_problems [due_log]; trace := []; fuse := None |}
           = (Ok _, _)) as Hlog by (vm_compute; reflexivity).
  eassert ((get_todays_reviews 63839923199500000 "u1"
              (log_problem 63839890800000000 63839890800000000
                 (log_request 5) "u1"
                 {| db := two_problems [due_log]; trace := [];
                    fuse := None |}).2).1 = Ok _) as Hrev
    by (vm_compute; reflexivity).
  eexists. split; [exact Hrev|]. split; [reflexivity|].
  apply Forall_forall. intros x Hx.
  eapply (logged_problem_is_not_due_the_same_day
            63839890800000000 63839890800000000 63839923199500000
            (log_request 5) "u1"
            {| db := two_problems [due_log]; trace := []; fuse := None |}).
  - unfold unique_keys. cbn. repeat constructor. inversion 1.
  - exact Hlog.
  - vm_compute. discriminate.
  - rewrite Hlog in Hrev. exact Hrev.
  - exact Hx.
Defined.

(** ** The transaction scope over any statements *)

Section ScopedRuns.

Context {stmt : Type}.

Lemma scoped_bind_run {A B} (m : Scoped.txn stmt A)
    (f : A -> Scoped.txn stmt B) w :
  (m ≫= f) w =
  match m w with
  | (Ok a, w') => f a w'
  | (Raise e, w') => (Raise e, w')
  end.
Proof. reflexivity. Qed.

Lemma scoped_store_call_run (e : Scoped.event stmt) w :
  Scoped.store_call e w =
  (if fails (Scoped.fuse w) then Raise OperationalError else Ok tt,
   {| Scoped.db := Scoped.db w; Scoped.trace := Scoped.trace w ++ [e];
      Scoped.fuse := burn (Scoped.fuse w) |}).
Proof.
  unfold Scoped.store_call. destruct (Scoped.fuse w) as [[|n]|]; reflexivity.
Qed.

Lemma scoped_query_run {A} (q : stmt) (rows : database -> A) w :
  Scoped.query q rows w =
  (if fails (Scoped.fuse w) then Raise OperationalError
   else Ok (rows (Scoped.db w)),
   {| Scoped.db := Scoped.db w;
      Scoped.trace := Scoped.trace w ++ [Scoped.Execute q];
      Scoped.fuse := burn (Scoped.fuse w) |}).
Proof.
  unfold Scoped.query. rewrite scoped_bind_run, scoped_store_call_run.
  destruct (fails (Scoped.fuse w)); reflexivity.
Qed.

Lemma scoped_get_db_cursor_run {A} (body : Scoped.txn stmt A) w :
  Scoped.get_db_cursor body w =
  if fails (Scoped.fuse w) then
    (Raise (HTTPException 500 "Database error: " (Some OperationalError)),
     {| Scoped.db := Scoped.db w;
        Scoped.trace := Scoped.trace w ++ [Scoped.Connect];
        Scoped.fuse := None |})
  else if fails (burn (Scoped.fuse w)) then
    (Raise (HTTPException 500 "Database error: " (Some OperationalError)),
     {| Scoped.db := Scoped.db w;
        Scoped.trace := Scoped.trace w ++ [Scoped.Connect; Scoped.Cursor;
                                           Scoped.Rollback; Scoped.Close];
        Scoped.fuse := None |})
  else
    match body {| Scoped.db := Scoped.db w;
                  Scoped.trace := Scoped.trace w
                                    ++ [Scoped.Connect; Scoped.Cursor];
                  Scoped.fuse := burn (burn (Scoped.fuse w)) |} with
    | (Raise e, w2) =>
        (Raise (HTTPException 500 "Database error: " (Some e)),
         {| Scoped.db := Scoped.db w;
            Scoped.trace := Scoped.trace w2
                              ++ [Scoped.Rollback; Scoped.Close];
            Scoped.fuse := Scoped.fuse w2 |})
    | (Ok a, w2) =>
        if fails (Scoped.fuse w2) then
          (Raise (HTTPException 500 "Database error: " (Some OperationalError)),
           {| Scoped.db := Scoped.db w;
              Scoped.trace := Scoped.trace w2
                                ++ [Scoped.Commit; Scoped.Rollback;
                                    Scoped.Close];
              Scoped.fuse := None |})
        else
          (Ok a, {| Scoped.db := Scoped.db w2;
                    Scoped.trace := Scoped.trace w2
                                      ++ [Scoped.Commit; Scoped.Close];
                    Scoped.fuse := burn (Scoped.fuse w2) |})
    end.
Proof.
  unfold Scoped.get_db_cursor. rewrite scoped_store_call_run.
  destruct (Scoped.fuse w) as [[|[|n]]|]; cbn [fails burn]; [reflexivity|..];
    rewrite scoped_bind_run, scoped_store_call_run;
    cbn [Scoped.fuse Scoped.db Scoped.trace fails burn];
    rewrite <- app_assoc; cbn [app].
  1: unfold Scoped.close, Scoped.rollback; cbn; now rewrite <- !app_assoc.
  all: rewrite scoped_bind_run; destruct (body _) as [[a|e] w2];
    [ rewrite scoped_bind_run, scoped_store_call_run;
      destruct (Scoped.fuse w2) as [[|k]|];
      unfold Scoped.close, Scoped.rollback; cbn;
      now rewrite <- !app_assoc
    | unfold Scoped.close, Scoped.rollback; cbn; now rewrite <- !app_assoc ].
Qed.

Lemma scoped_try_except_run {A} (body : Scoped.txn stmt A) detail w :
  Scoped.try_except body detail w =
  match body w with
  | (Ok a, w') => (Ok a, w')
  | (Raise e, w') => (Raise (HTTPException 500 detail (Some e)), w')
  end.
Proof. reflexivity. Qed.

End ScopedRuns.

(** The scope over the statements of the first two handlers is the
    scope they run in. *)
Lemma scoped_get_db_cursor_agrees {A} (body : txn A)
    (body' : Scoped.txn statement A) w :
  (forall w, body' (scoped_world w) = scoped_run (body w)) ->
  Scoped.get_db_cursor body' (scoped_world w)
    = scoped_run (get_db_cursor body w).
Proof.
  intros Hb. rewrite scoped_get_db_cursor_run, get_db_cursor_run.
  cbn [scoped_world Scoped.fuse Scoped.db Scoped.trace].
  destruct (fails (fuse w)).
  { unfold scoped_run, scoped_world. cbn. now rewrite fmap_app. }
  destruct (fails (burn (fuse w))).
  { unfold scoped_run, scoped_world. cbn. now rewrite fmap_app. }
  assert ({| Scoped.db := db w;
             Scoped.trace := (scoped_event <$> trace w)
                               ++ [Scoped.Connect; Scoped.Cursor];
             Scoped.fuse := burn (burn (fuse w)) |}
          = scoped_world {| db := db w; trace := trace w ++ [Connect; Cursor];
                            fuse := burn (burn (fuse w)) |}) as ->
    by (unfold scoped_world; cbn; now rewrite fmap_app).
  rewrite Hb. destruct (body _) as [[a|e] w2]; unfold scoped_run; cbn.
  - destruct (fails (fuse w2)); unfold scoped_world; cbn;
      now rewrite fmap_app.
  - unfold scoped_world; cbn. now rewrite fmap_app.
Qed.

(** ** The handlers that only read *)

Section Readers.

Lemma read_handler_run {A R} (q : read_statement) (sel : database -> R)
    (post : R -> result A) (body : Scoped.txn read_statement A) detail w :
  (forall w, body w =
     match Scoped.query q sel w with
     | (Ok rows, w') => (post rows, w')
     | (Raise e, w') => (Raise e, w')
     end) ->
  Scoped.try_except (Scoped.get_db_cursor body) detail w
    = read_outcome q detail (post (sel (Scoped.db w))) w.
Proof.
  intros Hb.
  rewrite scoped_try_except_run, scoped_get_db_cursor_run, Hb,
    scoped_query_run.
  unfold read_outcome. cbn [Scoped.fuse Scoped.db Scoped.trace].
  destruct (Scoped.fuse w) as [[|[|[|[|n]]]]|]; cbn [fails burn];
    try reflexivity.
  all: try (destruct (post _); cbn; now rewrite <- ?app_assoc).
  all: cbn; now rewrite <- ?app_assoc.
Qed.

Lemma get_user_problem_logs_run user_id w :
  get_user_problem_logs user_id w =
  read_outcome (SelectUserLogs user_id) "Error fetching user logs: "
    (Ok (select_user_logs (Scoped.db w) user_id)) w.
Proof.
  unfold get_user_problem_logs.
  apply (read_handler_run _ (fun db => select_user_logs db user_id) Ok).
  intros w0. now destruct (Scoped.query _ _ w0) as [[rows|e] w'].
Qed.

Lemma get_all_problems_run json_loads user_id w :
  get_all_problems json_loads user_id w =
  read_outcome (SelectAllProblems user_id) "Failed to fetch user problems: "
    (mapM (problem_of json_loads)
       (select_all_problems (Scoped.db w) user_id)) w.
Proof.
  unfold get_all_problems.
  apply (read_handler_run _ (fun db => select_all_problems db user_id)
           (mapM (problem_of json_loads))).
  intros w0. rewrite scoped_bind_run.
  destruct (Scoped.query _ _ w0) as [[rows|e] w']; [|reflexivity].
  rewrite scoped_bind_run. unfold Scoped.lift.
  now destruct (mapM _ rows).
Qed.

Lemma get_problem_bank_run user_id w :
  get_problem_bank user_id w =
  read_outcome SelectProblemBank "Failed to fetch problem bank: "
    (Ok (select_problem_bank (Scoped.db w))) w.
Proof.
  unfold get_problem_bank.
  apply (read_handler_run _ select_problem_bank Ok).
  intros w0. rewrite scoped_bind_run.
  now destruct (Scoped.query _ _ w0) as [[rows|e] w'].
Qed.

Lemma read_outcome_db {A} q detail (r : result A) w :
  Scoped.db (read_outcome q detail r w).2 = Scoped.db w.
Proof.
  unfold read_outcome. cbv zeta.
  destruct (fails (Scoped.fuse w)); [reflexivity|].
  destruct (fails (burn (Scoped.fuse w))); [reflexivity|].
  destruct (fails (burn (burn (Scoped.fuse w)))); [reflexivity|].
  destruct r; [|reflexivity].
  destruct (fails (burn (burn (burn (Scoped.fuse w))))); reflexivity.
Qed.

Lemma read_outcome_ok {A} q detail (r : result A) w a :
  (read_outcome q detail r w).1 = Ok a -> r = Ok a.
Proof.
  unfold read_outcome. cbv zeta.
  destruct (fails (Scoped.fuse w)); [discriminate|].
  destruct (fails (burn (Scoped.fuse w))); [discriminate|].
  destruct (fails (burn (burn (Scoped.fuse w)))); [discriminate|].
  destruct r; [|discriminate].
  destruct (fails (burn (burn (burn (Scoped.fuse w))))); [discriminate|].
  cbn. congruence.
Qed.

Lemma read_outcome_no_fault {A} q detail (r : result A) w :
  Scoped.fuse w = None ->
  (read_outcome q detail r w).1 =
  match r with
  | Ok a => Ok a
  | Raise e =>
      Raise (HTTPException 500 detail
               (Some (HTTPException 500 "Database error: " (Some e))))
  end.
Proof.
  intros Hf. unfold read_outcome. cbv zeta. rewrite Hf. cbn.
  now destruct r.
Qed.

Lemma read_outcome_raise {A} q detail (r : result A) w e :
  (read_outcome q detail r w).1 = Raise e ->
  exists cause,
    e = HTTPException 500 detail
          (Some (HTTPException 500 "Database error: " (Some cause))) /\
    (cause = OperationalError \/ r = Raise cause).
Proof.
  unfold read_outcome. cbv zeta.
  destruct (fails (Scoped.fuse w)); [intros [= <-]; eauto|].
  destruct (fails (burn (Scoped.fuse w))); [intros [= <-]; eauto|].
  destruct (fails (burn (burn (Scoped.fuse w)))); [intros [= <-]; eauto|].
  destruct r; [|intros [= <-]; eauto].
  destruct (fails (burn (burn (burn (Scoped.fuse w)))));
    [intros [= <-]; eauto | discriminate].
Qed.

Lemma newer_total : Total newer.
Proof. intros a b. unfold newer. lia. Qed.

Lemma newer_trans : Transitive newer.
Proof. intros a b c. unfold newer. lia. Qed.

Lemma newer_joined_total : Total newer_joined.
Proof. intros a b. unfold newer_joined, newer. lia. Qed.

Lemma newer_joined_trans : Transitive newer_joined.
Proof. intros a b c. unfold newer_joined, newer. lia. Qed.

Lemma select_user_logs_Permutation d user_id :
  select_user_logs d user_id ≡ₚ rows_of_user d user_id.
Proof. apply sorting.merge_sort_Permutation. Qed.

(** X16: [get_user_problem_logs] returns the logs of the user it is
    asked for, all of them and each once, the last solved first. It
    fails only when the store fails, with an HTTP 500 "Error fetching
    user logs" that wraps the 500 of the transaction scope; with no
    fault of the store it returns. *)
Theorem user_logs_newest_first (user_id : string)
    (w : Scoped.world read_statement) :
  (forall rows, (get_user_problem_logs user_id w).1 = Ok rows ->
     rows ≡ₚ rows_of_user (Scoped.db w) user_id /\
     Sorted.StronglySorted newer rows /\
     forall r, r ∈ rows <->
       r ∈ user_problem (Scoped.db w) /\ UserProblem.user_id r = user_id) /\
  (forall e, (get_user_problem_logs user_id w).1 = Raise e ->
     e = HTTPException 500 "Error fetching user logs: "
           (Some (HTTPException 500 "Database error: "
                    (Some OperationalError)))) /\
  (Scoped.fuse w = None ->
     (get_user_problem_logs user_id w).1
       = Ok (select_user_logs (Scoped.db w) user_id)).
Proof.
  rewrite get_user_problem_logs_run. split; [|split].
  - intros rows H. apply read_outcome_ok in H. injection H as <-.
    split; [apply select_user_logs_Permutation|].
    split; [apply sorting.StronglySorted_merge_sort;
              [apply newer_trans | apply newer_total]|].
    intros r. rewrite select_user_logs_Permutation.
    unfold rows_of_user. rewrite list_elem_of_filter. tauto.
  - intros e H. apply read_outcome_raise in H as (cause & -> & [-> | H]);
      [reflexivity | discriminate].
  - intros Hf. now rewrite read_outcome_no_fault.
Qed.

(** X17: none of the four handlers that only read changes the
    database, whether it returns or fails and whatever the store
    does. *)
Theorem readers_leave_the_database (isoformat : datetime -> string)
    (fromisoformat : string -> result datetime)
    (json_loads : string -> result json) (clock : Z) (user_id : string)
    (w : Scoped.world read_statement) :
  Scoped.db (get_user_problem_logs user_id w).2 = Scoped.db w /\
  Scoped.db (dashboard_stats isoformat fromisoformat clock user_id w).2
    = Scoped.db w /\
  Scoped.db (get_all_problems json_loads user_id w).2 = Scoped.db w /\
  Scoped.db (get_problem_bank user_id w).2 = Scoped.db w.
Proof.
  split; [|split; [|split]].
  - rewrite get_user_problem_logs_run. apply read_outcome_db.
  - unfold dashboard_stats. rewrite scoped_try_except_run, scoped_bind_run.
    pose proof (read_outcome_db (SelectUserLogs user_id)
                  "Error fetching user logs: "
                  (Ok (select_user_logs (Scoped.db w) user_id)) w) as Hdb.
    rewrite <- get_user_problem_logs_run in Hdb.
    destruct (get_user_problem_logs user_id w) as [[rows|e] w'];
      [|exact Hdb].
    cbn [snd] in Hdb. cbv zeta. rewrite scoped_bind_run. unfold Scoped.lift.
    now destruct (calculate_current_streak _ _ _).
  - rewrite get_all_problems_run. apply read_outcome_db.
  - rewrite get_problem_bank_run. apply read_outcome_db.
Qed.

End Readers.

(** ** The dashboard *)

Section DashboardProps.

Variable isoformat : datetime -> string.
Variable fromisoformat : string -> result datetime.

(** The timestamps [dashboard_stats] hands to the streak calculator. *)
Lemma dashboard_stats_run clock user_id w :
  dashboard_stats isoformat fromisoformat clock user_id w =
  match get_user_problem_logs user_id w with
  | (Ok logs, w') =>
      match
        calculate_current_streak fromisoformat clock
          ((fun log => isoformat (of_timestamp (UserProblem.date_solved log)))
             <$> logs)
      with
      | Ok n => (Ok n, w')
      | Raise e =>
          (Raise (HTTPException 500 "Error fetching dashboard stats: "
                    (Some e)), w')
      end
  | (Raise e, w') =>
      (Raise (HTTPException 500 "Error fetching dashboard stats: " (Some e)),
       w')
  end.
Proof.
  unfold dashboard_stats. rewrite scoped_try_except_run, scoped_bind_run.
  destruct (get_user_problem_logs user_id w) as [[logs|e] w']; [|reflexivity].
  cbv zeta. rewrite scoped_bind_run. unfold Scoped.lift.
  now destruct (calculate_current_streak _ _ _).
Qed.

Lemma dashboard_stats_ok_inv clock user_id w n :
  (dashboard_stats isoformat fromisoformat clock user_id w).1 = Ok n ->
  calculate_current_streak fromisoformat clock
    ((fun log => isoformat (of_timestamp (UserProblem.date_solved log)))
       <$> select_user_logs (Scoped.db w) user_id) = Ok n.
Proof.
  rewrite dashboard_stats_run.
  destruct (get_user_problem_logs user_id w) as [[logs|e] w'] eqn:Hlogs;
    [|discriminate].
  assert ((get_user_problem_logs user_id w).1 = Ok logs) as H
    by now rewrite Hlogs.
  rewrite get_user_problem_logs_run in H. apply read_outcome_ok in H.
  injection H as <-.
  destruct (calculate_current_streak _ _ _); [|discriminate].
  cbn. congruence.
Qed.

Lemma mapM_reads_back (rows : list UserProblem.row) :
  Forall (fun r => reads_back isoformat fromisoformat
                     (UserProblem.date_solved r)) rows ->
  exists dts,
    mapM fromisoformat
      ((fun log => isoformat (of_timestamp (UserProblem.date_solved log)))
         <$> rows) = Ok dts /\
    date <$> dts =
      (fun r => date (of_timestamp (UserProblem.date_solved r))) <$> rows.
Proof.
  induction 1 as [|r rows (dt & Hdt & Hd) _ (dts & Hdts & Hds)].
  - now exists [].
  - exists (dt :: dts). cbn [fmap list_fmap]. rewrite mapM_cons, Hdt. cbn.
    fold (@fmap list _ _ _
            (fun log => isoformat (of_timestamp (UserProblem.date_solved log)))
            rows).
    rewrite Hdts. cbn. split; [reflexivity|].
    now rewrite Hd, <- Hds.
Qed.

Lemma solved_days_sorted d user_id :
  (list_to_set
     ((fun r => date (of_timestamp (UserProblem.date_solved r)))
        <$> select_user_logs d user_id) : gset Z) = solved_days d user_id.
Proof.
  apply set_eq. intros x. unfold solved_days.
  rewrite !elem_of_list_to_set, !list_elem_of_fmap.
  split; intros (r & Hx & Hr); exists r; (split; [exact Hx|]).
  - now rewrite select_user_logs_Permutation in Hr.
  - now rewrite select_user_logs_Permutation.
Qed.

Lemma forall_reads_back_sorted d user_id :
  Forall (fun r => reads_back isoformat fromisoformat
                     (UserProblem.date_solved r)) (rows_of_user d user_id) ->
  Forall (fun r => reads_back isoformat fromisoformat
                     (UserProblem.date_solved r)) (select_user_logs d user_id).
Proof. intros H. now rewrite select_user_logs_Permutation. Qed.

Lemma streak_of_logs d clock user_id :
  Forall (fun r => reads_back isoformat fromisoformat
                     (UserProblem.date_solved r)) (rows_of_user d user_id) ->
  calculate_current_streak fromisoformat clock
    ((fun log => isoformat (of_timestamp (UserProblem.date_solved log)))
       <$> select_user_logs d user_id)
  = current_streak (solved_days d user_id) (date (utcnow clock)).
Proof.
  intros H. apply forall_reads_back_sorted in H.
  apply mapM_reads_back in H as (dts & Hdts & Hds).
  rewrite (calculate_current_streak_set _ _ _ _ Hdts), Hds.
  now rewrite solved_days_sorted.
Qed.

(** X18: when the library reads back the dates it wrote for the
    solved timestamps of the user's logs, the streak of the dashboard
    is the streak of the calendar days on which the user's logs were
    last solved: what the handler returns is what the streak loop gives
    for that set of days and today, and with no fault of the store the
    handler returns it, or wraps its failure in an HTTP 500. *)
Theorem dashboard_streak_of_solved_days (clock : Z) (user_id : string)
    (w : Scoped.world read_statement) :
  Forall (fun r => reads_back isoformat fromisoformat
                     (UserProblem.date_solved r))
    (rows_of_user (Scoped.db w) user_id) ->
  (forall n,
     (dashboard_stats isoformat fromisoformat clock user_id w).1 = Ok n ->
     current_streak (solved_days (Scoped.db w) user_id)
       (date (utcnow clock)) = Ok n) /\
  (Scoped.fuse w = None ->
     (dashboard_stats isoformat fromisoformat clock user_id w).1 =
     match current_streak (solved_days (Scoped.db w) user_id)
             (date (utcnow clock)) with
     | Ok n => Ok n
     | Raise e =>
         Raise (HTTPException 500 "Error fetching dashboard stats: " (Some e))
     end).
Proof.
  intros Hrb. split.
  - intros n H. apply dashboard_stats_ok_inv in H.
    now rewrite streak_of_logs in H.
  - intros Hf. rewrite dashboard_stats_run, get_user_problem_logs_run.
    pose proof (read_outcome_no_fault (SelectUserLogs user_id)
                  "Error fetching user logs: "
                  (Ok (select_user_logs (Scoped.db w) user_id)) w Hf) as Hok.
    destruct (read_outcome _ _ _ w) as [[logs|e] w']; cbn [fst] in Hok;
      [|discriminate].
    injection Hok as ->. rewrite streak_of_logs by assumption.
    now destruct (current_streak _ _).
Qed.

Lemma current_streak_le_size (logged : gset Z) today n :
  current_streak logged today = Ok n -> 0 <= n <= Z.of_nat (size logged).
Proof.
  intros H. apply streak_loop_inv in H as (H0 & Hrun & _).
  replace (n - 0) with n in Hrun by lia. split; [lia|].
  assert (Z.to_nat n <= size logged)%nat as Hs; [|lia].
  apply (size_run _ today). intros i Hi. apply Hrun. lia.
Qed.

(** X19: the streak of the dashboard is at most the number of logs of
    the user, whatever the library functions do. A user has one log per
    problem, whose solved date every new log of the problem overwrites:
    so the streak is at most the number of problems the user has ever
    logged, and a user who has logged one problem only, however often,
    has a streak of at most 1. *)
Theorem dashboard_streak_at_most_the_logs (clock : Z) (user_id : string)
    (w : Scoped.world read_statement) (n : Z) :
  (dashboard_stats isoformat fromisoformat clock user_id w).1 = Ok n ->
  0 <= n <= Z.of_nat (length (rows_of_user (Scoped.db w) user_id)) /\
  (forall slug, unique_keys (Scoped.db w) ->
     (forall r, r ∈ rows_of_user (Scoped.db w) user_id ->
        UserProblem.slug r = slug) ->
     n <= 1).
Proof.
  intros H. apply dashboard_stats_ok_inv in H.
  assert (0 <= n <= Z.of_nat (length (rows_of_user (Scoped.db w) user_id)))
    as Hn.
  { apply calculate_current_streak_inv in H as (dts & Hm & H).
    apply current_streak_le_size in H.
    pose proof (size_list_to_set_le (date <$> dts)) as Hl.
    rewrite length_fmap, (mapM_length _ _ _ Hm), length_fmap in Hl.
    rewrite (Permutation_length (select_user_logs_Permutation _ _)) in Hl.
    lia. }
  split; [exact Hn|]. intros slug Hu Hslug.
  pose proof (unique_keys_one_log (Scoped.db w) user_id slug Hu) as H1.
  assert (rows_of_user (Scoped.db w) user_id
          = logs_of (Scoped.db w) user_id slug) as Heq.
  { unfold rows_of_user, logs_of.
    assert (forall r, r ∈ user_problem (Scoped.db w) ->
              UserProblem.user_id r = user_id ->
              UserProblem.slug r = slug) as Hall.
    { intros r Hr Hu'. apply Hslug. unfold rows_of_user.
      apply list_elem_of_filter. auto. }
    clear -Hall. induction (user_problem (Scoped.db w)) as [|a l IH];
      [reflexivity|].
    destruct (decide (UserProblem.user_id a = user_id)) as [Ha|Ha].
    - rewrite !filter_cons_True; [|apply is_log_of_key; unfold log_key;
        rewrite Ha, (Hall a); [reflexivity | left | exact Ha] | exact Ha].
      f_equal. apply IH. intros r Hr. apply Hall. now right.
    - rewrite !filter_cons_False; [|intros Hk; apply is_log_of_key in Hk;
        injection Hk as Hk _; contradiction | exact Ha].
      apply IH. intros r Hr. apply Hall. now right. }
  rewrite Heq in Hn. lia.
Qed.

End DashboardProps.

Section DashboardAfterLog.

Variable isoformat : datetime -> string.
Variable fromisoformat : string -> result datetime.

Lemma upsert_has_new new rows :
  exists r, r ∈ upsert new rows /\
    UserProblem.user_id r = UserProblem.user_id new /\
    UserProblem.date_solved r = UserProblem.date_solved new.
Proof.
  induction rows as [|a rows (r & Hr & Hu & Hd)]; cbn [upsert].
  - exists new. split; [left | auto].
  - destruct (is_log_of _ _ a) eqn:Ha.
    + exists (excluded_update a new). split; [left|].
      apply bool_decide_eq_true in Ha as [Ha _]. auto.
    + exists r. split; [now right | auto].
Qed.

(** X20: logging a problem starts or continues the streak. After a log
    that returned, the dashboard of the same user, asked on the UTC day
    of the log over the database the log left, shows a streak of at
    least 1 whenever it returns (the library reading back the dates it
    wrote for the user's logs). *)
Theorem logging_today_counts_for_the_streak
    (clock clock_solved clock' : Z) (data : ProblemLog.t) (user_id : string)
    (w w1 : world) (resp : log_response)
    (w2 : Scoped.world read_statement) (n : Z) :
  log_problem clock clock_solved data user_id w = (Ok resp, w1) ->
  Scoped.db w2 = db w1 ->
  date (utcnow clock') = date (of_timestamp clock_solved) ->
  Forall (fun r => reads_back isoformat fromisoformat
                     (UserProblem.date_solved r))
    (rows_of_user (db w1) user_id) ->
  (dashboard_stats isoformat fromisoformat clock' user_id w2).1 = Ok n ->
  1 <= n.
Proof.
  intros Hlog Hdb Hday Hrb H.
  apply dashboard_stats_ok_inv in H. rewrite Hdb in H.
  rewrite streak_of_logs in H by assumption.
  apply streak_loop_inv in H as (H0 & _ & Hstop & _).
  destruct (decide (n = 0)) as [->|Hn]; [|lia]. exfalso. apply Hstop.
  replace (date (utcnow clock') - (0 - 0)) with (date (utcnow clock')) by lia.
  rewrite Hday.
  apply log_problem_ok_inv in Hlog as (nr & _ & _ & -> & _).
  destruct (upsert_has_new (logged_row clock_solved data user_id (db w) nr)
              (user_problem (db w))) as (r & Hr & Hu & Hd).
  cbn in Hu, Hd. rewrite to_timestamp_now_utc in Hd.
  unfold solved_days. apply elem_of_list_to_set, list_elem_of_fmap.
  exists r. split; [now rewrite Hd|].
  apply list_elem_of_filter. split; [exact Hu | exact Hr].
Qed.

End DashboardAfterLog.

Lemma dashboard_streak_of_solved_days_witness :
  (dashboard_stats IsoWrite.isoformat Iso.fromisoformat 63839890800000000
     "u1" (reader_world (two_problems [due_log; other_log; fresh_log]) None)).1
  = Ok 2.
Proof.
  destruct (dashboard_streak_of_solved_days IsoWrite.isoformat
              Iso.fromisoformat 63839890800000000 "u1"
              (reader_world (two_problems [due_log; other_log; fresh_log])
                 None)) as [_ H].
  - repeat constructor; eexists; (split; [vm_compute; reflexivity|]);
      vm_compute; reflexivity.
  - rewrite H by reflexivity. vm_compute. reflexivity.
Defined.

Lemma dashboard_streak_at_most_the_logs_witness :
  0 <= 2 <= Z.of_nat (length (rows_of_user
                                (two_problems [due_log; other_log; fresh_log])
                                "u1")).
Proof.
  apply (dashboard_streak_at_most_the_logs IsoWrite.isoformat
           Iso.fromisoformat 63839890800000000 "u1"
           (reader_world (two_problems [due_log; other_log; fresh_log]) None)).
  vm_compute. reflexivity.
Defined.

Lemma logging_today_counts_for_the_streak_witness :
  exists n,
    (dashboard_stats IsoWrite.isoformat Iso.fromisoformat 63839923199500000
       "u1"
       (reader_world
          (db (log_problem 63839890800000000 63839890800000000
                 (log_request 5) "u1" (store_of [])).2) None)).1 = Ok n /\
    1 <= n.
Proof.
  eassert (log_problem 63839890800000000 63839890800000000 (log_request 5)
             "u1" (store_of []) = (Ok _, _)) as Hlog
    by (vm_compute; reflexivity).
  eassert ((dashboard_stats IsoWrite.isoformat Iso.fromisoformat
              63839923199500000 "u1"
              (reader_world
                 (db (log_problem 63839890800000000 63839890800000000
                        (log_request 5) "u1" (store_of [])).2) None)).1
           = Ok _) as Hdash by (vm_compute; reflexivity).
  eexists. split; [exact Hdash|].
  eapply (logging_today_counts_for_the_streak IsoWrite.isoformat
            Iso.fromisoformat 63839890800000000 63839890800000000
            63839923199500000 (log_request 5) "u1" (store_of [])).
  1: exact Hlog.
  4: (rewrite Hlog in Hdash; exact Hdash).
  - reflexivity.
  - vm_compute. reflexivity.
  - repeat constructor; eexists; (split; [vm_compute; reflexivity|]);
      vm_compute; reflexivity.
Defined.

(** ** All problems of a user *)

Section AllProblemsProps.

Variable json_loads : string -> result json.

Lemma mapM_result_cons {A B} (f : A -> result B) x l :
  mapM f (x :: l) = y ← f x; ys ← mapM f l; Ok (y :: ys).
Proof. reflexivity. Qed.

Lemma mapM_result_Forall2 {A B} (f : A -> result B) l ys :
  mapM f l = Ok ys -> Forall2 (fun x y => f x = Ok y) l ys.
Proof.
  revert ys. induction l as [|x l IH]; intros ys.
  - cbn. intros [= <-]. constructor.
  - rewrite mapM_result_cons. destruct (f x) as [y|e] eqn:Hx; [|discriminate].
    cbn. destruct (mapM f l) as [ys'|e]; [|discriminate].
    cbn. intros [= <-]. constructor; auto.
Qed.

Lemma mapM_result_raise {A B} (f : A -> result B) l x :
  x ∈ l -> is_ok (f x) = false -> is_ok (mapM f l) = false.
Proof.
  intros Hx Hf. induction l as [|a l IH]; [inversion Hx|].
  rewrite mapM_result_cons. destruct (f a) as [y|e] eqn:Ha; [|reflexivity].
  cbn. apply elem_of_cons in Hx as [-> | Hx].
  - rewrite Ha in Hf. discriminate.
  - specialize (IH Hx). now destruct (mapM f l).
Qed.

Lemma fix_tags_list t : exists l, fix_tags t = JList l.
Proof. destruct t; cbn; unfold keys; eauto. Qed.

Lemma row_tags_list u o t :
  row_tags json_loads u o = Ok t -> exists l, t = JList l.
Proof.
  unfold row_tags. destruct (loads_if_str json_loads u) as [u'|]; [|discriminate].
  cbn. destruct (loads_if_str json_loads o) as [o'|]; [|discriminate].
  cbn. intros [= <-]. unfold py_or.
  destruct (fix_tags_list u') as [lu ->]. destruct (fix_tags_list o') as [lo ->].
  destruct (truthy (JList lu)); [eauto|].
  destruct (truthy (JList lo)); eauto.
Qed.

Lemma problem_of_entry row p :
  problem_of json_loads row = Ok p -> entry_of row p.
Proof.
  unfold problem_of.
  destruct (row_tags json_loads _ _) as [t|] eqn:Ht; [|discriminate].
  cbn. intros [= <-]. unfold entry_of. cbn.
  repeat (split; [reflexivity|]).
  split; [now apply row_tags_list in Ht|]. split.
  - intros l Hu Hl. rewrite Hu in Ht. unfold row_tags in Ht. cbn in Ht.
    destruct (loads_if_str json_loads _) as [o'|]; [|discriminate].
    cbn in Ht. injection Ht as <-. unfold py_or. cbn.
    rewrite bool_decide_eq_false_2 by assumption. reflexivity.
  - intros l Hu Ho. rewrite Hu, Ho in Ht. unfold row_tags in Ht. cbn in Ht.
    injection Ht as <-. unfold py_or. cbn.
    destruct l; reflexivity.
Qed.

Lemma omap_join_length d rows :
  (forall r, r ∈ rows -> is_Some (leetcode_problem d !! UserProblem.slug r)) ->
  length (omap (join_problem d) rows) = length rows.
Proof.
  induction rows as [|r rows IH]; intros H; [reflexivity|].
  destruct (H r) as [p Hp]; [left|]. cbn. unfold join_problem at 1.
  rewrite Hp. cbn. f_equal. apply IH. intros r' Hr'. apply H. now right.
Qed.

(** X21: what [get_all_problems] returns. Its entries are made, in
    order, from the logs of the calling user joined with their catalog
    problems, each such log once, the last solved first. An entry
    carries the slug, title, difficulty and the two dates of the log
    and the official difficulty of the catalog; its tags are always a
    list: the log's own list when that is not empty, and the catalog's
    list when the log's list is empty. When every log's slug is in the
    catalog, there are as many entries as the user has logs. *)
Theorem all_problems_are_the_callers_logs (user_id : string)
    (w : Scoped.world read_statement) (problems : list problem_dict) :
  (get_all_problems json_loads user_id w).1 = Ok problems ->
  exists rows,
    rows ≡ₚ omap (join_problem (Scoped.db w))
              (rows_of_user (Scoped.db w) user_id) /\
    Sorted.StronglySorted newer_joined rows /\
    Forall2 entry_of rows problems /\
    (foreign_keys (Scoped.db w) ->
       length problems = length (rows_of_user (Scoped.db w) user_id)).
Proof.
  rewrite get_all_problems_run. intros H. apply read_outcome_ok in H.
  exists (select_all_problems (Scoped.db w) user_id).
  split; [apply sorting.merge_sort_Permutation|].
  split; [apply sorting.StronglySorted_merge_sort;
            [apply newer_joined_trans | apply newer_joined_total]|].
  apply mapM_result_Forall2 in H. split.
  - eapply Forall2_impl; [exact H|]. intros row p. apply problem_of_entry.
  - intros Hfk. rewrite <- (Forall2_length _ _ _ H).
    unfold select_all_problems.
    rewrite (Permutation_length (sorting.merge_sort_Permutation _ _)).
    apply omap_join_length. intros r Hr. apply Hfk.
    unfold rows_of_user in Hr. now apply list_elem_of_filter in Hr as [_ Hr].
Qed.

(** X22: one log whose stored tags are text that [json.loads] does not
    decode makes the whole listing of its user fail: [get_all_problems]
    raises for that user, whatever the user's other logs are and
    whatever the store does. *)
Theorem all_problems_fail_on_undecodable_tags (user_id : string)
    (w : Scoped.world read_statement) (r : UserProblem.row)
    (p : LeetcodeProblem.row) (s : string) (e : exn) :
  r ∈ user_problem (Scoped.db w) -> UserProblem.user_id r = user_id ->
  leetcode_problem (Scoped.db w) !! UserProblem.slug r = Some p ->
  UserProblem.tags r = JStr s -> json_loads s = Raise e ->
  is_ok (get_all_problems json_loads user_id w).1 = false.
Proof.
  intros Hr Hu Hp Ht He. rewrite get_all_problems_run.
  assert (is_ok (mapM (problem_of json_loads)
                   (select_all_problems (Scoped.db w) user_id)) = false) as Hm.
  { apply (mapM_result_raise _ _ (r, p)).
    - unfold select_all_problems.
      rewrite sorting.merge_sort_Permutation.
      apply list_elem_of_omap. exists r. split.
      + apply list_elem_of_filter. auto.
      + unfold join_problem. now rewrite Hp.
    - unfold problem_of, row_tags. cbn. rewrite Ht. cbn. now rewrite He. }
  unfold read_outcome. cbv zeta.
  destruct (fails (Scoped.fuse w)); [reflexivity|].
  destruct (fails (burn (Scoped.fuse w))); [reflexivity|].
  destruct (fails (burn (burn (Scoped.fuse w)))); [reflexivity|].
  destruct (mapM _ _); [discriminate | reflexivity].
Qed.

End AllProblemsProps.

(** ** The problem bank *)

Section ProblemBankProps.

Lemma select_problem_bank_elem d b :
  b ∈ select_problem_bank d <->
  exists p, leetcode_problem d !! bp_slug b = Some p /\
    b = bank_problem_of (bp_slug b, p).
Proof.
  unfold select_problem_bank. rewrite list_elem_of_fmap. split.
  - intros ([slug p] & -> & Hin). apply elem_of_map_to_list in Hin.
    exists p. cbn. auto.
  - intros (p & Hp & Hb). exists (bp_slug b, p). split; [exact Hb|].
    now apply elem_of_map_to_list.
Qed.

Lemma select_problem_bank_slugs d :
  bp_slug <$> select_problem_bank d = (map_to_list (leetcode_problem d)).*1.
Proof.
  unfold select_problem_bank. rewrite <- list_fmap_compose.
  apply list_fmap_ext. now intros _ [slug p] _.
Qed.

(** X23: [get_problem_bank] returns the catalog: every problem of the
    catalog once, under its slug, with its title, official difficulty
    and tags as stored, and nothing else. The answer does not depend on
    the user who asks or on the logs of anyone. *)
Theorem problem_bank_is_the_catalog (user_id : string)
    (w : Scoped.world read_statement) (problems : list bank_problem) :
  (get_problem_bank user_id w).1 = Ok problems ->
  NoDup (bp_slug <$> problems) /\
  length problems = size (leetcode_problem (Scoped.db w)) /\
  (forall b, b ∈ problems <->
     exists p, leetcode_problem (Scoped.db w) !! bp_slug b = Some p /\
       b = bank_problem_of (bp_slug b, p)) /\
  (forall user_id' w',
     leetcode_problem (Scoped.db w') = leetcode_problem (Scoped.db w) ->
     Scoped.fuse w' = Scoped.fuse w ->
     (get_problem_bank user_id' w').1 = Ok problems).
Proof.
  rewrite get_problem_bank_run. intros H.
  pose proof H as Hok. apply read_outcome_ok in H. injection H as <-.
  split; [|split; [|split]].
  - rewrite select_problem_bank_slugs. apply NoDup_fst_map_to_list.
  - unfold select_problem_bank. rewrite length_fmap. apply length_map_to_list.
  - apply select_problem_bank_elem.
  - intros user_id' w' Hcat Hf. rewrite get_problem_bank_run.
    unfold read_outcome in *. cbv zeta in *. rewrite Hf.
    unfold select_problem_bank in *. rewrite Hcat.
    destruct (fails (Scoped.fuse w)); [discriminate|].
    destruct (fails (burn (Scoped.fuse w))); [discriminate|].
    destruct (fails (burn (burn (Scoped.fuse w)))); [discriminate|].
    destruct (fails (burn (burn (burn (Scoped.fuse w))))); [discriminate|].
    reflexivity.
Qed.

End ProblemBankProps.

Lemma all_problems_are_the_callers_logs_witness :
  exists problems,
    (get_all_problems (fun _ => Raise (ValueError "no JSON")) "u1"
       (reader_world (two_problems [due_log; other_log; fresh_log]) None)).1
      = Ok problems /\
    pd_slug <$> problems = ["two-sum"; "valid-parentheses"] /\
    pd_tags <$> problems
      = [JList [JStr "array"; JStr "string"];
         JList [JStr "stack"; JStr "string"]] /\
    exists rows, Forall2 entry_of rows problems.
Proof.
  eassert ((get_all_problems (fun _ => Raise (ValueError "no JSON")) "u1"
              (reader_world (two_problems [due_log; other_log; fresh_log])
                 None)).1 = Ok _) as H by (vm_compute; reflexivity).
  eexists. split; [exact H|]. split; [reflexivity|]. split; [reflexivity|].
  destruct (all_problems_are_the_callers_logs _ _ _ _ H)
    as (rows & _ & _ & Hrows & _).
  exists rows. exact Hrows.
Defined.

Lemma all_problems_fail_on_undecodable_tags_witness :
  is_ok (get_all_problems (fun _ => Raise (ValueError "no JSON")) "u2"
           (reader_world
              (two_problems
                 [due_log;
                  {| UserProblem.user_id := "u2";
                     UserProblem.slug := "two-sum";
                     UserProblem.title := "Two Sum";
                     UserProblem.difficulty := 1;
                     UserProblem.date_solved := 63839700000000000;
                     UserProblem.next_review_date := 63840391200000000;
                     UserProblem.tags := JStr "[array" |}]) None)).1 = false.
Proof.
  eapply (all_problems_fail_on_undecodable_tags
            (fun _ => Raise (ValueError "no JSON")) "u2" _ _ two_sum).
  - right. left.
  - reflexivity.
  - reflexivity.
  - reflexivity.
  - reflexivity.
Defined.

Lemma problem_bank_is_the_catalog_witness :
  exists problems,
    (get_problem_bank "u1"
       (reader_world (two_problems [due_log; other_log]) None)).1
      = Ok problems /\
    length problems = 2%nat /\
    (get_problem_bank "u2" (reader_world (two_problems []) None)).1
      = Ok problems.
Proof.
  eassert ((get_problem_bank "u1"
              (reader_world (two_problems [due_log; other_log]) None)).1
           = Ok _) as H by (vm_compute; reflexivity).
  eexists. split; [exact H|]. split; [reflexivity|].
  destruct (problem_bank_is_the_catalog _ _ _ H) as (_ & _ & _ & Hany).
  apply Hany; reflexivity.
Defined.

(** ** The authorization header *)

Section AuthProps.

Variable verify_id_token : string -> result (gmap string string).
Variable IndexError : exn.

Lemma prefix_split p s :
  String.prefix p s = true -> exists t, s = (p ++ t)%string.
Proof.
  revert s. induction p as [|c p IH]; intros s.
  - intros _. now exists s.
  - destruct s as [|c' s]; cbn; [discriminate|].
    destruct (Ascii.ascii_dec c c') as [<-|]; [|discriminate].
    intros H. destruct (IH s H) as [t ->]. now exists t.
Qed.

Lemma prefix_app p t : String.prefix p (p ++ t) = true.
Proof.
  induction p as [|c p IH]; [now destruct t|].
  change (String.prefix (String c p) (String c (p ++ t)) = true).
  cbn [String.prefix].
  destruct (Ascii.ascii_dec c c); [exact IH | contradiction].
Qed.

Lemma append_cons c (s t : string) :
  (String c s ++ t)%string = String c (s ++ t).
Proof. reflexivity. Qed.

Lemma append_nil_l (t : string) : ("" ++ t)%string = t.
Proof. reflexivity. Qed.

Lemma append_nil_r (s : string) : (s ++ "")%string = s.
Proof.
  induction s as [|c s IH]; [reflexivity|]. now rewrite append_cons, IH.
Qed.

Lemma append_assoc (a b c : string) :
  ((a ++ b) ++ c)%string = (a ++ (b ++ c))%string.
Proof.
  induction a as [|x a IH]; [reflexivity|]. now rewrite !append_cons, IH.
Qed.

(** The first piece of a split: up to the first occurrence of the
    separator. *)
Lemma split_from_free sep x rest piece :
  free_of sep x rest = true ->
  rest = "" \/ String.prefix sep rest = true ->
  exists tl, split_from sep (x ++ rest) 0 piece = (piece ++ x)%string :: tl.
Proof.
  revert piece. induction x as [|c x IH]; intros piece Hfree Hrest.
  - rewrite append_nil_l, append_nil_r.
    destruct rest as [|c r]; [now exists []|].
    destruct Hrest as [Hrest|Hrest]; [discriminate|].
    cbn [split_from]. rewrite Hrest. eauto.
  - cbn [free_of] in Hfree. apply andb_true_iff in Hfree as [Hc Hfree].
    apply negb_true_iff in Hc. rewrite append_cons in *. cbn [split_from].
    rewrite Hc. destruct (IH (piece ++ String c "")%string Hfree Hrest)
      as [tl ->].
    exists tl. f_equal. now rewrite append_assoc.
Qed.

Lemma split_from_nonempty sep s skip piece :
  exists x tl, split_from sep s skip piece = x :: tl.
Proof.
  revert skip piece.
  induction s as [|c s IH]; intros skip piece; cbn [split_from]; [eauto|].
  destruct skip as [|k]; [|apply IH].
  destruct (String.prefix _ _); [eauto | apply IH].
Qed.

Lemma split_bearer t :
  exists x tl, split ("Bearer " ++ t) "Bearer " = "" :: x :: tl /\
    forall a rest, t = (a ++ rest)%string ->
      free_of "Bearer " a rest = true ->
      rest = "" \/ String.prefix "Bearer " rest = true -> x = a.
Proof.
  unfold split.
  assert (split_from "Bearer " ("Bearer " ++ t) 0 ""
          = "" :: split_from "Bearer " t 0 "") as ->.
  { pose proof (prefix_app "Bearer " t) as Hp.
    change ("Bearer " ++ t)%string
      with (String "B" (String "e" (String "a" (String "r" (String "e"
              (String "r" (String " " t))))))) in *.
    cbn [split_from]. rewrite Hp. reflexivity. }
  assert (exists x tl, split_from "Bearer " t 0 "" = x :: tl) as (x & tl & Hx).
  { apply split_from_nonempty. }
  exists x, tl. split; [now rewrite Hx|].
  intros a rest -> Hfree Hrest.
  destruct (split_from_free "Bearer " a rest "" Hfree Hrest) as [tl' Ha].
  rewrite Ha in Hx. now injection Hx as <- _.
Qed.

(** X24: [verify_token] answers every request it does not accept with
    an HTTP 401, and nothing else: a missing or empty header and a
    header that does not start with "Bearer " with "Missing or invalid
    Authorization header", whatever the verifier would say, and a token
    that the verifier rejects, or whose claims hold no uid, with
    "Invalid or expired token". The index into the split header cannot
    fail. *)
Theorem verify_token_rejects_with_401 (authorization : option string) :
  match verify_token verify_id_token IndexError authorization with
  | Ok uid =>
      exists a token claims,
        authorization = Some a /\ startswith a "Bearer " = true /\
        verify_id_token token = Ok claims /\ claims !! "uid" = Some uid
  | Raise e =>
      (e = HTTPException 401 "Missing or invalid Authorization header" None /\
       forall a, authorization = Some a ->
         a = "" \/ startswith a "Bearer " = false) \/
      (e = HTTPException 401 "Invalid or expired token" None /\
       exists a, authorization = Some a /\ startswith a "Bearer " = true)
  end.
Proof.
  unfold verify_token. destruct authorization as [a|].
  - destruct (String.eqb a "") eqn:He.
    { cbn. left. split; [reflexivity|]. intros a' [= <-]. left.
      now apply String.eqb_eq. }
    destruct (startswith a "Bearer ") eqn:Hs; cbn [negb orb].
    + unfold startswith in Hs. destruct (prefix_split _ _ Hs) as [t ->].
      destruct (split_bearer t) as (x & tl & Hsplit & _).
      rewrite Hsplit. cbn. unfold authenticate.
      destruct (verify_id_token x) as [claims|e] eqn:Hv.
      * destruct (claims !! "uid") as [uid|] eqn:Hu.
        -- exists ("Bearer " ++ t)%string, x, claims.
           split; [reflexivity|]. split; [apply prefix_app|]. auto.
        -- right. split; [reflexivity|]. eexists. split; [reflexivity|].
           apply prefix_app.
      * right. split; [reflexivity|]. eexists. split; [reflexivity|].
        apply prefix_app.
    + left. split; [reflexivity|]. intros a' [= <-]. now right.
  - left. split; [reflexivity|]. discriminate.
Qed.

(** X25: the token handed to the verifier is what stands between the
    leading "Bearer " and the next "Bearer " of the header, or its end:
    anything from a second "Bearer " on is ignored. The user is the uid
    of the claims the verifier returns for that token. *)
Theorem verify_token_checks_the_first_token (token rest : string) :
  free_of "Bearer " token rest = true ->
  rest = "" \/ startswith rest "Bearer " = true ->
  verify_token verify_id_token IndexError
    (Some ("Bearer " ++ token ++ rest)%string)
    = authenticate verify_id_token token /\
  forall uid,
    verify_token verify_id_token IndexError
      (Some ("Bearer " ++ token ++ rest)%string) = Ok uid <->
    exists claims,
      verify_id_token token = Ok claims /\ claims !! "uid" = Some uid.
Proof.
  intros Hfree Hrest.
  assert (verify_token verify_id_token IndexError
            (Some ("Bearer " ++ token ++ rest)%string)
          = authenticate verify_id_token token) as Hv.
  { unfold verify_token.
    assert (String.eqb ("Bearer " ++ token ++ rest) "" = false) as ->
      by reflexivity.
    assert (startswith ("Bearer " ++ token ++ rest) "Bearer " = true) as ->
      by apply prefix_app.
    cbn [negb orb].
    destruct (split_bearer (token ++ rest)) as (x & tl & Hsplit & Hx).
    rewrite Hsplit. cbn. f_equal. now apply (Hx token rest). }
  split; [exact Hv|]. intros uid. rewrite Hv. unfold authenticate. split.
  - destruct (verify_id_token token) as [claims|]; [|discriminate].
    destruct (claims !! "uid") as [u|] eqn:Hu; [|discriminate].
    intros [= <-]. eauto.
  - intros (claims & -> & ->). reflexivity.
Qed.

End AuthProps.

Lemma verify_token_checks_the_first_token_witness :
  verify_token
    (fun t => if String.eqb t "abc " then Ok {[ "uid" := "u1" ]}
              else Raise (ValueError "bad token"))
    (ValueError "list index out of range")
    (Some "Bearer abc Bearer xyz") = Ok "u1".
Proof.
  apply (verify_token_checks_the_first_token
           (fun t => if String.eqb t "abc " then Ok {[ "uid" := "u1" ]}
                     else Raise (ValueError "bad token"))
           (ValueError "list index out of range") "abc " "Bearer xyz").
  - reflexivity.
  - right. reflexivity.
  - exists {[ "uid" := "u1" ]}. split; reflexivity.
Defined.

(** ** The date a log answers with *)

Section LogResponse.

Variables (clock clock_solved : Z) (data : ProblemLog.t) (user_id : string).

Lemma date_add_days c g : date (naive (c + timedelta g)) = date (naive c) + g.
Proof.
  unfold date, naive, timedelta. cbn [wall].
  rewrite Z.div_add by (unfold US_PER_DAY, US_PER_SECOND; lia). lia.
Qed.

Lemma calculate_next_review_gap c d last nr :
  calculate_next_review c d last = Ok nr ->
  exists g, nr = naive (c + timedelta g) /\ 1 <= g <= 90.
Proof.
  unfold calculate_next_review. destruct last as [[t tz]|].
  - unfold datetime_sub. cbn [tzinfo wall utcnow naive].
    destruct tz as [off|]; [discriminate|]. cbn.
    destruct (getitem multiplier d) as [m|e]; [|discriminate]. cbn.
    destruct (int_mul_float _ m) as [x|e]; [|discriminate]. cbn.
    destruct (float_to_int x) as [n|e]; [|discriminate]. cbn.
    unfold datetime_add. destruct (in_range _); [|discriminate].
    intros [= <-]. exists (Z.min (Z.max 1 n) 90). split; [reflexivity | lia].
  - destruct (getitem initial_days d) as [x|e] eqn:Hx; [|discriminate]. cbn.
    apply getitem_initial_days_inv in Hx as [Hd ->].
    pose proof (initialOffsetDays_range d Hd) as Hr.
    unfold datetime_add. destruct (in_range _); [|discriminate].
    intros [= <-]. exists (initialOffsetDays d). split; [reflexivity | lia].
Qed.

(** X26: a log that returns answers with a review date from 1 to 90
    days after the UTC date of the scheduler's clock; its slug is in
    the catalog and its difficulty is one of 1..5. *)
Theorem log_answers_with_a_date_within_90_days (w w' : world)
    (resp : log_response) :
  log_problem clock clock_solved data user_id w = (Ok resp, w') ->
  1 <= next_review resp - date (utcnow clock) <= 90 /\
  is_Some (leetcode_problem (db w) !! ProblemLog.slug data) /\
  1 <= ProblemLog.difficulty data <= 5.
Proof.
  intros H. apply log_problem_ok_inv in H as (nr & Hp & Hnr & _ & ->).
  cbn [next_review]. split; [|split; [exact Hp|]].
  - apply calculate_next_review_gap in Hnr as (g & -> & Hg).
    rewrite date_add_days. unfold utcnow. lia.
  - now apply calculate_next_review_difficulty in Hnr.
Qed.

(** X27: a logged problem comes up for review. After a log that
    returned, a review query of the same user that returns lists the
    logged problem among the due reviews when it is asked on a UTC day
    after the review date the log answered with, and also on that day
    itself unless the log was scheduled within the last second of its
    day, after 23:59:59. *)
Theorem logged_problem_is_due_from_its_review_date (clock' : Z)
    (w w1 : world) (resp : log_response) (reviews : reviews_response) :
  unique_keys (db w) ->
  log_problem clock clock_solved data user_id w = (Ok resp, w1) ->
  (get_todays_reviews clock' user_id w1).1 = Ok reviews ->
  next_review resp < date (utcnow clock') \/
  (next_review resp = date (utcnow clock') /\
   clock mod US_PER_DAY <= 86399 * US_PER_SECOND) ->
  exists x, x ∈ reviews_due reviews /\
    r_user_id x = user_id /\ r_slug x = ProblemLog.slug data /\
    date (r_next_review_date x) = next_review resp.
Proof.
  intros Hu Hlog Hrev Hday.
  apply log_problem_ok_inv in Hlog as (nr & [p Hp] & Hnr & Hdb & ->).
  destruct (log_upsert_one_log user_id clock_solved data (db w) nr Hu)
    as (row & Hrow & _ & _ & Hn & _).
  rewrite <- Hdb in Hrow. cbn [next_review] in *.
  assert (row ∈ logs_of (db w1) user_id (ProblemLog.slug data)) as Hin
    by (rewrite Hrow; left).
  unfold logs_of in Hin. apply list_elem_of_filter in Hin as [Hk Hin].
  apply bool_decide_eq_true in Hk as [Hku Hks].
  rewrite (calculate_next_review_naive _ _ _ _ Hnr) in Hn.
  apply calculate_next_review_gap in Hnr as (g & -> & Hg).
  cbn [wall naive] in Hn.
  assert (UserProblem.next_review_date row <= today_end_of clock') as Hdue.
  { destruct (today_end_of_bounds clock') as [Hend _]. rewrite Hend, Hn.
    rewrite date_add_days in Hday. unfold date, utcnow, naive in Hday.
    cbn [wall] in Hday. unfold timedelta.
    pose proof (Z.div_mod clock US_PER_DAY) as Hc.
    pose proof (Z.div_mod clock' US_PER_DAY) as Hc'.
    pose proof (Z.mod_pos_bound clock US_PER_DAY) as Hb.
    pose proof (Z.mod_pos_bound clock' US_PER_DAY) as Hb'.
    unfold US_PER_DAY, US_PER_SECOND in *. lia. }
  assert (leetcode_problem (db w1) !! UserProblem.slug row = Some p) as Hp1
    by (rewrite Hks, Hdb; exact Hp).
  assert ({| up := row; lp_tags := LeetcodeProblem.tags p |}
            ∈ select_due (db w1) user_id (today_end_of clock')) as Hsel.
  { apply select_due_elem. exists row, p. split; [|auto].
    split; [split; assumption | exact Hdue]. }
  destruct (get_todays_reviews clock' user_id w1) as [r w2] eqn:H.
  cbn [fst] in Hrev. subst r. apply get_todays_reviews_inv in H as [_ H].
  destruct (select_due (db w1) user_id (today_end_of clock')) as [|j js] eqn:Hd;
    [inversion Hsel|].
  subst reviews. cbn [reviews_due].
  exists (serialize {| up := row; lp_tags := LeetcodeProblem.tags p |}).
  split; [apply list_elem_of_fmap; eexists; split; [reflexivity | exact Hsel]|].
  cbn. split; [exact Hku|]. split; [exact Hks|].
  rewrite Hn. reflexivity.
Qed.

End LogResponse.

Section LogAgain.

Variable user_id : string.

Lemma spec_gap_quick d n : 1 <= d <= 5 -> n <= 1 -> spec_gap d n = 1.
Proof.
  intros Hd Hn. unfold spec_gap.
  assert (d = 1 \/ d = 2 \/ d = 3 \/ d = 4 \/ d = 5) as Hd' by lia.
  assert (Z.max 0 n = 0 \/ Z.max 0 n = 1) as [-> | ->] by lia;
    destruct Hd' as [-> | [-> | [-> | [-> | ->]]]]; reflexivity.
Qed.

(** X28: logging a problem again within two days of its last log
    schedules it for the next day, whatever the difficulty and whatever
    the review date was before: the review date the first log had set,
    up to 8 days ahead for a first log, is overwritten. *)
Theorem logging_again_at_once_schedules_tomorrow
    (clock1 solved1 clock2 solved2 : Z) (data1 data2 : ProblemLog.t)
    (w w1 w2 : world) (resp1 resp2 : log_response) :
  unique_keys (db w) ->
  ProblemLog.slug data1 = ProblemLog.slug data2 ->
  log_problem clock1 solved1 data1 user_id w = (Ok resp1, w1) ->
  log_problem clock2 solved2 data2 user_id w1 = (Ok resp2, w2) ->
  -366 <= days (clock2 - solved1) <= 1 ->
  next_review resp2 = date (utcnow clock2) + 1 /\
  exists row,
    logs_of (db w2) user_id (ProblemLog.slug data2) = [row] /\
    UserProblem.next_review_date row = clock2 + timedelta 1.
Proof.
  intros Hu Hslug H1 H2 Hdays.
  apply log_problem_ok_inv in H1 as (nr1 & _ & _ & Hdb1 & _).
  apply log_problem_ok_inv in H2 as (nr2 & _ & Hnr2 & Hdb2 & ->).
  assert (unique_keys (db w1)) as Hu1
    by (rewrite Hdb1; now apply log_upsert_unique).
  rewrite Hdb1, log_upsert_last_review in Hnr2 by auto.
  pose proof (calculate_next_review_difficulty _ _ _ _ Hnr2) as Hd.
  pose proof (calculate_next_review_naive _ _ _ _ Hnr2) as Hnaive.
  pose proof (calculate_next_review_gap _ _ _ _ Hnr2) as (g & Hg & _).
  apply calculate_next_review_repeat_inv in Hnr2 as (g' & Hgap & Hw).
  rewrite repeat_gap_spec in Hgap by lia. injection Hgap as <-.
  rewrite spec_gap_quick in Hw by lia.
  assert (g = 1) as ->.
  { subst nr2. cbn [wall naive] in Hw. unfold timedelta in Hw.
    unfold US_PER_DAY, US_PER_SECOND in Hw. lia. }
  subst nr2. cbn [next_review]. split.
  - rewrite date_add_days. reflexivity.
  - destruct (log_upsert_one_log user_id solved2 data2 (db w1)
                (naive (clock2 + timedelta 1)) Hu1)
      as (row & Hrow & _ & _ & Hn & _).
    exists row. rewrite Hdb2. split; [exact Hrow|].
    rewrite Hn, Hnaive. reflexivity.
Qed.

End LogAgain.

Lemma log_answers_with_a_date_within_90_days_witness :
  exists resp,
    (log_problem 63839890800000000 63839890800000000 (log_request 1) "u1"
       (store_of [])).1 = Ok resp /\
    1 <= next_review resp - date (utcnow 63839890800000000) <= 90.
Proof.
  eassert (log_problem 63839890800000000 63839890800000000 (log_request 1)
             "u1" (store_of []) = (Ok _, _)) as Hlog
    by (vm_compute; reflexivity).
  eexists. split; [rewrite Hlog; reflexivity|].
  exact (proj1 (log_answers_with_a_date_within_90_days _ _ _ _ _ _ _ Hlog)).
Defined.

Lemma logged_problem_is_due_from_its_review_date_witness :
  exists reviews x,
    (get_todays_reviews 63839977200000000 "u1"
       (log_problem 63839890800000000 63839890800000000 (log_request 5) "u1"
          (store_of [])).2).1 = Ok reviews /\
    x ∈ reviews_due reviews /\ r_slug x = "two-sum".
Proof.
  eassert (log_problem 63839890800000000 63839890800000000 (log_request 5)
             "u1" (store_of []) = (Ok _, _)) as Hlog
    by (vm_compute; reflexivity).
  eassert ((get_todays_reviews 63839977200000000 "u1"
              (log_problem 63839890800000000 63839890800000000
                 (log_request 5) "u1" (store_of [])).2).1 = Ok _) as Hrev
    by (vm_compute; reflexivity).
  assert (unique_keys (db (store_of []))) as Hu by constructor.
  pose proof Hrev as Hrev'. rewrite Hlog in Hrev'.
  destruct (logged_problem_is_due_from_its_review_date
              63839890800000000 63839890800000000 (log_request 5) "u1"
              63839977200000000 (store_of []) _ _ _ Hu Hlog Hrev')
    as (x & Hx & _ & Hs & _).
  - right. split; vm_compute; [reflexivity | discriminate].
  - eexists. exists x. split; [exact Hrev|]. split; [exact Hx | exact Hs].
Defined.

Lemma logging_again_at_once_schedules_tomorrow_witness :
  exists resp2,
    (log_problem 63839894400000000 63839894400000000 (log_request 1) "u1"
       (log_problem 63839890800000000 63839890800000000 (log_request 1) "u1"
          (store_of [])).2).1 = Ok resp2 /\
    next_review resp2 = date (utcnow 63839894400000000) + 1.
Proof.
  eassert (log_problem 63839890800000000 63839890800000000 (log_request 1)
             "u1" (store_of []) = (Ok _, _)) as H1
    by (vm_compute; reflexivity).
  eassert (log_problem 63839894400000000 63839894400000000 (log_request 1)
             "u1"
             (log_problem 63839890800000000 63839890800000000
                (log_request 1) "u1" (store_of [])).2 = (Ok _, _)) as H2
    by (vm_compute; reflexivity).
  assert (unique_keys (db (store_of []))) as Hu by constructor.
  eexists. split; [rewrite H2; reflexivity|].
  pose proof H2 as H2'. rewrite H1 in H2'.
  refine (proj1 (logging_again_at_once_schedules_tomorrow "u1"
                   63839890800000000 63839890800000000
                   63839894400000000 63839894400000000
                   (log_request 1) (log_request 1) (store_of []) _ _ _ _
                   Hu eq_refl H1 H2' _)).
  vm_compute. split; discriminate.
Defined.

(** ** The listing over a history of calls *)

Section ListingOverHistories.

Variable json_loads : string -> result json.

Lemma mapM_result_ok {A B} (f : A -> result B) (P : B -> Prop) l :
  (forall x, x ∈ l -> exists y, f x = Ok y /\ P y) ->
  exists ys, mapM f l = Ok ys /\ Forall P ys /\ length ys = length l.
Proof.
  induction l as [|a l IH]; intros H.
  - exists []. split; [reflexivity|]. split; [constructor | reflexivity].
  - destruct (H a) as (y & Hy & Py); [left|].
    destruct IH as (ys & Hys & Pys & Hlen); [intros x Hx; apply H; now right|].
    exists (y :: ys). rewrite mapM_result_cons, Hy. cbn. rewrite Hys. cbn.
    split; [reflexivity|]. split; [now constructor | now rewrite Hlen].
Qed.

Lemma row_tags_shape u o :
  catalog_tags_shape u = true -> catalog_tags_shape o = true ->
  exists t, row_tags json_loads u o = Ok t /\ is_list_of_strings t = true.
Proof.
  intros Hu Ho. unfold row_tags.
  assert (forall v, catalog_tags_shape v = true ->
            loads_if_str json_loads v = Ok v) as Hloads
    by (intros v; destruct v; cbn; (discriminate || reflexivity)).
  rewrite (Hloads u Hu), (Hloads o Ho). cbn.
  eexists. split; [reflexivity|]. unfold py_or.
  destruct (truthy (fix_tags u)); [now apply fix_tags_strings|].
  destruct (truthy (fix_tags o)); [now apply fix_tags_strings | reflexivity].
Qed.

Lemma normalize_tags_shape v :
  catalog_tags_shape v = true ->
  catalog_tags_shape (normalize_tags (fetched_tags (Some v))) = true.
Proof.
  destruct v; cbn; try discriminate; auto. intros _.
  unfold keys. induction items as [|[k x] items IH]; [reflexivity | exact IH].
Qed.

(** X29: over a catalog whose tags are lists of strings, mappings or
    null, the listing of a user never fails for what is stored. In
    every state the handlers can bring the store to, [get_all_problems]
    returns when the store does not fail, with one entry for each log
    of the user, and the tags of every entry are a list of strings;
    [json.loads] is not needed. *)
Theorem listing_returns_over_every_history
    (catalog : gmap string LeetcodeProblem.row) (w : world)
    (user_id : string) (w' : Scoped.world read_statement) :
  reachable catalog w ->
  (forall slug p, catalog !! slug = Some p ->
     catalog_tags_shape (LeetcodeProblem.tags p) = true) ->
  Scoped.db w' = db w -> Scoped.fuse w' = None ->
  exists problems,
    (get_all_problems json_loads user_id w').1 = Ok problems /\
    length problems = length (rows_of_user (db w) user_id) /\
    Forall (fun p => is_list_of_strings (pd_tags p) = true) problems.
Proof.
  intros Hreach Hshape Hdb Hf.
  apply reachable_kept_store in Hreach as (Hcat & _ & Hfk & Hrows).
  rewrite get_all_problems_run, read_outcome_no_fault by assumption.
  rewrite Hdb.
  destruct (mapM_result_ok (problem_of json_loads)
              (fun p => is_list_of_strings (pd_tags p) = true)
              (select_all_problems (db w) user_id))
    as (problems & Hm & Hall & Hlen).
  { intros [r p] Hrow. unfold select_all_problems in Hrow.
    rewrite sorting.merge_sort_Permutation in Hrow.
    apply list_elem_of_omap in Hrow as (r' & Hr' & Hj).
    apply list_elem_of_filter in Hr' as [_ Hr'].
    unfold join_problem in Hj.
    destruct (leetcode_problem (db w) !! UserProblem.slug r') as [p'|] eqn:Hp;
      [|discriminate].
    cbn in Hj. injection Hj as -> ->.
    destruct (Hrows r Hr') as [[_ Ht] _].
    rewrite Hcat in Hp. rewrite Hp in Ht. cbn in Ht.
    pose proof (Hshape _ _ Hp) as Hs.
    destruct (row_tags_shape (UserProblem.tags r) (LeetcodeProblem.tags p))
      as (t & Hrt & Hst); [rewrite Ht; now apply normalize_tags_shape | exact Hs|].
    unfold problem_of. cbn [fst snd]. rewrite Hrt. cbn.
    eexists. split; [reflexivity | exact Hst]. }
  exists problems. rewrite Hm. split; [reflexivity|]. split; [|exact Hall].
  rewrite Hlen. unfold select_all_problems.
  rewrite (Permutation_length (sorting.merge_sort_Permutation _ _)).
  apply omap_join_length. intros r Hr. apply Hfk.
  unfold rows_of_user in Hr. now apply list_elem_of_filter in Hr as [_ Hr].
Qed.

End ListingOverHistories.

Lemma listing_returns_over_every_history_witness :
  exists problems,
    (get_all_problems (fun _ => Raise (ValueError "no JSON")) "u1"
       (reader_world
          (db (log_problem 63839890800000000 63839890800000000
                 (log_request 3) "u1" (store_of [])).2) None)).1
      = Ok problems /\
    Forall (fun p => is_list_of_strings (pd_tags p) = true) problems.
Proof.
  destruct (listing_returns_over_every_history
              (fun _ => Raise (ValueError "no JSON"))
              {[ "two-sum" := two_sum ]}
              (log_problem 63839890800000000 63839890800000000
                 (log_request 3) "u1" (store_of [])).2 "u1"
              (reader_world
                 (db (log_problem 63839890800000000 63839890800000000
                        (log_request 3) "u1" (store_of [])).2) None))
    as (problems & H & _ & Hall).
  - apply reach_log. apply reach_empty.
  - intros slug p Hp. apply lookup_singleton_Some in Hp as [_ <-].
    reflexivity.
  - reflexivity.
  - reflexivity.
  - exists problems. split; [exact H | exact Hall].
Defined.
